(** * Thumbnail generator: a shallow embedding of [lambda_function.py]

    The handler is triggered by an S3 event, downloads the source image,
    and for each configured width creates and uploads a resized copy.

    - Python strings are [string]: sequences of 8-bit characters, read as
      the code points 0..255.
    - Floating-point arithmetic is IEEE 754 binary64, through [SpecFloat],
      the executable specification of the operations.
    - S3, the file system, the random source, the image codec and
      [urllib.parse.unquote_plus] are the environment: their answers are
      fields of [Env], their effects are recorded in [World].
    - A computation takes a [World] and returns a value or the exception
      raised, with the new [World].
    - Output on stdout ([print]) is left out.  The bodies [str(response)]
      and [str(e)] are kept as the value they print. *)

From Stdlib Require Import ZArith NArith String Ascii List Lia Bool.
From Stdlib Require Import DecimalString DecimalZ DecimalPos Sorted.
From Stdlib Require Import Floats.SpecFloat.
From stdpp Require Import gmap strings list.

Local Open Scope Z_scope.

(** ** Python strings *)

Module PyStr.

(** [s.startswith(p)] *)
Definition startswith (s p : string) : bool := String.prefix p s.

(** [s.endswith(p)] for a one-character [p]. *)
Fixpoint endswith_char (s : string) (c : ascii) : bool :=
  match s with
  | EmptyString => false
  | String a EmptyString => Ascii.eqb a c
  | String _ s' => endswith_char s' c
  end.

(** [c.lower()] on the code points 0..255: A-Z, and the Latin-1 capitals
    U+00C0..U+00DE except the multiplication sign U+00D7. *)
Definition lower_char (c : ascii) : ascii :=
  let n := N_of_ascii c in
  if ((65 <=? n) && (n <=? 90) || (192 <=? n) && (n <=? 214)
      || (216 <=? n) && (n <=? 222))%N
  then ascii_of_N (n + 32) else c.

(** [s.lower()] *)
Fixpoint lower (s : string) : string :=
  match s with
  | EmptyString => EmptyString
  | String c s' => String (lower_char c) (lower s')
  end.

(** [s.replace(old, new)] for a non-empty [old]: scan from the left; at an
    occurrence of [old] emit [new] and skip the occurrence.  [skip] counts
    the characters of the current occurrence still to be passed over. *)
Fixpoint replace_from (old new s : string) (skip : nat) : string :=
  match s with
  | EmptyString => EmptyString
  | String c s' =>
      match skip with
      | S k => replace_from old new s' k
      | O =>
          if String.prefix old s
          then new +:+ replace_from old new s' (String.length old - 1)
          else String c (replace_from old new s' 0)
      end
  end.

(** With an empty [old], Python puts [new] before every character and at
    the end. *)
Fixpoint interleave (new s : string) : string :=
  match s with
  | EmptyString => new
  | String c s' => new +:+ String c (interleave new s')
  end.

Definition replace (s old new : string) : string :=
  match old with
  | EmptyString => interleave new s
  | _ => replace_from old new s 0
  end.

(** [s.rfind(c)] for a one-character [c]: the highest index, or -1. *)
Fixpoint rfind_from (s : string) (c : ascii) (i last : Z) : Z :=
  match s with
  | EmptyString => last
  | String a s' => rfind_from s' c (i + 1) (if Ascii.eqb a c then i else last)
  end.

Definition rfind (s : string) (c : ascii) : Z := rfind_from s c 0 (-1).

(** The slices [s[:i]], [s[i:]] and [s[i:j]] for indices [0 <= i]. *)
Definition slice_to (s : string) (i : Z) : string :=
  String.substring 0 (Z.to_nat i) s.

Definition slice_from (s : string) (i : Z) : string :=
  String.substring (Z.to_nat i) (String.length s - Z.to_nat i) s.

Definition slice (s : string) (i j : Z) : string :=
  slice_to (slice_from s i) (j - i).

(** [str(n)] for an integer. *)
Definition str_int (n : Z) : string := NilZero.string_of_int (Z.to_int n).

(** [x in l] for a list of strings. *)
Definition mem (x : string) (l : list string) : bool :=
  existsb (String.eqb x) l.

End PyStr.

(** ** [os.path] (posixpath) *)

Module OsPath.
Import PyStr.

Definition sep : ascii := "/"%char.
Definition extsep : ascii := "."%char.

(** The loop of [genericpath._splitext] that skips the leading dots of the
    file name: it runs [dotIndex - filenameIndex] times at most. *)
Fixpoint splitext_scan (p : string) (filenameIndex dotIndex : Z) (n : nat)
  : option (string * string) :=
  match n with
  | O => None
  | S n' =>
      if negb (String.eqb (slice p filenameIndex (filenameIndex + 1))
                          (String extsep EmptyString))
      then Some (slice_to p dotIndex, slice_from p dotIndex)
      else splitext_scan p (filenameIndex + 1) dotIndex n'
  end.

(** [os.path.splitext(p)] *)
Definition splitext (p : string) : string * string :=
  let sepIndex := rfind p sep in
  let dotIndex := rfind p extsep in
  let whole := (p, slice_to p 0) in
  if sepIndex <? dotIndex then
    let filenameIndex := sepIndex + 1 in
    match splitext_scan p filenameIndex dotIndex
            (Z.to_nat (dotIndex - filenameIndex)) with
    | Some r => r
    | None => whole
    end
  else whole.

(** [os.path.basename(p)] *)
Definition basename (p : string) : string :=
  let i := rfind p sep + 1 in
  slice_from p i.

(** [os.path.join(a, b)] *)
Definition join (a b : string) : string :=
  if startswith b (String sep EmptyString) then b
  else if (String.eqb a EmptyString || endswith_char a sep)%bool then a +:+ b
  else a +:+ String sep b.

End OsPath.

(** ** Exceptions and results *)

(** The exceptions the modelled code can meet.  All of them are subclasses
    of Python's [Exception]. *)
Inductive Exn : Type :=
  | KeyError (key : string)
  | IndexError
  | TypeError
  | AttributeError
  | ZeroDivisionError
  | OverflowError
  | ValueError (msg : string)
  | FileNotFoundError (path : string)
  | UnidentifiedImageError (path : string)
  | OSError (msg : string)
  | ParamValidationError
  | ClientError (code : string) (msg : string)
  | OtherError (cls msg : string).

(** A computation that returns or raises. *)
Inductive Result (A : Type) : Type :=
  | Ok (a : A)
  | Raise (e : Exn).
Arguments Ok {A} a.
Arguments Raise {A} e.

(** ** Events: the JSON value handed to the handler *)

#[warnings="-register-all"]
Inductive Json : Type :=
  | JNull
  | JBool (b : bool)
  | JNum (n : Z)
  | JStr (s : string)
  | JList (l : list Json)
  | JDict (items : list (string * Json)).

Module PyJson.

Fixpoint dict_get (items : list (string * Json)) (k : string) : option Json :=
  match items with
  | [] => None
  | (k', v) :: rest => if String.eqb k' k then Some v else dict_get rest k
  end.

(** [v[k]] for a string [k]. *)
Definition getitem_str (v : Json) (k : string) : Result Json :=
  match v with
  | JDict items =>
      match dict_get items k with
      | Some x => Ok x
      | None => Raise (KeyError k)
      end
  | _ => Raise TypeError
  end.

(** [v[0]]: the first element of a list, the first character of a string;
    a JSON object has no integer key. *)
Definition getitem_0 (v : Json) : Result Json :=
  match v with
  | JList (x :: _) => Ok x
  | JList [] => Raise IndexError
  | JStr (String c _) => Ok (JStr (String c EmptyString))
  | JStr EmptyString => Raise IndexError
  | JDict _ => Raise (KeyError "0")
  | _ => Raise TypeError
  end.

End PyJson.

(** ** Floating point: Python's [float] is binary64 *)

Module PyFloat.

Definition prec : Z := 53.
Definition emax : Z := 1024.

(** An integer as an exact (not normalised) binary number. *)
Definition exact_of_int (n : Z) : spec_float :=
  match n with
  | Z0 => S754_zero false
  | Zpos p => S754_finite false p 0
  | Zneg p => S754_finite true p 0
  end.

(** [a / b] on integers: the correctly rounded quotient. *)
Definition truediv (a b : Z) : Result spec_float :=
  if b =? 0 then Raise ZeroDivisionError
  else
    match SFdiv prec emax (exact_of_int a) (exact_of_int b) with
    | S754_infinity _ => Raise OverflowError
    | q => Ok q
    end.

(** [float(n)] *)
Definition of_int (n : Z) : Result spec_float :=
  match binary_normalize prec emax n 0 false with
  | S754_infinity _ => Raise OverflowError
  | x => Ok x
  end.

(** [n * x] for an integer [n] and a float [x]. *)
Definition mul_int (n : Z) (x : spec_float) : Result spec_float :=
  match of_int n with
  | Ok fn => Ok (SFmul prec emax fn x)
  | Raise e => Raise e
  end.

(** [int(x)]: truncation toward zero. *)
Definition to_int (x : spec_float) : Result Z :=
  match x with
  | S754_zero _ => Ok 0
  | S754_infinity _ => Raise OverflowError
  | S754_nan => Raise (ValueError "cannot convert float NaN to integer")
  | S754_finite s m e =>
      let a := match e with
               | Z0 => Zpos m
               | Zpos _ => Zpos m * 2 ^ e
               | Zneg _ => Zpos m / 2 ^ (- e)
               end in
      Ok (if s then - a else a)
  end.

End PyFloat.

(** ** Images (PIL) *)

Record Image : Type := mkImage {
  size : Z * Z;          (* (width, height) *)
  mode : string          (* "RGB", "RGBA", "P", "L", ... *)
}.

(** The content of a file or of a stored object: bytes that are no image,
    or an image as some encoder wrote it. *)
Inductive Blob : Type :=
  | Opaque (bytes : string)
  | Picture (format : string) (quality : option Z) (optimize : bool)
            (img : Image).

Module PIL.

(** [img.resize((w, h), LANCZOS)]: the mode is kept; the library refuses a
    size with a side below 1. *)
Definition resize (img : Image) (sz : Z * Z) : Result Image :=
  let '(w, h) := sz in
  if ((w <? 1) || (h <? 1))%bool
  then Raise (ValueError "height and width must be > 0")
  else Ok (mkImage (w, h) (mode img)).

(** [img.convert(m)] *)
Definition convert (img : Image) (m : string) : Image :=
  mkImage (size img) m.

End PIL.

(** The height [compress_and_create_thumbnail] computes (lines 13-15). *)
Definition new_height (width original_width original_height : Z) : Result Z :=
  match PyFloat.truediv original_height original_width with
  | Raise e => Raise e
  | Ok aspect_ratio =>
      match PyFloat.mul_int width aspect_ratio with
      | Raise e => Raise e
      | Ok x => PyFloat.to_int x
      end
  end.

(** ** The environment and the world *)

(** The calls made to the storage service, in order.  A call is recorded
    when it is made, whether it succeeds or not; an upload is recorded with
    the content of the file it sends. *)
Inductive Event : Type :=
  | Download (bucket key path : string)
  | HeadObject (bucket key : string)
  | Upload (path bucket key : string) (content : Blob).

(** What the code takes from outside: library functions that are not
    modelled here and the answers of the services it calls. *)
Record Env : Type := mkEnv {
  (** [urllib.parse.unquote_plus] *)
  unquote_plus : string -> string;
  (** the 16 random bytes [uuid.uuid4] reads, as a big-endian number *)
  urandom : N;
  (** the directory [tempfile.mkdtemp] creates *)
  tempdir : string;
  (** [s3.download_file]: the object's content, or the error raised *)
  s3_download_file : string -> string -> Result Blob;
  (** [s3.head_object]: [None] when the call returns (the object exists),
      else the exception it raises *)
  s3_head_object : string -> string -> option Exn;
  (** [s3.upload_file]: the exception it raises, if any *)
  s3_upload_file : string -> string -> Blob -> option Exn;
  (** [Image.save]: the exception the encoder raises, if any *)
  pil_save : string -> option Z -> bool -> Image -> option Exn
}.

(** The local file system (by full path) and the calls made so far. *)
Record World : Type := mkWorld {
  files : gmap string Blob;
  dirs : gset string;
  calls : list Event
}.

Definition record_call (ev : Event) (w : World) : World :=
  mkWorld (files w) (dirs w) (calls w ++ [ev]).

Definition write_file (path : string) (b : Blob) (w : World) : World :=
  mkWorld (<[path := b]> (files w)) (dirs w) (calls w).

Definition delete_file (path : string) (w : World) : World :=
  mkWorld (delete path (files w)) (dirs w) (calls w).

(** ** Stateful computations that may raise *)

Definition M (A : Type) : Type := World -> Result A * World.

Definition ret {A} (a : A) : M A := fun w => (Ok a, w).
Definition raise {A} (e : Exn) : M A := fun w => (Raise e, w).
Definition lift {A} (r : Result A) : M A := fun w => (r, w).

Definition bind {A B} (m : M A) (k : A -> M B) : M B :=
  fun w =>
    match m w with
    | (Ok a, w') => k a w'
    | (Raise e, w') => (Raise e, w')
    end.

(** [try: m  except Exception as e: h e] *)
Definition try_except {A} (m : M A) (h : Exn -> M A) : M A :=
  fun w =>
    match m w with
    | (Ok a, w') => (Ok a, w')
    | (Raise e, w') => h e w'
    end.

Declare Scope py_scope.
Delimit Scope py_scope with py.
Notation "'let*' x ':=' m 'in' k" := (bind m (fun x => k))
  (at level 10, x name, m at level 100, k at level 200) : py_scope.
Local Open Scope py_scope.

(** ** File system and library calls *)

Module Os.
Import PyStr.

(** [tempfile.mkdtemp()] *)
Definition mkdtemp (env : Env) : M string :=
  fun w => (Ok (tempdir env),
            mkWorld (files w) ({[tempdir env]} ∪ dirs w) (calls w)).

(** [os.path.exists(path)] *)
Definition path_exists (path : string) : M bool :=
  fun w => (Ok (bool_decide (is_Some (files w !! path))
                || bool_decide (path ∈ dirs w)), w).

(** [os.remove(path)] *)
Definition remove (path : string) : M unit :=
  fun w =>
    match files w !! path with
    | Some _ => (Ok tt, delete_file path w)
    | None => (Raise (FileNotFoundError path), w)
    end.

(** A file lies under directory [d] when its path continues [d/]. *)
Definition under (d path : string) : bool :=
  startswith path (if endswith_char d OsPath.sep then d
                   else d +:+ String OsPath.sep EmptyString).

(** [os.rmdir(d)]: only an empty directory is removed. *)
Definition rmdir (d : string) : M unit :=
  fun w =>
    if bool_decide (d ∈ dirs w) then
      if bool_decide (map_Forall (fun p _ => under d p = false) (files w))
      then (Ok tt, mkWorld (files w) (dirs w ∖ {[d]}) (calls w))
      else (Raise (OSError "Directory not empty"), w)
    else (Raise (FileNotFoundError d), w).

End Os.

Module S3.

(** boto3 checks the type of [Bucket] before it sends a request. *)
Definition bucket_param (v : Json) : Result string :=
  match v with
  | JStr b => Ok b
  | _ => Raise ParamValidationError
  end.

(** [s3.download_file(bucket, key, path)] *)
Definition download_file (env : Env) (bucket key path : string) : M unit :=
  fun w =>
    let w := record_call (Download bucket key path) w in
    match s3_download_file env bucket key with
    | Ok blob => (Ok tt, write_file path blob w)
    | Raise e => (Raise e, w)
    end.

(** [s3.head_object(Bucket=bucket, Key=key)] *)
Definition head_object (env : Env) (bucket key : string) : M unit :=
  fun w =>
    let w := record_call (HeadObject bucket key) w in
    match s3_head_object env bucket key with
    | None => (Ok tt, w)
    | Some e => (Raise e, w)
    end.

(** [s3.upload_file(path, bucket, key)] *)
Definition upload_file (env : Env) (path bucket key : string) : M unit :=
  fun w =>
    match files w !! path with
    | None => (Raise (FileNotFoundError path), w)
    | Some blob =>
        let w := record_call (Upload path bucket key blob) w in
        match s3_upload_file env bucket key blob with
        | None => (Ok tt, w)
        | Some e => (Raise e, w)
        end
    end.

End S3.

Module PILio.

(** [Image.open(path)] *)
Definition open (path : string) : M Image :=
  fun w =>
    match files w !! path with
    | None => (Raise (FileNotFoundError path), w)
    | Some (Opaque _) => (Raise (UnidentifiedImageError path), w)
    | Some (Picture _ _ _ img) => (Ok img, w)
    end.

(** [img.save(path, format=fmt, quality=q, optimize=o)] *)
Definition save (env : Env) (img : Image) (path fmt : string)
    (quality : option Z) (optimize : bool) : M unit :=
  fun w =>
    match pil_save env fmt quality optimize img with
    | Some e => (Raise e, w)
    | None => (Ok tt, write_file path (Picture fmt quality optimize img) w)
    end.

End PILio.

(** ** [uuid.uuid4().hex] *)

Module Uuid.

Definition hex_char (d : N) : ascii :=
  match String.get (N.to_nat d) "0123456789abcdef" with
  | Some c => c
  | None => "0"%char
  end.

(** The last [n] hexadecimal digits of [x], most significant first. *)
Fixpoint hex_digits (n : nat) (x : N) (acc : string) : string :=
  match n with
  | O => acc
  | S n' => hex_digits n' (x / 16)%N (String (hex_char (x mod 16)%N) acc)
  end.

(** [UUID(bytes=..., version=4).int]: variant and version bits are set. *)
Definition uuid4_int (random : N) : N :=
  let i := (random mod 2 ^ 128)%N in
  let i := N.ldiff i (N.shiftl 0xc000 48) in
  let i := N.lor i (N.shiftl 0x8000 48) in
  let i := N.ldiff i (N.shiftl 0xf000 64) in
  N.lor i (N.shiftl 4 76).

(** [uuid.uuid4().hex], that is ['%032x' % int]. *)
Definition uuid4_hex (random : N) : string :=
  hex_digits 32 (uuid4_int random) EmptyString.

End Uuid.

(** ** The program *)

Import PyStr.

(** [compress_and_create_thumbnail(image_path, output_path, width,
    original_ext, quality)] *)
Definition compress_and_create_thumbnail (env : Env)
    (image_path output_path : string) (width : Z) (original_ext : string)
    (quality : Z) : M unit :=
  let* img := PILio.open image_path in
  let '(original_width, original_height) := size img in
  let* new_height := lift (new_height width original_width original_height) in
  let* resized_img := lift (PIL.resize img (width, new_height)) in
  if String.eqb (lower original_ext) ".png" then
    PILio.save env resized_img output_path "PNG" None true
  else
    let resized_img :=
      if mem (mode resized_img) ["RGBA"; "P"]
      then PIL.convert resized_img "RGB" else resized_img in
    PILio.save env resized_img output_path "JPEG" (Some quality) true.

(** The default of the [quality] parameter. *)
Definition default_quality : Z := 70.

(** [sanitize_filename(filename)] *)
Definition sanitize_filename (filename : string) : string :=
  replace (replace (replace filename " " "_") "(" "_") ")" "_".

(** The response dictionary of a completed run. *)
Record Summary : Type := mkSummary {
  original_file : string;
  processed_files : list string;
  original_filename : string;
  sanitized_filename : string
}.

(** The ['body'] of a result: a formatted string, [str(response)] or
    [str(e)]. *)
Inductive Body : Type :=
  | BodyStr (s : string)
  | BodyResponse (r : Summary)
  | BodyError (e : Exn).

Record Response : Type := mkResponse {
  statusCode : Z;
  body : Body
}.

(** [r] then [k], unless [r] raised. *)
Definition and_then {A B} (r : Result A) (k : A -> Result B) : Result B :=
  match r with
  | Ok a => k a
  | Raise e => Raise e
  end.

(** [event['Records'][0]['s3'][a][b]] *)
Definition event_item (event : Json) (a b : string) : Result Json :=
  and_then
    (and_then
       (and_then
          (and_then (PyJson.getitem_str event "Records") PyJson.getitem_0)
          (fun record => PyJson.getitem_str record "s3"))
       (fun s3 => PyJson.getitem_str s3 a))
    (fun x => PyJson.getitem_str x b).

(** Lines 32 and 35: the bucket name, then the decoded object key
    ([unquote_plus] raises on a value that is no string). *)
Definition event_fields (env : Env) (event : Json) : Result (Json * string) :=
  and_then (event_item event "bucket" "name") (fun bucket_name =>
  and_then (event_item event "object" "key") (fun k =>
  match k with
  | JStr k => Ok (bucket_name, unquote_plus env k)
  | _ => Raise AttributeError
  end)).

Definition sizes : list Z := [200; 300; 500; 1000].

Section Loop.
(** The variables of [lambda_handler] the loop reads. *)
Variable env : Env.
Variables bucket_name temp_dir local_input_path : string.
Variables file_ext base_file_name save_ext folder_path : string.

(** Lines 79-85: [true] stands for [continue]. *)
Definition already_processed (s3_key : string) : M bool :=
  try_except
    (let* _ := S3.head_object env bucket_name s3_key in ret true)
    (fun e =>
       match e with
       | ClientError code _ =>
           if negb (String.eqb code "404") then raise e else ret false
       | _ => raise e
       end).

(** The [for size in sizes] loop, lines 73-96. *)
Fixpoint process_sizes (sizes : list Z) (processed_files : list string)
  : M (list string) :=
  match sizes with
  | [] => ret processed_files
  | size :: rest =>
      let output_file_name :=
        str_int size +:+ "_" +:+ base_file_name +:+ save_ext in
      let local_output_path := OsPath.join temp_dir output_file_name in
      let s3_key := folder_path +:+ output_file_name in
      let* skip := already_processed s3_key in
      if skip then process_sizes rest processed_files
      else
        let* _ := compress_and_create_thumbnail env local_input_path
                    local_output_path size file_ext default_quality in
        let* _ := S3.upload_file env local_output_path bucket_name s3_key in
        let processed_files :=
          processed_files
            ++ ["s3://" +:+ bucket_name +:+ "/" +:+ s3_key] in
        let* present := Os.path_exists local_output_path in
        let* _ := if present then Os.remove local_output_path
                  else ret tt in
        process_sizes rest processed_files
  end.
End Loop.

(** [lambda_handler(event, context)] *)
Definition lambda_handler (env : Env) (event : Json) : M Response :=
  let* fields := lift (event_fields env event) in
  let '(bucket_name, object_key) := fields in
  if negb (startswith object_key "source_image/") then
    ret (mkResponse 200 (BodyStr ("Skipped: " +:+ object_key)))
  else
    let file_ext := lower (snd (OsPath.splitext object_key)) in
    if negb (mem file_ext [".jpg"; ".jpeg"; ".png"]) then
      ret (mkResponse 200 (BodyStr ("Unsupported file type: " +:+ file_ext)))
    else
      let file_name := OsPath.basename object_key in
      let name_without_ext := fst (OsPath.splitext file_name) in
      let random_id := slice_to (Uuid.uuid4_hex (urandom env)) 8 in
      let sanitized_name := sanitize_filename name_without_ext in
      let base_file_name := sanitized_name +:+ "_" +:+ random_id in
      let save_ext :=
        if String.eqb (lower file_ext) ".png" then ".png" else ".jpg" in
      let folder_path := "processed_image/" +:+ base_file_name +:+ "/" in
      let* temp_dir := Os.mkdtemp env in
      let local_input_path := OsPath.join temp_dir file_name in
      try_except
        (let* bucket := lift (S3.bucket_param bucket_name) in
         let* _ := S3.download_file env bucket object_key local_input_path in
         let* processed_files :=
           process_sizes env bucket temp_dir local_input_path file_ext
             base_file_name save_ext folder_path sizes [] in
         let* present := Os.path_exists local_input_path in
         let* _ := if present then Os.remove local_input_path else ret tt in
         let* _ := try_except (Os.rmdir temp_dir) (fun _ => ret tt) in
         let response :=
           mkSummary ("s3://" +:+ bucket +:+ "/" +:+ object_key)
             processed_files file_name (base_file_name +:+ save_ext) in
         ret (mkResponse 200 (BodyResponse response)))
        (fun e => ret (mkResponse 500 (BodyError e))).

(** ** The names the handler derives from an object key *)

Section Names.
Variable env : Env.
Variable object_key : string.

Definition file_ext_of : string := lower (snd (OsPath.splitext object_key)).
Definition file_name_of : string := OsPath.basename object_key.
Definition random_id_of : string :=
  slice_to (Uuid.uuid4_hex (urandom env)) 8.
Definition base_file_name_of : string :=
  sanitize_filename (fst (OsPath.splitext file_name_of))
    +:+ "_" +:+ random_id_of.
Definition save_ext_of : string :=
  if String.eqb (lower file_ext_of) ".png" then ".png" else ".jpg".
Definition folder_path_of : string :=
  "processed_image/" +:+ base_file_name_of +:+ "/".
Definition local_input_path_of : string :=
  OsPath.join (tempdir env) file_name_of.
Definition output_file_name_of (size : Z) : string :=
  str_int size +:+ "_" +:+ base_file_name_of +:+ save_ext_of.
Definition s3_key_of (size : Z) : string :=
  folder_path_of +:+ output_file_name_of size.
Definition local_output_path_of (size : Z) : string :=
  OsPath.join (tempdir env) (output_file_name_of size).
Definition location_of (bucket : string) (size : Z) : string :=
  "s3://" +:+ bucket +:+ "/" +:+ s3_key_of size.
End Names.

(** The two tests of lines 38 and 44. *)
Definition eligible (object_key : string) : bool :=
  startswith object_key "source_image/"
  && mem (file_ext_of object_key) [".jpg"; ".jpeg"; ".png"].

(** The loop of the handler, on the names derived from [object_key]. *)
Definition handler_loop (env : Env) (bucket object_key : string)
  : list Z -> list string -> M (list string) :=
  process_sizes env bucket (tempdir env) (local_input_path_of env object_key)
    (file_ext_of object_key) (base_file_name_of env object_key)
    (save_ext_of object_key) (folder_path_of env object_key).

(** Lines 98-119: the scratch files are removed after the loop and the
    response is returned. *)
Definition finish (env : Env) (object_key : string) (resp : Response)
  : M Response :=
  let* present := Os.path_exists (local_input_path_of env object_key) in
  let* _ := if present then Os.remove (local_input_path_of env object_key)
            else ret tt in
  let* _ := try_except (Os.rmdir (tempdir env)) (fun _ => ret tt) in
  ret resp.

(** An exception is fatal for the existence check unless it is a
    [ClientError] with code 404 (line 84). *)
Definition not_found (e : Exn) : bool :=
  match e with
  | ClientError code _ => String.eqb code "404"
  | _ => false
  end.

(** Projections of a sequence of calls. *)
Definition is_download (ev : Event) : bool :=
  match ev with Download _ _ _ => true | _ => false end.

Definition head_keys (evs : list Event) : list string :=
  omap (fun ev => match ev with HeadObject _ k => Some k | _ => None end) evs.
Definition upload_keys (evs : list Event) : list string :=
  omap (fun ev => match ev with Upload _ _ k _ => Some k | _ => None end) evs.

(** The calls a run adds to those made before it. *)
Definition new_calls (before after : World) : list Event :=
  drop (length (calls before)) (calls after).

(** ** The specification's wording, for comparison *)

Module Spec.

(** Each space, '(' and ')' replaced by '_'. *)
Definition sanitized_char (c : ascii) : ascii :=
  if (Ascii.eqb c " " || Ascii.eqb c "(" || Ascii.eqb c ")")%bool
  then "_"%char else c.

Fixpoint sanitizedBase (name : string) : string :=
  match name with
  | EmptyString => EmptyString
  | String c s => String (sanitized_char c) (sanitizedBase s)
  end.

(** ".png" for PNG sources, ".jpg" otherwise. *)
Definition ext (source_ext : string) : string :=
  if String.eqb (lower source_ext) ".png" then ".png" else ".jpg".

(** processed_image/{sanitizedBase}_{token}/{width}_{sanitizedBase}_{token}{ext} *)
Definition outputKey (base token e : string) (width : Z) : string :=
  "processed_image/" +:+ base +:+ "_" +:+ token +:+ "/"
    +:+ str_int width +:+ "_" +:+ base +:+ "_" +:+ token +:+ e.

Definition is_hex (c : ascii) : bool :=
  let n := N_of_ascii c in
  ((48 <=? n) && (n <=? 57) || (97 <=? n) && (n <=? 102))%N.

Fixpoint all_hex (s : string) : bool :=
  match s with
  | EmptyString => true
  | String c s' => is_hex c && all_hex s'
  end.

(** round(w * H / W): the nearest integer, a half rounded to even as
    Python's [round] does. *)
Definition rounded_height (w W H : Z) : Z :=
  let q := (w * H) / W in
  let r := (w * H) mod W in
  match 2 * r ?= W with
  | Lt => q
  | Gt => q + 1
  | Eq => if Z.even q then q else q + 1
  end.

(** The format rule: PNG for a ".png" source; else JPEG at the given
    quality, optimised, an RGBA or P image flattened to RGB first. *)
Definition flattened (img : Image) : Image :=
  if mem (mode img) ["RGBA"; "P"] then mkImage (size img) "RGB" else img.

Definition encoded (source_ext : string) (quality : Z) (resized : Image)
  : Blob :=
  if String.eqb (lower source_ext) ".png"
  then Picture "PNG" None true resized
  else Picture "JPEG" (Some quality) true (flattened resized).

(** An event has the structure Records[0].s3.bucket.name and
    Records[0].s3.object.key: objects, and a list for Records. *)
Definition field (v : option Json) (k : string) : option Json :=
  match v with
  | Some (JDict items) => PyJson.dict_get items k
  | _ => None
  end.

Definition first (v : option Json) : option Json :=
  match v with
  | Some (JList (x :: _)) => Some x
  | _ => None
  end.

Definition record_s3 (event : Json) : option Json :=
  field (first (field (Some event) "Records")) "s3".

Definition has_structure (event : Json) : bool :=
  match field (field (record_s3 event) "bucket") "name",
        field (field (record_s3 event) "object") "key" with
  | Some _, Some _ => true
  | _, _ => false
  end.

End Spec.

(** ** Concrete inputs *)

Module Example.

Definition hex_value (c : ascii) : option N :=
  let n := N_of_ascii c in
  if ((48 <=? n) && (n <=? 57))%N then Some (n - 48)%N
  else if ((97 <=? n) && (n <=? 102))%N then Some (n - 87)%N
  else if ((65 <=? n) && (n <=? 70))%N then Some (n - 55)%N
  else None.

(** Percent-decoding as [urllib.parse.unquote] does it on a key whose
    escapes are all below %80. *)
Fixpoint unquote (s : string) : string :=
  match s with
  | EmptyString => EmptyString
  | String c s1 =>
      if Ascii.eqb c "%" then
        match s1 with
        | String a (String b rest) =>
            match hex_value a, hex_value b with
            | Some x, Some y => String (ascii_of_N (16 * x + y)) (unquote rest)
            | _, _ => String c (unquote s1)
            end
        | _ => String c (unquote s1)
        end
      else String c (unquote s1)
  end.

Definition unquote_plus_ascii (s : string) : string :=
  unquote (replace s "+" " ").

(** The S3 notification for [key] in [bucket]. *)
Definition s3_event (bucket key : string) : Json :=
  JDict [("Records",
          JList [JDict [("eventName", JStr "ObjectCreated:Put");
                        ("s3", JDict [("bucket", JDict [("name", JStr bucket)]);
                                      ("object", JDict [("key", JStr key)])])]])].

(** An environment where the source is the picture [src], the existence
    check answers [head] and uploads answer [up]. *)
Definition env_with (src : Blob) (head : string -> option Exn)
    (up : string -> option Exn) : Env :=
  mkEnv unquote_plus_ascii 0x0123456789abcdef0123456789abcdef "/tmp/tmpk3x"
    (fun _ _ => Ok src)
    (fun _ key => head key)
    (fun _ key _ => up key)
    (fun _ _ _ _ => None).

Definition photo : Blob := Picture "JPEG" None false (mkImage (1920, 1080) "RGB").

Definition absent : Exn := ClientError "404" "Not Found".
Definition forbidden : Exn := ClientError "403" "Forbidden".

Definition empty_world : World := mkWorld ∅ ∅ [].

Definition all_present : Env := env_with photo (fun _ => None) (fun _ => None).
Definition none_present : Env :=
  env_with photo (fun _ => Some absent) (fun _ => None).
Definition check_denied : Env :=
  env_with photo (fun _ => Some forbidden) (fun _ => None).
Definition upload_fails : Env :=
  env_with photo (fun _ => Some absent)
    (fun _ => Some (OtherError "S3UploadFailedError" "Failed to upload")).

(** An environment that skips exactly the widths in [skipped]. *)
Definition skipping (skipped : list Z) : Env :=
  env_with photo
    (fun key =>
       if existsb (fun s => String.eqb key
                      (s3_key_of all_present "source_image/a.jpg" s)) skipped
       then None else Some absent)
    (fun _ => None).

End Example.

(** ** The shape of a run of the loop *)

(** What [compress_and_create_thumbnail] writes for a source of extension
    [file_ext] (lines 19-24). *)
Definition encoded_as (file_ext : string) (blob : Blob) : Prop :=
  match blob with
  | Opaque _ => False
  | Picture fmt q opt img =>
      if String.eqb (lower file_ext) ".png"
      then fmt = "PNG" /\ q = None /\ opt = true
      else fmt = "JPEG" /\ q = Some default_quality /\ opt = true
           /\ mem (mode img) ["RGBA"; "P"] = false
  end.

(** [loop_trace env bucket key sizes evs ws out]: on the widths [sizes] the
    loop makes the calls [evs], records the widths [ws] as processed, and
    completes ([out = None]) or is left by exception [e] ([out = Some e]). *)
Inductive loop_trace (env : Env) (bucket key : string)
  : list Z -> list Event -> list Z -> option Exn -> Prop :=
  | trace_done :
      loop_trace env bucket key [] [] [] None
  | trace_skip size rest evs ws out :
      s3_head_object env bucket (s3_key_of env key size) = None ->
      loop_trace env bucket key rest evs ws out ->
      loop_trace env bucket key (size :: rest)
        (HeadObject bucket (s3_key_of env key size) :: evs) ws out
  | trace_check_fails size rest e :
      s3_head_object env bucket (s3_key_of env key size) = Some e ->
      not_found e = false ->
      loop_trace env bucket key (size :: rest)
        [HeadObject bucket (s3_key_of env key size)] [] (Some e)
  | trace_thumbnail_fails size rest e e' :
      s3_head_object env bucket (s3_key_of env key size) = Some e ->
      not_found e = true ->
      loop_trace env bucket key (size :: rest)
        [HeadObject bucket (s3_key_of env key size)] [] (Some e')
  | trace_upload_fails size rest e blob e' :
      s3_head_object env bucket (s3_key_of env key size) = Some e ->
      not_found e = true ->
      encoded_as (file_ext_of key) blob ->
      s3_upload_file env bucket (s3_key_of env key size) blob = Some e' ->
      loop_trace env bucket key (size :: rest)
        [HeadObject bucket (s3_key_of env key size);
         Upload (local_output_path_of env key size) bucket
           (s3_key_of env key size) blob] [] (Some e')
  | trace_work size rest e blob evs ws out :
      s3_head_object env bucket (s3_key_of env key size) = Some e ->
      not_found e = true ->
      encoded_as (file_ext_of key) blob ->
      s3_upload_file env bucket (s3_key_of env key size) blob = None ->
      loop_trace env bucket key rest evs ws out ->
      loop_trace env bucket key (size :: rest)
        (HeadObject bucket (s3_key_of env key size)
         :: Upload (local_output_path_of env key size) bucket
              (s3_key_of env key size) blob :: evs)
        (size :: ws) out.

(** A width whose check did not return normally. *)
Definition to_process (env : Env) (bucket key : string) (size : Z) : bool :=
  match s3_head_object env bucket (s3_key_of env key size) with
  | None => false
  | Some _ => true
  end.

(** The result of the loop for a given outcome. *)
Definition loop_result (env : Env) (bucket key : string) (acc : list string)
    (ws : list Z) (out : option Exn) : Result (list string) :=
  match out with
  | None => Ok (acc ++ map (location_of env key bucket) ws)
  | Some e => Raise e
  end.

(** The response of a completed run (lines 108-119) and of a failed one
    (lines 122-125). *)
Definition summary (env : Env) (bucket key : string)
    (processed : list string) : Response :=
  mkResponse 200
    (BodyResponse
       (mkSummary ("s3://" +:+ bucket +:+ "/" +:+ key) processed
          (file_name_of key)
          (base_file_name_of env key +:+ save_ext_of key))).

Definition failure (e : Exn) : Response := mkResponse 500 (BodyError e).

(** The exceptions of a failed subscript. *)
Definition subscript_error (e : Exn) : Prop :=
  e = TypeError \/ e = IndexError \/ exists k, e = KeyError k.

(** [code] computes the value [spec] describes; where there is none,
    [code] raises. *)
Definition computes (code : Result Json) (spec : option Json) : Prop :=
  match spec with
  | Some x => code = Ok x
  | None => exists e, code = Raise e /\ subscript_error e
  end.

(** The same, except that [code] may also hold a string (the first
    character of a string). *)
Definition computes_or_str (code : Result Json) (spec : option Json)
  : Prop :=
  match spec with
  | Some x => code = Ok x
  | None => (exists e, code = Raise e /\ subscript_error e)
            \/ exists s, code = Ok (JStr s)
  end.

(** The answer of the encoder for a picture. *)
Definition save_error (env : Env) (blob : Blob) : option Exn :=
  match blob with
  | Picture fmt q opt img => pil_save env fmt q opt img
  | Opaque _ => None
  end.

(** ** More definitions, for the further properties *)

(** The characters of a string. *)
Abbreviation chars := list_ascii_of_string.

(** A directory name as [os.path.join] puts it before a relative name. *)
Definition dir_prefix (a : string) : string :=
  if (String.eqb a "" || endswith_char a OsPath.sep)%bool then a
  else a +:+ String OsPath.sep "".



(** The bucket a call addresses. *)
Definition event_bucket (ev : Event) : string :=
  match ev with
  | Download b _ _ => b
  | HeadObject b _ => b
  | Upload _ b _ _ => b
  end.

(** The world after lines 63-68 when the download succeeds. *)
Definition downloaded (env : Env) (bucket key : string) (blob : Blob)
    (w : World) : World :=
  write_file (local_input_path_of env key) blob
    (record_call (Download bucket key (local_input_path_of env key))
       (snd (Os.mkdtemp env w))).

(** More concrete inputs. *)
Module ExampleMore.
(** A source object that is no image. *)
Definition not_an_image : Env :=
  Example.env_with (Opaque "%PDF-1.7") (fun _ => Some Example.absent)
    (fun _ => None).

(** A notification with a second record. *)
Definition two_records : Json :=
  JDict [("Records",
          JList [JDict [("s3", JDict [("bucket", JDict [("name", JStr "photos")]);
                                      ("object",
                                       JDict [("key", JStr "archive/doc.jpg")])])];
                 JDict [("s3", JDict [("bucket", JDict [("name", JStr "photos")]);
                                      ("object",
                                       JDict [("key",
                                               JStr "source_image/a.jpg")])])]])].

(** A world with a file and a directory of its own. *)
Definition busy_world : World :=
  mkWorld {[ "/var/task/lambda_function.py" := Opaque "import boto3" ]}
    {[ "/var/task" ]} [].

(** An environment whose source object is missing. *)
Definition missing_source : Env :=
  mkEnv Example.unquote_plus_ascii 0x0123456789abcdef0123456789abcdef
    "/tmp/tmpk3x"
    (fun _ _ => Raise (ClientError "404" "Not Found"))
    (fun _ _ => Some Example.absent)
    (fun _ _ _ => None)
    (fun _ _ _ _ => None).
End ExampleMore.

(** * Properties *)

(** ** Computations *)

Lemma bind_ok {A B} (m : M A) (k : A -> M B) w a w' :
  m w = (Ok a, w') -> bind m k w = k a w'.
Proof. unfold bind. now intros ->. Qed.

Lemma bind_raise {A B} (m : M A) (k : A -> M B) w e w' :
  m w = (Raise e, w') -> bind m k w = (Raise e, w').
Proof. unfold bind. now intros ->. Qed.

(** ** The existence check *)

Section Check.
Variable env : Env.
Variables bucket s3_key : string.

Lemma already_processed_present w :
  s3_head_object env bucket s3_key = None ->
  already_processed env bucket s3_key w
  = (Ok true, record_call (HeadObject bucket s3_key) w).
Proof.
  intros H. unfold already_processed, try_except, bind, S3.head_object.
  now rewrite H.
Qed.

Lemma already_processed_absent w e :
  s3_head_object env bucket s3_key = Some e -> not_found e = true ->
  already_processed env bucket s3_key w
  = (Ok false, record_call (HeadObject bucket s3_key) w).
Proof.
  intros H Hnf. unfold already_processed, try_except, bind, S3.head_object.
  rewrite H. destruct e; try discriminate. simpl in Hnf. now rewrite Hnf.
Qed.

Lemma already_processed_fatal w e :
  s3_head_object env bucket s3_key = Some e -> not_found e = false ->
  already_processed env bucket s3_key w
  = (Raise e, record_call (HeadObject bucket s3_key) w).
Proof.
  intros H Hnf. unfold already_processed, try_except, bind, S3.head_object.
  rewrite H. destruct e; try reflexivity. simpl in Hnf. now rewrite Hnf.
Qed.
End Check.

(** ** The thumbnail *)

Section Thumbnail.
Variable env : Env.
Variables image_path output_path : string.
Variable width : Z.
Variables (original_ext : string) (quality : Z).

Abbreviation thumbnail :=
  (compress_and_create_thumbnail env image_path output_path width
     original_ext quality).

(** The function makes no call to the storage service, and a run that
    raises leaves the files as they were. *)
Lemma thumbnail_cases w :
  (exists e, thumbnail w = (Raise e, w))
  \/ (exists fmt q o src h,
        files w !! image_path = Some (Picture fmt q o src)
        /\ new_height width (fst (size src)) (snd (size src)) = Ok h
        /\ 1 <= width /\ 1 <= h
        /\ save_error env
             (Spec.encoded original_ext quality
                (mkImage (width, h) (mode src))) = None
        /\ thumbnail w
           = (Ok tt, write_file output_path
                       (Spec.encoded original_ext quality
                          (mkImage (width, h) (mode src))) w)).
Proof.
  unfold compress_and_create_thumbnail, bind, PILio.open, lift.
  destruct (files w !! image_path) as [[bytes|fmt q o src]|] eqn:Hf;
    [left; eauto| |left; eauto].
  destruct src as [[ow oh] m]; simpl.
  destruct (new_height width ow oh) as [h|e] eqn:Hh; [|left; eauto].
  unfold PIL.resize.
  destruct (Z.ltb_spec width 1); simpl; [left; eauto|].
  destruct (Z.ltb_spec h 1); simpl; [left; eauto|].
  unfold Spec.encoded, Spec.flattened, PILio.save, PIL.convert; simpl.
  destruct (String.eqb (lower original_ext) ".png"); simpl.
  - destruct (pil_save env "PNG" None true (mkImage (width, h) m)) eqn:Hs;
      [left; eauto|].
    right. exists fmt, q, o, (mkImage (ow, oh) m), h. simpl.
    rewrite Hs. repeat split; auto.
  - destruct (mem m ["RGBA"; "P"]); simpl;
      match goal with
      | |- context [pil_save env ?f ?q ?o ?i] =>
          destruct (pil_save env f q o i) eqn:Hs
      end; try (left; eauto; fail);
      right; exists fmt, q, o, (mkImage (ow, oh) m), h; simpl;
      rewrite Hs; repeat split; auto.
Qed.

(** What is written obeys the format rule for the handler's quality. *)
Lemma encoded_obeys (img : Image) :
  quality = default_quality ->
  encoded_as original_ext (Spec.encoded original_ext quality img).
Proof.
  intros ->. unfold encoded_as, Spec.encoded, Spec.flattened.
  destruct (String.eqb (lower original_ext) ".png") eqn:E;
    [|destruct (mem (mode img) ["RGBA"; "P"]) eqn:Hm];
    cbn [encoded_as]; try rewrite E; simpl; auto.
Qed.
End Thumbnail.

(** ** The loop *)

Lemma calls_record_call ev w : calls (record_call ev w) = calls w ++ [ev].
Proof. reflexivity. Qed.

Section LoopFacts.
Variable env : Env.
Variables bucket key : string.

Abbreviation loop := (handler_loop env bucket key).
Abbreviation s3_key := (s3_key_of env key).
Abbreviation local_out := (local_output_path_of env key).

(** One turn of the loop (lines 74-96). *)
Lemma loop_cons size rest acc :
  loop (size :: rest) acc
  = (let* skip := already_processed env bucket (s3_key size) in
     if skip then loop rest acc
     else
       let* _ := compress_and_create_thumbnail env
                   (local_input_path_of env key) (local_out size) size
                   (file_ext_of key) default_quality in
       let* _ := S3.upload_file env (local_out size) bucket (s3_key size) in
       let* present := Os.path_exists (local_out size) in
       let* _ := if present then Os.remove (local_out size) else ret tt in
       loop rest (acc ++ [location_of env key bucket size])).
Proof. reflexivity. Qed.

(** An existing output: the width is skipped and the loop goes on. *)
Lemma loop_skip size rest acc w :
  s3_head_object env bucket (s3_key size) = None ->
  loop (size :: rest) acc w
  = loop rest acc (record_call (HeadObject bucket (s3_key size)) w).
Proof.
  intros H. rewrite loop_cons.
  now rewrite (bind_ok _ _ _ _ _ (already_processed_present _ _ _ w H)).
Qed.

(** A failed check that is not "not found": the loop is left at once. *)
Lemma loop_fatal size rest acc w e :
  s3_head_object env bucket (s3_key size) = Some e ->
  not_found e = false ->
  loop (size :: rest) acc w
  = (Raise e, record_call (HeadObject bucket (s3_key size)) w).
Proof.
  intros H Hnf. rewrite loop_cons.
  now rewrite (bind_raise _ _ _ _ _ (already_processed_fatal _ _ _ w e H Hnf)).
Qed.

(** Every run of the loop has one of the shapes of [loop_trace]. *)
Lemma loop_sound sizes : forall acc w r w',
  loop sizes acc w = (r, w') ->
  exists evs ws out,
    calls w' = calls w ++ evs
    /\ loop_trace env bucket key sizes evs ws out
    /\ r = loop_result env bucket key acc ws out
    /\ dirs w' = dirs w
    /\ (ws = [] -> out = None -> files w' = files w).
Proof.
  induction sizes as [|size rest IH]; intros acc w r w' Hrun.
  - inversion Hrun; subst. exists [], [], None.
    rewrite !app_nil_r. split; [reflexivity|]. split; [constructor|].
    simpl. now rewrite app_nil_r.
  - destruct (s3_head_object env bucket (s3_key size)) as [e|] eqn:Hh.
    2:{ rewrite loop_skip in Hrun by assumption.
        destruct (IH _ _ _ _ Hrun)
          as (evs & ws & out & Hc & Ht & Hr & Hds & Hfs).
        exists (HeadObject bucket (s3_key size) :: evs), ws, out.
        rewrite Hc, calls_record_call, <- app_assoc.
        repeat split; auto. now constructor. }
    destruct (not_found e) eqn:Hnf.
    2:{ rewrite (loop_fatal _ _ _ _ _ Hh Hnf) in Hrun.
        inversion Hrun; subst.
        exists [HeadObject bucket (s3_key size)], [], (Some e).
        repeat split; auto; try discriminate. now apply trace_check_fails. }
    rewrite loop_cons in Hrun.
    rewrite (bind_ok _ _ _ _ _ (already_processed_absent _ _ _ w e Hh Hnf))
      in Hrun.
    set (w1 := record_call (HeadObject bucket (s3_key size)) w) in *.
    destruct (thumbnail_cases env (local_input_path_of env key)
                (local_out size) size (file_ext_of key) default_quality w1)
      as [[e' He']|(fmt & q & o & src & h & _ & _ & _ & _ & _ & Hok)].
    { rewrite (bind_raise _ _ _ _ _ He') in Hrun. inversion Hrun; subst.
      exists [HeadObject bucket (s3_key size)], [], (Some e').
      repeat split; auto; try discriminate.
      now apply trace_thumbnail_fails with e. }
    rewrite (bind_ok _ _ _ _ _ Hok) in Hrun.
    set (blob := Spec.encoded (file_ext_of key) default_quality
                   (mkImage (size, h) (mode src))) in *.
    set (w2 := write_file (local_out size) blob w1) in *.
    assert (Hblob : encoded_as (file_ext_of key) blob)
      by now apply encoded_obeys.
    assert (Hf : files w2 !! local_out size = Some blob)
      by apply lookup_insert_eq.
    unfold bind at 1 in Hrun. unfold S3.upload_file in Hrun.
    rewrite Hf in Hrun.
    destruct (s3_upload_file env bucket (s3_key size) blob) as [e'|] eqn:Hu.
    { inversion Hrun; subst.
      exists [HeadObject bucket (s3_key size);
              Upload (local_out size) bucket (s3_key size) blob], [],
             (Some e').
      repeat split; auto; try discriminate.
      - simpl. now rewrite <- app_assoc.
      - now apply trace_upload_fails with e. }
    set (w3 := record_call (Upload (local_out size) bucket (s3_key size) blob)
                 w2) in *.
    unfold bind at 1 in Hrun. unfold Os.path_exists in Hrun.
    assert (Hf3 : files w3 !! local_out size = Some blob) by exact Hf.
    rewrite Hf3 in Hrun.
    rewrite bool_decide_eq_true_2 in Hrun by eauto. simpl orb in Hrun.
    unfold bind at 1 in Hrun. unfold Os.remove in Hrun.
    rewrite Hf3 in Hrun.
    destruct (IH _ _ _ _ Hrun) as (evs & ws & out & Hc & Ht & Hr & Hds & _).
    exists (HeadObject bucket (s3_key size)
            :: Upload (local_out size) bucket (s3_key size) blob :: evs),
           (size :: ws), out.
    repeat split.
    + rewrite Hc. simpl. now rewrite <- !app_assoc.
    + now apply trace_work with e.
    + rewrite Hr. destruct out; simpl; auto. now rewrite <- app_assoc.
    + exact Hds.
    + discriminate.
Qed.
End LoopFacts.

(** ** What the shapes of the loop imply *)

Section TraceFacts.
Variable env : Env.
Variables bucket key : string.

Abbreviation trace := (loop_trace env bucket key).

Lemma trace_no_download sizes evs ws out :
  trace sizes evs ws out -> Forall (fun ev => is_download ev = false) evs.
Proof. induction 1; repeat constructor; auto. Qed.

(** The processed widths are a subsequence of the configured ones. *)
Lemma trace_sublist sizes evs ws out :
  trace sizes evs ws out -> ws `sublist_of` sizes.
Proof.
  induction 1; try apply sublist_nil_l.
  - now apply sublist_cons.
  - now apply sublist_skip.
Qed.

(** The keys examined are those of a prefix of the widths, in order; of
    all widths when the loop completes. *)
Lemma trace_head_keys sizes evs ws out :
  trace sizes evs ws out ->
  head_keys evs `prefix_of` map (s3_key_of env key) sizes
  /\ (out = None -> head_keys evs = map (s3_key_of env key) sizes).
Proof.
  induction 1; simpl;
    try (split; [apply prefix_cons, prefix_nil|discriminate]).
  - split; [apply prefix_nil|reflexivity].
  - destruct IHloop_trace as [Hp Hc]. split.
    + now apply prefix_cons.
    + intros Ho. now rewrite Hc.
  - destruct IHloop_trace as [Hp Hc]. split.
    + now apply prefix_cons.
    + intros Ho. now rewrite Hc.
Qed.

(** The keys written are those of the processed widths when the loop
    completes, and keys of configured widths in any case. *)
Lemma trace_upload_keys sizes evs ws out :
  trace sizes evs ws out ->
  upload_keys evs `sublist_of` map (s3_key_of env key) sizes
  /\ (out = None -> upload_keys evs = map (s3_key_of env key) ws).
Proof.
  induction 1; simpl.
  - split; [constructor|reflexivity].
  - destruct IHloop_trace as [Hs Hc]. split; [now apply sublist_cons|auto].
  - split; [apply sublist_nil_l|discriminate].
  - split; [apply sublist_nil_l|discriminate].
  - split; [apply sublist_skip, sublist_nil_l|discriminate].
  - destruct IHloop_trace as [Hs Hc]. split.
    + now apply sublist_skip.
    + intros Ho. now rewrite Hc.
Qed.


(** When every output exists the loop only checks. *)
Lemma trace_all_present sizes evs ws out :
  trace sizes evs ws out ->
  Forall (fun size =>
            s3_head_object env bucket (s3_key_of env key size) = None)
         sizes ->
  evs = map (fun size => HeadObject bucket (s3_key_of env key size)) sizes
  /\ ws = [] /\ out = None.
Proof.
  induction 1; intros Hall; simpl; auto;
    inversion Hall; subst; try congruence.
  destruct (IHloop_trace H4) as (-> & -> & ->). auto.
Qed.
End TraceFacts.

(** ** The handler *)

Section HandlerFacts.
Variable env : Env.
Variable event : Json.

(** An exception of lines 32-35 is not caught. *)
Lemma handler_raises w e :
  event_fields env event = Raise e ->
  lambda_handler env event w = (Raise e, w).
Proof.
  intros H. unfold lambda_handler, bind, lift. now rewrite H.
Qed.

Lemma handler_wrong_prefix w bucket_name key :
  event_fields env event = Ok (bucket_name, key) ->
  startswith key "source_image/" = false ->
  lambda_handler env event w
  = (Ok (mkResponse 200 (BodyStr ("Skipped: " +:+ key))), w).
Proof.
  intros H Hp. unfold lambda_handler, bind, lift. rewrite H, Hp.
  reflexivity.
Qed.

Lemma handler_unsupported w bucket_name key :
  event_fields env event = Ok (bucket_name, key) ->
  startswith key "source_image/" = true ->
  mem (file_ext_of key) [".jpg"; ".jpeg"; ".png"] = false ->
  lambda_handler env event w
  = (Ok (mkResponse 200
           (BodyStr ("Unsupported file type: " +:+ file_ext_of key))), w).
Proof.
  intros H Hp Hx. unfold lambda_handler, bind, lift. rewrite H, Hp.
  unfold file_ext_of in Hx. cbn [negb]. rewrite Hx. reflexivity.
Qed.

(** Lines 48-125 for an accepted key. *)
Lemma handler_accepted w bucket_name key :
  event_fields env event = Ok (bucket_name, key) ->
  eligible key = true ->
  lambda_handler env event w
  = try_except
      (let* bucket := lift (S3.bucket_param bucket_name) in
       let* _ := S3.download_file env bucket key
                   (local_input_path_of env key) in
       let* processed := handler_loop env bucket key sizes [] in
       finish env key (summary env bucket key processed))
      (fun e => ret (failure e))
      (snd (Os.mkdtemp env w)).
Proof.
  intros H He. apply andb_prop in He as [Hp Hx].
  unfold lambda_handler. unfold bind at 1. unfold lift at 1. rewrite H, Hp.
  cbn [negb]. unfold file_ext_of in Hx. rewrite Hx. cbn [negb].
  reflexivity.
Qed.
End HandlerFacts.

(** ** Runs of the handler on an accepted key *)

Section Runs.
Variable env : Env.
Variables bucket key : string.

Abbreviation local_in := (local_input_path_of env key).

(** Lines 98-119: the end of a run makes no call; it raises only when
    the input path exists and is no file. *)
Lemma finish_cases (resp : Response) w :
  exists r w',
    finish env key resp w = (r, w')
    /\ calls w' = calls w
    /\ (r = Ok resp
        \/ (files w !! local_in = None
            /\ r = Raise (FileNotFoundError local_in) /\ w' = w)).
Proof.
  unfold finish. unfold bind at 1. unfold Os.path_exists.
  assert (Hrm : forall v, exists v',
             calls v' = calls v
             /\ (let* _ := try_except (Os.rmdir (tempdir env))
                             (fun _ => ret tt) in ret resp) v
                = (Ok resp, v')).
  { intros v. unfold bind, try_except, Os.rmdir, ret.
    repeat case_bool_decide; eexists; (split; [|reflexivity]); reflexivity. }
  destruct (files w !! local_in) as [b|] eqn:Hf.
  - rewrite bool_decide_eq_true_2 by eauto. cbn [orb].
    unfold bind at 1. unfold Os.remove. rewrite Hf.
    destruct (Hrm (delete_file local_in w)) as (v' & Hc & Hv).
    exists (Ok resp), v'. auto.
  - rewrite bool_decide_eq_false_2 by (intros [? ?]; discriminate).
    cbn [orb]. case_bool_decide.
    + unfold bind at 1. unfold Os.remove. rewrite Hf.
      exists (Raise (FileNotFoundError local_in)), w.
      split; [reflexivity|]. split; [reflexivity|]. right. auto.
    + unfold bind at 1. unfold ret at 1.
      destruct (Hrm w) as (v' & Hc & Hv).
      exists (Ok resp), v'. auto.
Qed.

(** The runs of the handler on an accepted key with a string bucket:
    one download, then the loop. *)
Lemma handler_run event w :
  event_fields env event = Ok (JStr bucket, key) ->
  eligible key = true ->
  exists evs r w',
    lambda_handler env event w = (Ok r, w')
    /\ calls w' = calls w ++ Download bucket key local_in :: evs
    /\ (statusCode r = 500 -> dirs w' = {[tempdir env]} ∪ dirs w)
    /\ ((exists e, s3_download_file env bucket key = Raise e
                  /\ evs = [] /\ r = failure e)
        \/ (exists blob ws out,
              s3_download_file env bucket key = Ok blob
              /\ loop_trace env bucket key sizes evs ws out
              /\ match out with
                 | Some e => r = failure e
                 | None =>
                     r = summary env bucket key
                           (map (location_of env key bucket) ws)
                     \/ (r = failure (FileNotFoundError local_in)
                         /\ ws <> [])
                 end)).
Proof.
  intros Hev Hel. rewrite (handler_accepted _ _ _ _ _ Hev Hel).
  set (w1 := snd (Os.mkdtemp env w)).
  unfold try_except. unfold bind at 1. unfold lift, S3.bucket_param.
  unfold bind at 1. unfold S3.download_file.
  destruct (s3_download_file env bucket key) as [blob|e] eqn:Hd.
  2:{ exists [], (failure e), (record_call (Download bucket key local_in) w1).
      repeat split; auto. left. eauto. }
  assert (Hd2 : forall w3, dirs w3 = dirs (write_file local_in blob
                  (record_call (Download bucket key local_in) w1)) ->
                dirs w3 = {[tempdir env]} ∪ dirs w) by (intros w3 ->; reflexivity).
  set (w2 := write_file local_in blob
               (record_call (Download bucket key local_in) w1)).
  unfold bind at 1.
  destruct (handler_loop env bucket key sizes [] w2) as [rl w3] eqn:Hl.
  destruct (loop_sound _ _ _ _ _ _ _ _ Hl)
  as (evs & ws & out & Hc & Ht & Hr & Hds & Hfs).
  assert (Hc3 : calls w3 = calls w ++ Download bucket key local_in :: evs).
  { rewrite Hc. simpl. now rewrite <- app_assoc. }
  destruct out as [e|]; simpl in Hr; subst rl.
  - exists evs, (failure e), w3. repeat split; auto.
    right. exists blob, ws, (Some e). auto.
  - destruct (finish_cases
                (summary env bucket key (map (location_of env key bucket) ws))
                w3) as (r & w' & Hf & Hc' & [->|(Hgone & -> & ->)]);
      rewrite Hf.
    + exists evs, (summary env bucket key
                     (map (location_of env key bucket) ws)), w'.
      split; [reflexivity|]. split; [congruence|].
      split; [discriminate|]. right. exists blob, ws, None. auto.
    + exists evs, (failure (FileNotFoundError local_in)), w3.
      split; [reflexivity|]. split; [congruence|].
      split; [intros _; exact (Hd2 _ Hds)|]. right. exists blob, ws, None.
      repeat split; auto. right. split; [reflexivity|].
      intros ->. rewrite (Hfs eq_refl eq_refl) in Hgone.
      unfold w2, write_file in Hgone. simpl in Hgone.
      rewrite lookup_insert_eq in Hgone. discriminate.
Qed.
End Runs.

(** ** Strings *)

Section StringFacts.

Lemma prefix_empty s : String.prefix EmptyString s = true.
Proof. now destruct s. Qed.

Lemma append_assoc (x y z : string) : (x +:+ y) +:+ z = x +:+ (y +:+ z).
Proof.
  induction x as [|a x IH]; [reflexivity|].
  change (String a ((x +:+ y) +:+ z) = String a (x +:+ (y +:+ z))).
  now rewrite IH.
Qed.

(** Replacing one character by another works character by character. *)
Lemma replace_char_cons a s c d :
  replace (String a s) (String c EmptyString) (String d EmptyString)
  = String (if Ascii.eqb a c then d else a)
      (replace s (String c EmptyString) (String d EmptyString)).
Proof.
  unfold replace. cbn [replace_from String.prefix String.length Nat.sub].
  destruct (ascii_dec c a) as [->|Hne].
  - rewrite prefix_empty, Ascii.eqb_refl. reflexivity.
  - destruct (Ascii.eqb_spec a c); [congruence|reflexivity].
Qed.

(** The code's three replacements are the specification's substitution. *)
Lemma sanitize_filename_spec s :
  sanitize_filename s = Spec.sanitizedBase s.
Proof.
  unfold sanitize_filename. induction s as [|a s IH].
  - reflexivity.
  - rewrite !replace_char_cons. cbn [Spec.sanitizedBase]. rewrite <- IH.
    f_equal. unfold Spec.sanitized_char.
    destruct (Ascii.eqb_spec a " ") as [->|]; [reflexivity|].
    destruct (Ascii.eqb_spec a "(") as [->|]; [reflexivity|].
    destruct (Ascii.eqb_spec a ")") as [->|]; reflexivity.
Qed.

Lemma lower_char_idempotent c : lower_char (lower_char c) = lower_char c.
Proof.
  destruct c as [[] [] [] [] [] [] [] []]; vm_compute; reflexivity.
Qed.

Lemma lower_idempotent s : lower (lower s) = lower s.
Proof.
  induction s as [|c s IH]; simpl; [reflexivity|].
  now rewrite lower_char_idempotent, IH.
Qed.

(** The extension the handler saves under is the specification's. *)
Lemma save_ext_spec key :
  save_ext_of key = Spec.ext (snd (OsPath.splitext key)).
Proof.
  unfold save_ext_of, Spec.ext, file_ext_of. now rewrite lower_idempotent.
Qed.

Lemma length_slice_to s (n : nat) :
  (n <= String.length s)%nat ->
  String.length (slice_to s (Z.of_nat n)) = n.
Proof.
  unfold slice_to. rewrite Nat2Z.id. revert s.
  induction n as [|n IH]; intros s Hn.
  - now destruct s.
  - destruct s as [|c s]; simpl in *; [lia|]. rewrite IH; [reflexivity|lia].
Qed.

Lemma all_hex_slice_to s (n : nat) :
  Spec.all_hex s = true -> Spec.all_hex (slice_to s (Z.of_nat n)) = true.
Proof.
  unfold slice_to. rewrite Nat2Z.id. revert s.
  induction n as [|n IH]; intros s Hs.
  - now destruct s.
  - destruct s as [|c s]; simpl in *; [reflexivity|].
    apply andb_prop in Hs as [-> Hs]. now rewrite IH.
Qed.

Lemma hex_char_is_hex d : (d < 16)%N -> Spec.is_hex (Uuid.hex_char d) = true.
Proof.
  intros Hd.
  assert (H : In d (map N.of_nat (seq 0 16))).
  { replace d with (N.of_nat (N.to_nat d)) by apply N2Nat.id.
    apply in_map, in_seq. lia. }
  simpl in H. repeat destruct H as [<-|H]; try reflexivity. contradiction.
Qed.

Lemma hex_digits_spec n : forall x acc,
  String.length (Uuid.hex_digits n x acc) = (n + String.length acc)%nat
  /\ (Spec.all_hex acc = true ->
      Spec.all_hex (Uuid.hex_digits n x acc) = true).
Proof.
  induction n as [|n IH]; intros x acc; simpl; [auto|].
  destruct (IH (x / 16)%N (String (Uuid.hex_char (x mod 16)%N) acc))
    as [Hl Hh].
  split.
  - rewrite Hl. simpl. lia.
  - intros Ha. apply Hh. simpl. rewrite Ha, hex_char_is_hex; [reflexivity|].
    apply N.mod_lt. discriminate.
Qed.

(** The token is eight lowercase hexadecimal digits. *)
Lemma random_id_spec env :
  String.length (random_id_of env) = 8%nat
  /\ Spec.all_hex (random_id_of env) = true.
Proof.
  unfold random_id_of, Uuid.uuid4_hex.
  destruct (hex_digits_spec 32 (Uuid.uuid4_int (urandom env)) EmptyString)
    as [Hl Hh].
  change 8 with (Z.of_nat 8). split.
  - apply length_slice_to. rewrite Hl. simpl. lia.
  - apply all_hex_slice_to. now apply Hh.
Qed.

(** The key the loop computes is the specification's layout. *)
Lemma s3_key_spec env key size :
  s3_key_of env key size
  = Spec.outputKey (Spec.sanitizedBase
                      (fst (OsPath.splitext (OsPath.basename key))))
      (random_id_of env) (Spec.ext (snd (OsPath.splitext key))) size.
Proof.
  unfold s3_key_of, folder_path_of, output_file_name_of, base_file_name_of,
    Spec.outputKey, file_name_of.
  rewrite save_ext_spec, sanitize_filename_spec.
  generalize (Spec.sanitizedBase
                (fst (OsPath.splitext (OsPath.basename key)))) as b.
  generalize (random_id_of env) as t.
  generalize (Spec.ext (snd (OsPath.splitext key))) as e.
  generalize (str_int size) as n. intros n e t b.
  rewrite !append_assoc. reflexivity.
Qed.
End StringFacts.

(** ** Responses *)

Lemma new_calls_app before after evs :
  calls after = calls before ++ evs -> new_calls before after = evs.
Proof. unfold new_calls. intros ->. apply drop_app_length. Qed.

Section ResponseFacts.
Variable env : Env.
Variable event : Json.

(** A bucket name that is no string makes the download raise. *)
Lemma handler_bad_bucket w bucket_name key :
  event_fields env event = Ok (bucket_name, key) ->
  eligible key = true ->
  (forall b, bucket_name <> JStr b) ->
  lambda_handler env event w
  = (Ok (failure ParamValidationError), snd (Os.mkdtemp env w)).
Proof.
  intros Hev Hel Hb. rewrite (handler_accepted _ _ _ _ _ Hev Hel).
  unfold try_except, bind, lift, S3.bucket_param.
  destruct bucket_name; try reflexivity. now destruct (Hb s).
Qed.

(** Every response comes from a well-formed event; a response other than
    a skip comes from an accepted key. *)
Lemma handler_response_inv w r w' :
  lambda_handler env event w = (Ok r, w') ->
  exists bucket_name key,
    event_fields env event = Ok (bucket_name, key)
    /\ ((eligible key = false /\ w' = w
         /\ exists msg, r = mkResponse 200 (BodyStr msg))
        \/ (eligible key = true
            /\ ((exists e, r = failure e)
                \/ exists bucket, bucket_name = JStr bucket))).
Proof.
  intros Hrun.
  destruct (event_fields env event) as [[bucket_name key]|e] eqn:Hev.
  2:{ rewrite (handler_raises _ _ _ _ Hev) in Hrun. discriminate. }
  exists bucket_name, key. split; [reflexivity|].
  destruct (startswith key "source_image/") eqn:Hp.
  2:{ rewrite (handler_wrong_prefix _ _ _ _ _ Hev Hp) in Hrun.
      inversion Hrun; subst. left. unfold eligible. rewrite Hp. eauto. }
  destruct (mem (file_ext_of key) [".jpg"; ".jpeg"; ".png"]) eqn:Hx.
  2:{ rewrite (handler_unsupported _ _ _ _ _ Hev Hp Hx) in Hrun.
      inversion Hrun; subst. left. unfold eligible. rewrite Hp, Hx. eauto. }
  assert (Hel : eligible key = true) by (unfold eligible; now rewrite Hp, Hx).
  right. split; [exact Hel|].
  destruct bucket_name;
    try (left; exists ParamValidationError;
         rewrite (handler_bad_bucket w _ key Hev Hel) in Hrun
           by (intros ?; discriminate);
         now inversion Hrun).
  right. eauto.
Qed.
End ResponseFacts.

(** * Binary64 arithmetic

    What [SFdiv], [SFmul] and the conversions compute on the numbers the
    thumbnail code meets, proved from their definitions: each rounding
    keeps 53 digits and moves its argument by at most one unit in the last
    place. *)

(** The number of binary digits of a mantissa. *)
Lemma digits2_pos_size p : digits2_pos p = Pos.size p.
Proof. induction p; simpl; congruence. Qed.

(** A number of [d] digits lies between 2^(d-1) and 2^d. *)
Lemma digits_bounds p :
  2 ^ (Zpos (digits2_pos p) - 1) <= Zpos p < 2 ^ Zpos (digits2_pos p).
Proof.
  rewrite digits2_pos_size. split.
  - pose proof (Pos.size_le p) as H.
    assert (H2 : 2 ^ Zpos (Pos.size p) <= 2 * Zpos p).
    { rewrite <- Pos2Z.inj_pow. change (2 * Zpos p) with (Zpos p~0).
      apply Pos2Z.pos_le_pos. exact H. }
    replace (Zpos (Pos.size p)) with (Zpos (Pos.size p) - 1 + 1) in H2 by lia.
    rewrite Z.pow_add_r in H2 by lia. lia.
  - rewrite <- Pos2Z.inj_pow. apply Pos2Z.pos_lt_pos, Pos.size_gt.
Qed.

(** One step of the right shift halves the mantissa. *)
Lemma shr_1_m mrs : 0 <= shr_m mrs -> shr_m (shr_1 mrs) = shr_m mrs / 2.
Proof.
  destruct mrs as [m r s]. simpl. intros Hm.
  destruct m as [|[p|p|]|p]; simpl; try lia; try reflexivity.
  - rewrite Pos2Z.inj_xI. apply Z.div_unique with 1; lia.
  - rewrite Pos2Z.inj_xO. apply Z.div_unique with 0; lia.
Qed.

(** [p] steps divide it by 2^p. *)
Lemma shr_iter_m p : forall mrs,
  0 <= shr_m mrs ->
  shr_m (SpecFloat.iter_pos shr_1 p mrs) = shr_m mrs / 2 ^ Zpos p.
Proof.
  assert (Hnn : forall q mrs, 0 <= shr_m mrs ->
                  0 <= shr_m mrs / 2 ^ Zpos q)
    by (intros; apply Z.div_pos; lia).
  induction p as [p IH|p IH|]; intros mrs Hm; cbn [SpecFloat.iter_pos].
  - assert (H1 : 0 <= shr_m (shr_1 mrs))
      by (rewrite shr_1_m by assumption; apply Z.div_pos; lia).
    rewrite IH by (rewrite IH by assumption; apply Hnn; assumption).
    rewrite IH by assumption. rewrite shr_1_m by assumption.
    rewrite !Z.div_div by lia. f_equal.
    change 2 with (2 ^ 1) at 1. rewrite <- !Z.pow_add_r by lia. f_equal. lia.
  - rewrite IH by (rewrite IH by assumption; apply Hnn; assumption).
    rewrite IH by assumption.
    rewrite !Z.div_div by lia. f_equal.
    rewrite <- Z.pow_add_r by lia. f_equal. lia.
  - rewrite shr_1_m by assumption. reflexivity.
Qed.

(** The right shift by [n >= 0]: mantissa divided, exponent raised. *)
Lemma shr_spec mrs e n :
  0 <= shr_m mrs -> 0 <= n ->
  shr_m (fst (shr mrs e n)) = shr_m mrs / 2 ^ n /\ snd (shr mrs e n) = e + n.
Proof.
  intros Hm Hn. destruct n as [|p|p]; simpl; try lia.
  - rewrite Z.div_1_r. split; [reflexivity|lia].
  - split; [apply shr_iter_m; assumption|reflexivity].
Qed.

(** Rounding keeps the truncated mantissa or takes the next one. *)
Lemma round_nearest_even_cases m l :
  round_nearest_even m l = m \/ round_nearest_even m l = m + 1.
Proof.
  destruct l as [|[]]; simpl; auto. destruct (Z.even m); auto.
Qed.

Lemma shr_m_record_of_loc m l : shr_m (shr_record_of_loc m l) = m.
Proof. destruct l as [|[]]; reflexivity. Qed.

(** The bounds determine the number of digits. *)
Lemma digits_unique p d :
  2 ^ (d - 1) <= Zpos p < 2 ^ d -> 0 < d -> Zpos (digits2_pos p) = d.
Proof.
  intros [Hl Hu] Hd. destruct (digits_bounds p) as [Hl' Hu'].
  destruct (Z.lt_trichotomy (Zpos (digits2_pos p)) d) as [H|[H|H]]; [|exact H|].
  - assert (2 ^ Zpos (digits2_pos p) <= 2 ^ (d - 1))
      by (apply Z.pow_le_mono_r; lia). lia.
  - assert (2 ^ d <= 2 ^ (Zpos (digits2_pos p) - 1))
      by (apply Z.pow_le_mono_r; lia). lia.
Qed.

(** In the normal range the exponent of a number of magnitude [e]. *)
Lemma fexp_normal e : -1074 <= e - 53 -> fexp 53 1024 e = e - 53.
Proof. unfold fexp, emin. lia. Qed.

(** Rounding a positive number of at least 53 digits: the mantissa is
    shifted right by [k], rounded to one of its two neighbours, and
    renormalised. *)
Lemma binary_round_aux_spec sx (m : positive) e l :
  let d := Zpos (digits2_pos m) in
  let k := d - 53 in
  0 <= k -> -1074 <= e + k -> e + k + 1 <= 971 ->
  exists mres eres,
    binary_round_aux 53 1024 sx (Zpos m) e l = S754_finite sx mres eres
    /\ e + k <= eres
    /\ (Zpos mres * 2 ^ (eres - (e + k)) = Zpos m / 2 ^ k
        \/ Zpos mres * 2 ^ (eres - (e + k)) = Zpos m / 2 ^ k + 1)
    /\ 2 ^ 52 <= Zpos mres < 2 ^ 53
    /\ (l = loc_Exact -> k = 0 -> mres = m /\ eres = e).
Proof.
  intros d k Hk Hmin Hmax.
  destruct (digits_bounds m) as [Hl Hu]. fold d in Hl, Hu.
  assert (Hd : d = k + 53) by (unfold k; lia).
  assert (Hm' : 2 ^ 52 <= Zpos m / 2 ^ k < 2 ^ 53).
  { split.
    - apply Z.div_le_lower_bound; [lia|].
      rewrite <- Z.pow_add_r by lia. replace (k + 52) with (d - 1) by lia.
      exact Hl.
    - apply Z.div_lt_upper_bound; [lia|].
      rewrite <- Z.pow_add_r by lia. replace (k + 53) with d by lia.
      exact Hu. }
  unfold binary_round_aux.
  assert (Hsh : shr_fexp 53 1024 (Zpos m) e l
                = shr (shr_record_of_loc (Zpos m) l) e k).
  { unfold shr_fexp. f_equal. cbn [Zdigits2]. fold d.
    rewrite fexp_normal by lia. lia. }
  rewrite Hsh.
  destruct (shr_spec (shr_record_of_loc (Zpos m) l) e k) as [Hm1 He1];
    [rewrite shr_m_record_of_loc; lia|lia|].
  rewrite shr_m_record_of_loc in Hm1.
  assert (Hexact : l = loc_Exact -> k = 0 ->
            shr (shr_record_of_loc (Zpos m) l) e k
            = (Build_shr_record (Zpos m) false false, e)).
  { intros -> ->. reflexivity. }
  destruct (shr (shr_record_of_loc (Zpos m) l) e k) as [mrs1 e1].
  simpl in Hm1, He1. subst e1.
  set (mr := round_nearest_even (shr_m mrs1) (loc_of_shr_record mrs1)).
  assert (Hmr : mr = Zpos m / 2 ^ k \/ mr = Zpos m / 2 ^ k + 1).
  { unfold mr. rewrite <- Hm1. apply round_nearest_even_cases. }
  assert (Hmrx : l = loc_Exact -> k = 0 -> mr = Zpos m).
  { intros Hl0 Hk0. specialize (Hexact Hl0 Hk0). inversion Hexact; subst mrs1.
    reflexivity. }
  destruct (Z.eq_dec mr (2 ^ 53)) as [Hfull|Hnot].
  - (* the mantissa overflows to 2^53: one more shift *)
    assert (Hsh2 : shr_fexp 53 1024 mr (e + k) loc_Exact
                   = shr (shr_record_of_loc mr loc_Exact) (e + k) 1).
    { unfold shr_fexp. f_equal. rewrite Hfull. change (Zdigits2 (2 ^ 53)) with 54.
      rewrite fexp_normal by lia. lia. }
    rewrite Hsh2. rewrite Hfull. cbn -[Z.leb Z.add Z.sub].
    replace (e + k + 1 <=? 1024 - 53) with true
      by (symmetry; apply Z.leb_le; lia).
    eexists _, _. split; [reflexivity|]. split; [lia|]. split.
    + right. replace (e + k + 1 - (e + k)) with 1 by lia.
      destruct Hmr as [Hmr|Hmr]; [lia|]. rewrite <- Hmr, Hfull. reflexivity.
    + split; [split; reflexivity|].
      intros Hl0 Hk0. specialize (Hmrx Hl0 Hk0). rewrite Hk0 in *.
      rewrite Z.add_0_l in Hd. rewrite Hd in Hu. lia.
  - assert (Hrange : 2 ^ 52 <= mr < 2 ^ 53) by lia.
    destruct mr as [|q|q] eqn:Hq; try lia.
    assert (Hdq : Zpos (digits2_pos q) = 53)
      by (apply digits_unique; [exact Hrange|lia]).
    assert (Hsh2 : shr_fexp 53 1024 (Zpos q) (e + k) loc_Exact
                   = (shr_record_of_loc (Zpos q) loc_Exact, e + k)).
    { unfold shr_fexp. cbn [Zdigits2]. rewrite Hdq.
      rewrite fexp_normal by lia.
      replace (53 + (e + k) - 53 - (e + k)) with 0 by lia. reflexivity. }
    rewrite Hsh2. cbn -[Z.leb Z.add Z.sub Z.pow].
    replace (e + k <=? 1024 - 53) with true
      by (symmetry; apply Z.leb_le; lia).
    exists q, (e + k). split; [reflexivity|]. split; [lia|]. split.
    + rewrite Z.sub_diag, Z.pow_0_r, Z.mul_1_r. exact Hmr.
    + split; [exact Hrange|].
      intros Hl0 Hk0. specialize (Hmrx Hl0 Hk0). split; [congruence|lia].
Qed.

(** Appending [d] zero bits multiplies by 2^d. *)
Lemma pos_iter_xO p d : Zpos (Pos.iter xO p d) = Zpos p * 2 ^ Zpos d.
Proof.
  induction d as [|d IH] using Pos.peano_ind.
  - simpl. lia.
  - rewrite Pos.iter_succ, Pos2Z.inj_xO, IH, Pos2Z.inj_succ, Z.pow_succ_r by lia.
    ring.
Qed.

(** [float(w)] is exact below 2^53. *)
Lemma of_int_exact (w : positive) :
  Zpos w < 2 ^ 53 ->
  exists mw ew,
    PyFloat.of_int (Zpos w) = Ok (S754_finite false mw ew)
    /\ -52 <= ew <= 0
    /\ Zpos mw = Zpos w * 2 ^ (- ew)
    /\ 2 ^ 52 <= Zpos mw < 2 ^ 53.
Proof.
  intros Hw. unfold PyFloat.of_int, binary_normalize, binary_round.
  destruct (digits_bounds w) as [Hl Hu].
  set (d := Zpos (digits2_pos w)) in *.
  assert (Hd : 1 <= d <= 53).
  { split; [unfold d; lia|].
    destruct (Z_le_gt_dec d 53) as [|Hgt]; [assumption|].
    assert (2 ^ 53 <= 2 ^ (d - 1)) by (apply Z.pow_le_mono_r; lia). lia. }
  unfold PyFloat.prec, PyFloat.emax.
  rewrite fexp_normal by lia.
  assert (Hal : exists mz,
            shl_align w 0 (d + 0 - 53) = (mz, d - 53)
            /\ Zpos mz = Zpos w * 2 ^ (53 - d)).
  { unfold shl_align. replace (d + 0 - 53 - 0) with (d - 53) by lia.
    destruct (d - 53) as [|q|q] eqn:Hq; try lia.
    - exists w. split; [reflexivity|].
      replace (53 - d) with 0 by lia. lia.
    - exists (Pos.iter xO w q). split; [f_equal; lia|].
      rewrite pos_iter_xO. f_equal. f_equal. lia. }
  destruct Hal as (mz & -> & Hmz).
  assert (Hmzr : 2 ^ 52 <= Zpos mz < 2 ^ 53).
  { rewrite Hmz. split.
    - replace 52 with ((d - 1) + (53 - d)) by lia.
      rewrite Z.pow_add_r by lia. apply Z.mul_le_mono_nonneg_r; lia.
    - replace 53 with (d + (53 - d)) at 2 by lia.
      rewrite Z.pow_add_r by lia. apply Z.mul_lt_mono_pos_r; lia. }
  assert (Hdz : Zpos (digits2_pos mz) = 53)
    by (apply digits_unique; [exact Hmzr|lia]).
  destruct (binary_round_aux_spec false mz (d - 53) loc_Exact)
    as (mres & eres & Hr & _ & _ & _ & Hex); rewrite ?Hdz; try lia.
  destruct (Hex eq_refl) as [-> ->]; [rewrite Hdz; lia|].
  rewrite Hr. exists mz, (d - 53). split; [reflexivity|].
  split; [lia|]. split; [|exact Hmzr].
  rewrite Hmz. f_equal. f_equal. lia.
Qed.


(** The quotient of two positive integers: a 53-digit mantissa within one
    unit in the last place of the exact quotient, hence a relative error of
    at most 2^-52.  [s] is the scaling: the value is [V / 2 ^ s]. *)
Lemma truediv_spec (H W : positive) :
  Zpos H < 2 ^ 50 -> Zpos W < 2 ^ 60 ->
  exists mr er s V,
    PyFloat.truediv (Zpos H) (Zpos W) = Ok (S754_finite false mr er)
    /\ 0 < s <= 113 /\ - s <= er <= -1
    /\ V = Zpos mr * 2 ^ (er + s)
    /\ 2 ^ 52 * (V * Zpos W - Zpos H * 2 ^ s) <= Zpos H * 2 ^ s
    /\ 2 ^ 52 * (Zpos H * 2 ^ s - V * Zpos W) <= Zpos H * 2 ^ s
    /\ 2 ^ 52 <= Zpos mr < 2 ^ 53.
Proof.
  intros HH HW. unfold PyFloat.truediv. cbn [Z.eqb].
  unfold PyFloat.exact_of_int, SFdiv, SFdiv_core_binary.
  unfold PyFloat.prec, PyFloat.emax. cbn [Zdigits2 xorb].
  destruct (digits_bounds H) as [H1l H1u].
  destruct (digits_bounds W) as [H2l H2u].
  set (d1 := Zpos (digits2_pos H)) in *.
  set (d2 := Zpos (digits2_pos W)) in *.
  assert (Hd1 : 1 <= d1 <= 50).
  { split; [unfold d1; lia|].
    destruct (Z_le_gt_dec d1 50) as [|Hgt]; [assumption|].
    assert (2 ^ 50 <= 2 ^ (d1 - 1)) by (apply Z.pow_le_mono_r; lia). lia. }
  assert (Hd2 : 1 <= d2 <= 60).
  { split; [unfold d2; lia|].
    destruct (Z_le_gt_dec d2 60) as [|Hgt]; [assumption|].
    assert (2 ^ 60 <= 2 ^ (d2 - 1)) by (apply Z.pow_le_mono_r; lia). lia. }
  rewrite !Z.add_0_r, Z.sub_0_r.
  rewrite fexp_normal by lia.
  rewrite Z.min_l by lia.
  set (s := 53 + d2 - d1).
  replace (0 - (d1 - d2 - 53)) with s by (unfold s; lia).
  assert (Hs : 4 <= s <= 112) by (unfold s; lia).
  destruct s as [|ps|ps] eqn:Hps; try lia. rewrite <- Hps in *.
  rewrite Z.shiftl_mul_pow2 by lia.
  set (N := Zpos H * 2 ^ s).
  pose proof (Z_div_mod N (Zpos W) ltac:(lia)) as Hdm.
  destruct (Z.div_eucl N (Zpos W)) as [q r] eqn:Hqr.
  destruct Hdm as [HN Hr].
  (* the quotient has 53 or 54 digits *)
  assert (Hlow : 2 ^ 52 * Zpos W <= N).
  { unfold N. replace s with ((53 - d1) + d2) by (unfold s; lia).
    rewrite Z.pow_add_r by lia.
    replace 52 with ((d1 - 1) + (53 - d1)) by lia.
    rewrite Z.pow_add_r by lia.
    assert (2 ^ (d1 - 1) * Zpos W <= Zpos H * 2 ^ d2) by nia.
    assert (0 < 2 ^ (53 - d1)) by lia. nia. }
  assert (Hhigh : N < 2 ^ 54 * Zpos W).
  { unfold N. replace s with ((53 - d1) + d2) by (unfold s; lia).
    rewrite Z.pow_add_r by lia.
    replace 54 with (d1 + (53 - d1) + 1) by lia.
    rewrite !Z.pow_add_r by lia.
    replace d2 with ((d2 - 1) + 1) at 1 by lia.
    rewrite Z.pow_add_r by lia.
    assert (0 < 2 ^ (53 - d1)) by lia.
    assert (Zpos H * 2 ^ (d2 - 1) < 2 ^ d1 * Zpos W) by nia. nia. }
  assert (Hq : 2 ^ 52 <= q < 2 ^ 54) by nia.
  destruct q as [|pq|pq] eqn:Hpq; try lia.
  destruct (digits_bounds pq) as [Hql Hqu].
  set (dq := Zpos (digits2_pos pq)) in *.
  assert (Hdq : dq = 53 \/ dq = 54).
  { destruct (Z_le_gt_dec dq 52).
    - assert (2 ^ dq <= 2 ^ 52) by (apply Z.pow_le_mono_r; lia). lia.
    - destruct (Z_le_gt_dec dq 54); [lia|].
      assert (2 ^ 54 <= 2 ^ (dq - 1)) by (apply Z.pow_le_mono_r; lia). lia. }
  destruct (binary_round_aux_spec false pq (d1 - d2 - 53)
              (new_location (Zpos W) r))
    as (mres & eres & Hres & He & Hval & Hmres & _); fold dq; try lia.
  rewrite Hres.
  change (Zpos (digits2_pos pq)) with dq in He, Hval.
  set (k := dq - 53) in *.
  set (e' := d1 - d2 - 53) in *.
  exists mres, eres, s, (Zpos mres * 2 ^ (eres + s)).
  split; [reflexivity|]. split; [lia|].
  assert (Hes : eres + s = (eres - (e' + k)) + k) by (unfold e', s; lia).
  assert (HF : Zpos pq / 2 ^ k < 2 ^ 53).
  { apply Z.div_lt_upper_bound; [lia|]. rewrite <- Z.pow_add_r by lia.
    replace (k + 53) with dq by (unfold k; lia). lia. }
  assert (Hek : eres <= e' + k + 1).
  { destruct (Z_le_gt_dec eres (e' + k + 1)); [assumption|].
    assert (Hx : 2 ^ 2 <= 2 ^ (eres - (e' + k)))
      by (apply Z.pow_le_mono_r; lia).
    assert (2 ^ 52 * 2 ^ 2 <= Zpos mres * 2 ^ (eres - (e' + k)))
      by (apply Z.mul_le_mono_nonneg; lia).
    lia. }
  split; [unfold e', s, k in *; lia|]. split; [reflexivity|].
  rewrite Hes, Z.pow_add_r, Z.mul_assoc by lia.
  set (V0 := Zpos mres * 2 ^ (eres - (e' + k))) in *.
  assert (Hk2 : 2 ^ 52 * 2 ^ k <= Zpos pq).
  { rewrite <- Z.pow_add_r by lia. replace (52 + k) with (dq - 1)
      by (unfold k; lia). lia. }
  pose proof (Z.mul_div_le (Zpos pq) (2 ^ k) ltac:(lia)) as Hfl.
  pose proof (Z.mul_succ_div_gt (Zpos pq) (2 ^ k) ltac:(lia)) as Hfu.
  assert (Hpk : 0 < 2 ^ k) by lia.
  set (P := 2 ^ k) in *. set (F := Zpos pq / P) in *.
  assert (HV : F * P <= V0 * P <= F * P + P)
    by (destruct Hval as [->| ->]; lia).
  assert (A1 : V0 * P * Zpos W <= (Zpos pq + P) * Zpos W)
    by (apply Z.mul_le_mono_nonneg_r; lia).
  assert (A2 : 2 ^ 52 * P * Zpos W <= Zpos pq * Zpos W)
    by (apply Z.mul_le_mono_nonneg_r; lia).
  assert (B1 : (Zpos pq - P + 1) * Zpos W <= V0 * P * Zpos W)
    by (apply Z.mul_le_mono_nonneg_r; lia).
  split; [|split; [|exact Hmres]]; lia.
Qed.

(** The product of two 53-digit mantissas, rounded: within one unit in the
    last place. *)
Lemma mul_spec (mw mr : positive) ew er :
  2 ^ 52 <= Zpos mw < 2 ^ 53 -> 2 ^ 52 <= Zpos mr < 2 ^ 53 ->
  -1000 <= ew + er <= 800 ->
  exists mp ep V,
    SFmul 53 1024 (S754_finite false mw ew) (S754_finite false mr er)
    = S754_finite false mp ep
    /\ ew + er <= ep
    /\ V = Zpos mp * 2 ^ (ep - (ew + er))
    /\ 2 ^ 52 * (V - Zpos mw * Zpos mr) <= Zpos mw * Zpos mr
    /\ 2 ^ 52 * (Zpos mw * Zpos mr - V) <= Zpos mw * Zpos mr.
Proof.
  intros Hw Hr He. cbn [SFmul xorb].
  set (m2 := (mw * mr)%positive).
  assert (Hm2 : Zpos m2 = Zpos mw * Zpos mr) by (unfold m2; lia).
  assert (Hm2r : 2 ^ 104 <= Zpos m2 < 2 ^ 106).
  { rewrite Hm2. split.
    - change (2 ^ 104) with (2 ^ 52 * 2 ^ 52).
      apply Z.mul_le_mono_nonneg; lia.
    - change (2 ^ 106) with (2 ^ 53 * 2 ^ 53).
      apply Z.mul_lt_mono_nonneg; lia. }
  destruct (digits_bounds m2) as [Hl Hu].
  set (dm := Zpos (digits2_pos m2)) in *.
  assert (Hdm : dm = 105 \/ dm = 106).
  { destruct (Z_le_gt_dec dm 104).
    - assert (2 ^ dm <= 2 ^ 104) by (apply Z.pow_le_mono_r; lia). lia.
    - destruct (Z_le_gt_dec dm 106); [lia|].
      assert (2 ^ 106 <= 2 ^ (dm - 1)) by (apply Z.pow_le_mono_r; lia). lia. }
  destruct (binary_round_aux_spec false m2 (ew + er) loc_Exact)
    as (mres & eres & Hres & Hee & Hval & Hmres & _); fold dm; try lia.
  change (Zpos (digits2_pos m2)) with dm in Hee, Hval.
  set (k := dm - 53) in *.
  rewrite Hres. exists mres, eres, (Zpos mres * 2 ^ (eres - (ew + er))).
  split; [reflexivity|]. split; [lia|]. split; [reflexivity|].
  replace (eres - (ew + er)) with ((eres - (ew + er + k)) + k) by lia.
  rewrite Z.pow_add_r, Z.mul_assoc by lia.
  set (V0 := Zpos mres * 2 ^ (eres - (ew + er + k))) in *.
  assert (Hk2 : 2 ^ 52 * 2 ^ k <= Zpos m2).
  { rewrite <- Z.pow_add_r by lia. replace (52 + k) with (dm - 1)
      by (unfold k; lia). lia. }
  pose proof (Z.mul_div_le (Zpos m2) (2 ^ k) ltac:(lia)) as Hfl.
  pose proof (Z.mul_succ_div_gt (Zpos m2) (2 ^ k) ltac:(lia)) as Hfu.
  assert (Hpk : 0 < 2 ^ k) by lia.
  set (P := 2 ^ k) in *. set (F := Zpos m2 / P) in *.
  assert (HV : F * P <= V0 * P <= F * P + P)
    by (destruct Hval as [->| ->]; lia).
  rewrite <- Hm2. lia.
Qed.

(** [int(x)] of a positive float is the floor of its value. *)
Lemma to_int_spec (mp : positive) ep e2 V :
  e2 <= ep -> e2 <= 0 -> V = Zpos mp * 2 ^ (ep - e2) ->
  PyFloat.to_int (S754_finite false mp ep) = Ok (V / 2 ^ (- e2)).
Proof.
  intros Hle Hneg ->. unfold PyFloat.to_int. f_equal.
  destruct ep as [|p|p].
  - rewrite Z.sub_0_l, Z.div_mul by lia. reflexivity.
  - replace (Zpos p - e2) with (Zpos p + - e2) by lia.
    rewrite Z.pow_add_r, Z.mul_assoc, Z.div_mul by lia. reflexivity.
  - replace (2 ^ (- e2)) with (2 ^ (- Zneg p) * 2 ^ (Zneg p - e2)).
    + rewrite Z.div_mul_cancel_r by lia. reflexivity.
    + rewrite <- Z.pow_add_r by lia. f_equal. lia.
Qed.

(** Two relative errors of at most 1/E each move the product by less than
    one where [n * (2 E + 1) < E * E]. *)
Lemma two_roundings E w H W D T V1 V2 m2 :
  0 < E -> 0 < w -> 0 < H -> 0 < W -> 0 < D -> 0 < T ->
  0 <= V1 -> 0 <= V2 -> 0 <= m2 ->
  E * (V1 * W - H * D) <= H * D ->
  E * (H * D - V1 * W) <= H * D ->
  E * (V2 - m2) <= m2 ->
  E * (m2 - V2) <= m2 ->
  m2 * D = w * V1 * T ->
  (w * H) * (2 * E + 1) < E * E ->
  - T < V2 * W - (w * H) * T < T.
Proof.
  intros HE Hw HH HW HD HT HV1 HV2 Hm2 Ha1 Ha2 Hb1 Hb2 Hc Hsmall.
  (* upper bound *)
  assert (U1 : E * V2 * (E * W * D) <= (E + 1) * m2 * (E * W * D))
    by (apply Z.mul_le_mono_nonneg_r; [repeat apply Z.mul_nonneg_nonneg|]; lia).
  assert (U2 : (E + 1) * w * T * (E * V1 * W)
               <= (E + 1) * w * T * ((E + 1) * H * D))
    by (apply Z.mul_le_mono_nonneg_l;
        [repeat apply Z.mul_nonneg_nonneg|]; lia).
  assert (U3 : (E + 1) * m2 * (E * W * D) = (E + 1) * w * T * (E * V1 * W))
    by (replace ((E + 1) * m2 * (E * W * D))
          with ((E + 1) * E * W * (m2 * D)) by ring; rewrite Hc; ring).
  assert (U4 : E * E * (V2 * W) * D <= (E + 1) * (E + 1) * (w * H * T) * D)
    by (replace (E * E * (V2 * W) * D) with (E * V2 * (E * W * D)) by ring;
        replace ((E + 1) * (E + 1) * (w * H * T) * D)
          with ((E + 1) * w * T * ((E + 1) * H * D)) by ring; lia).
  apply Z.mul_le_mono_pos_r in U4; [|exact HD].
  (* lower bound *)
  assert (L1 : (E - 1) * m2 * (E * W * D) <= E * V2 * (E * W * D))
    by (apply Z.mul_le_mono_nonneg_r; [repeat apply Z.mul_nonneg_nonneg|]; lia).
  assert (L2 : (E - 1) * w * T * ((E - 1) * H * D)
               <= (E - 1) * w * T * (E * V1 * W))
    by (apply Z.mul_le_mono_nonneg_l;
        [repeat apply Z.mul_nonneg_nonneg|]; lia).
  assert (L3 : (E - 1) * m2 * (E * W * D) = (E - 1) * w * T * (E * V1 * W))
    by (replace ((E - 1) * m2 * (E * W * D))
          with ((E - 1) * E * W * (m2 * D)) by ring; rewrite Hc; ring).
  assert (L4 : (E - 1) * (E - 1) * (w * H * T) * D <= E * E * (V2 * W) * D)
    by (replace (E * E * (V2 * W) * D) with (E * V2 * (E * W * D)) by ring;
        replace ((E - 1) * (E - 1) * (w * H * T) * D)
          with ((E - 1) * w * T * ((E - 1) * H * D)) by ring; lia).
  apply Z.mul_le_mono_pos_r in L4; [|exact HD].
  assert (Hn : (w * H) * (2 * E + 1) * T < E * E * T)
    by (apply Z.mul_lt_mono_pos_r; assumption).
  assert (HEE : 0 < E * E) by (apply Z.mul_pos_pos; assumption).
  assert (HnT : 0 <= (w * H) * T)
    by (repeat apply Z.mul_nonneg_nonneg; lia).
  split.
  - apply (Z.mul_lt_mono_pos_l (E * E)); [exact HEE|].
    replace ((E - 1) * (E - 1) * (w * H * T))
      with (E * E * (w * H * T) - (2 * E - 1) * (w * H * T)) in L4 by ring.
    replace (w * H * (2 * E + 1) * T)
      with ((2 * E - 1) * (w * H * T) + 2 * (w * H * T)) in Hn by ring.
    replace (E * E * (V2 * W - w * H * T))
      with (E * E * (V2 * W) - E * E * (w * H * T)) by ring.
    lia.
  - apply (Z.mul_lt_mono_pos_l (E * E)); [exact HEE|].
    replace ((E + 1) * (E + 1) * (w * H * T))
      with (E * E * (w * H * T) + (2 * E + 1) * (w * H * T)) in U4 by ring.
    replace (w * H * (2 * E + 1) * T)
      with ((2 * E + 1) * (w * H * T)) in Hn by ring.
    replace (E * E * (V2 * W - w * H * T))
      with (E * E * (V2 * W) - E * E * (w * H * T)) by ring.
    lia.
Qed.

(** A number within less than one of [n / W], truncated. *)
Lemma floor_near T W V n :
  0 < T -> 0 < W -> 0 <= n ->
  - T < V * W - n * T < T ->
  (n mod W <> 0 -> V / T = n / W)
  /\ (n mod W = 0 -> V / T = n / W \/ V / T = n / W - 1).
Proof.
  intros HT HW Hn [Hlo Hhi].
  pose proof (Z_div_mod_eq_full n W) as Hdm.
  pose proof (Z.mod_pos_bound n W HW) as Hr.
  set (Q := n / W) in *. set (R := n mod W) in *.
  assert (HnT : n * T = W * Q * T + R * T) by (rewrite Hdm; ring).
  assert (HRT : R * T <= (W - 1) * T)
    by (apply Z.mul_le_mono_nonneg_r; lia).
  assert (Hup : V < (Q + 1) * T).
  { apply (Z.mul_lt_mono_pos_r W); [exact HW|].
    replace ((Q + 1) * T * W) with (W * Q * T + W * T) by ring. lia. }
  assert (Hdiv_up : V / T < Q + 1)
    by (apply Z.div_lt_upper_bound; [exact HT|]; lia).
  split.
  - intros HR.
    assert (HRT1 : 1 * T <= R * T) by (apply Z.mul_le_mono_nonneg_r; lia).
    assert (Hdn : Q * T <= V).
    { apply (Z.mul_le_mono_pos_r _ _ W); [exact HW|].
      replace (Q * T * W) with (W * Q * T) by ring. lia. }
    assert (Q <= V / T) by (apply Z.div_le_lower_bound; [exact HT|]; lia).
    lia.
  - intros HR. rewrite HR in HnT.
    assert (HWT : 1 * T <= W * T) by (apply Z.mul_le_mono_nonneg_r; lia).
    assert (Hdn : (Q - 1) * T <= V).
    { apply (Z.mul_le_mono_pos_r _ _ W); [exact HW|].
      replace ((Q - 1) * T * W) with (W * Q * T - W * T) by ring. lia. }
    assert (Q - 1 <= V / T) by (apply Z.div_le_lower_bound; [exact HT|]; lia).
    lia.
Qed.

(** The height computed in binary64: the exact quotient truncated, or one
    less when the quotient is a whole number. *)
Lemma new_height_spec (w W H : positive) :
  Zpos w * Zpos H < 2 ^ 50 -> Zpos W < 2 ^ 60 ->
  exists h,
    new_height (Zpos w) (Zpos W) (Zpos H) = Ok h
    /\ ((Zpos w * Zpos H) mod Zpos W <> 0 -> h = (Zpos w * Zpos H) / Zpos W)
    /\ ((Zpos w * Zpos H) mod Zpos W = 0 ->
        h = (Zpos w * Zpos H) / Zpos W
        \/ h = (Zpos w * Zpos H) / Zpos W - 1).
Proof.
  intros Hsmall HW.
  assert (HH : Zpos H < 2 ^ 50) by nia.
  assert (Hw : Zpos w < 2 ^ 53) by nia.
  destruct (truediv_spec H W HH HW)
    as (mr & er & s & V1 & Hdiv & Hs & Her & HV1 & Ha1 & Ha2 & Hmr).
  destruct (of_int_exact w Hw) as (mw & ew & Hof & Hew & Hmw & Hmwr).
  destruct (mul_spec mw mr ew er Hmwr Hmr ltac:(lia))
    as (mp & ep & V2 & Hmul & Hep & HV2 & Hb1 & Hb2).
  pose proof (to_int_spec mp ep (ew + er) V2 Hep ltac:(lia) HV2) as Hint.
  unfold new_height. rewrite Hdiv. unfold PyFloat.mul_int. rewrite Hof.
  unfold PyFloat.prec, PyFloat.emax. rewrite Hmul, Hint.
  eexists. split; [reflexivity|].
  set (T := 2 ^ (- (ew + er))) in *. set (D := 2 ^ s) in *.
  assert (HT : 0 < T) by (unfold T; apply Z.pow_pos_nonneg; lia).
  assert (HD : 0 < D) by (unfold D; apply Z.pow_pos_nonneg; lia).
  assert (Hc : Zpos mw * Zpos mr * D = Zpos w * V1 * T).
  { rewrite Hmw, HV1. unfold D, T.
    replace (Zpos w * 2 ^ (- ew) * Zpos mr * 2 ^ s)
      with (Zpos w * Zpos mr * (2 ^ (- ew) * 2 ^ s)) by ring.
    replace (Zpos w * (Zpos mr * 2 ^ (er + s)) * 2 ^ (- (ew + er)))
      with (Zpos w * Zpos mr * (2 ^ (er + s) * 2 ^ (- (ew + er)))) by ring.
    rewrite <- !Z.pow_add_r by lia. do 2 f_equal. lia. }
  assert (HV1n : 0 <= V1) by (rewrite HV1; apply Z.mul_nonneg_nonneg; lia).
  assert (HV2n : 0 <= V2) by (rewrite HV2; apply Z.mul_nonneg_nonneg; lia).
  pose proof (two_roundings (2 ^ 52) (Zpos w) (Zpos H) (Zpos W) D T V1 V2
                (Zpos mw * Zpos mr)
                ltac:(lia) ltac:(lia) ltac:(lia) ltac:(lia) HD HT HV1n HV2n
                ltac:(lia) Ha1 Ha2 Hb1 Hb2 Hc ltac:(lia)) as Hnear.
  apply floor_near; try lia.
Qed.

(** The same for integers given as [Z]. *)
Lemma height_floor (w W H : Z) :
  0 < w -> 0 < W -> 0 < H -> w * H < 2 ^ 50 -> W < 2 ^ 60 ->
  exists h,
    new_height w W H = Ok h
    /\ ((w * H) mod W <> 0 -> h = (w * H) / W)
    /\ ((w * H) mod W = 0 -> h = (w * H) / W \/ h = (w * H) / W - 1).
Proof.
  intros Hw HW HH Hsmall HWb.
  destruct w as [|w|w]; try lia. destruct W as [|W|W]; try lia.
  destruct H as [|H|H]; try lia.
  exact (new_height_spec w W H Hsmall HWb).
Qed.

(** * The claims *)

(** ** C1: when the source is fetched *)

(** The claim fails on the code: with all four outputs present the handler
    still downloads the source (line 68 comes before the loop). *)
Lemma lazy_fetch_counterexample :
  Forall (fun size =>
            s3_head_object Example.all_present "photos"
              (s3_key_of Example.all_present "source_image/a.jpg" size) = None)
    sizes
  /\ filter (fun ev => is_download ev = true)
       (calls (snd (lambda_handler Example.all_present
                      (Example.s3_event "photos" "source_image/a.jpg")
                      Example.empty_world)))
     = [Download "photos" "source_image/a.jpg" "/tmp/tmpk3x/a.jpg"].
Proof.
  split.
  - repeat constructor.
  - vm_compute. reflexivity.
Qed.

(** C1 (amended). The source object is downloaded exactly once in every
    invocation whose key passes the filters, as the first call and before
    any existence check, whether or not a width requires work.  When the
    download succeeds and every configured width already has its output,
    the run makes one download, the four checks and no upload, and returns
    status 200 with an empty [processed_files]. *)
Theorem source_fetched_once env event w bucket key :
  event_fields env event = Ok (JStr bucket, key) ->
  eligible key = true ->
  exists r w' evs,
    lambda_handler env event w = (Ok r, w')
    /\ new_calls w w'
       = Download bucket key (local_input_path_of env key) :: evs
    /\ Forall (fun ev => is_download ev = false) evs
    /\ (forall blob,
          s3_download_file env bucket key = Ok blob ->
          Forall (fun size =>
                    s3_head_object env bucket (s3_key_of env key size) = None)
            sizes ->
          evs = map (fun size => HeadObject bucket (s3_key_of env key size))
                  sizes
          /\ r = summary env bucket key []).
Proof.
  intros Hev Hel.
  destruct (handler_run env bucket key event w Hev Hel)
    as (evs & r & w' & Hrun & Hc & _ & Hcases).
  exists r, w', evs. split; [exact Hrun|].
  split; [exact (new_calls_app _ _ _ Hc)|].
  destruct Hcases as [(e & Hd & -> & ->)|(blob & ws & out & Hd & Ht & Hr)].
  - split; [constructor|]. intros blob Hd'. congruence.
  - split; [exact (trace_no_download _ _ _ _ _ _ _ Ht)|].
    intros blob' _ Hall.
    destruct (trace_all_present _ _ _ _ _ _ _ Ht Hall) as (-> & -> & ->).
    split; [reflexivity|].
    destruct Hr as [->|[_ Hne]]; [reflexivity|]. now destruct Hne.
Qed.

Lemma source_fetched_once_witness :
  exists r w' evs,
    lambda_handler Example.all_present
      (Example.s3_event "photos" "source_image/a.jpg") Example.empty_world
    = (Ok r, w')
    /\ new_calls Example.empty_world w'
       = Download "photos" "source_image/a.jpg" "/tmp/tmpk3x/a.jpg" :: evs
    /\ Forall (fun ev => is_download ev = false) evs
    /\ (forall blob,
          s3_download_file Example.all_present "photos" "source_image/a.jpg"
          = Ok blob ->
          Forall (fun size =>
                    s3_head_object Example.all_present "photos"
                      (s3_key_of Example.all_present "source_image/a.jpg" size)
                    = None) sizes ->
          evs = map (fun size =>
                       HeadObject "photos"
                         (s3_key_of Example.all_present "source_image/a.jpg"
                            size)) sizes
          /\ r = summary Example.all_present "photos" "source_image/a.jpg" []).
Proof.
  exact (source_fetched_once Example.all_present
           (Example.s3_event "photos" "source_image/a.jpg")
           Example.empty_world "photos" "source_image/a.jpg"
           eq_refl eq_refl).
Defined.

(** ** C2: the layout of the output keys *)

Lemma head_keys_download bucket key path evs :
  head_keys (Download bucket key path :: evs) = head_keys evs.
Proof. reflexivity. Qed.

Lemma upload_keys_download bucket key path evs :
  upload_keys (Download bucket key path :: evs) = upload_keys evs.
Proof. reflexivity. Qed.


(** C2. For every accepted source, the keys the handler examines and writes
    are, width by width and in the order of the configured list, exactly
    processed_image/{base}_{token}/{w}_{base}_{token}{ext}: [base] is the
    file name without its extension with each space, '(' and ')' replaced by
    '_', [token] is eight hexadecimal digits, [ext] is ".png" when the
    source extension is .png in any case and ".jpg" otherwise.  A run that
    ends with status 200 has examined the key of every configured width. *)
Theorem output_key_layout env event w bucket key :
  event_fields env event = Ok (JStr bucket, key) ->
  eligible key = true ->
  let base :=
    Spec.sanitizedBase (fst (OsPath.splitext (OsPath.basename key))) in
  let token := slice_to (Uuid.uuid4_hex (urandom env)) 8 in
  let ext := Spec.ext (snd (OsPath.splitext key)) in
  String.length token = 8%nat /\ Spec.all_hex token = true
  /\ (forall size, s3_key_of env key size = Spec.outputKey base token ext size)
  /\ exists r w',
       lambda_handler env event w = (Ok r, w')
       /\ head_keys (new_calls w w')
            `prefix_of` map (Spec.outputKey base token ext) sizes
       /\ upload_keys (new_calls w w')
            `sublist_of` map (Spec.outputKey base token ext) sizes
       /\ (statusCode r = 200 ->
           head_keys (new_calls w w')
           = map (Spec.outputKey base token ext) sizes).
Proof.
  intros Hev Hel base token ext.
  destruct (random_id_spec env) as [Hlen Hhex].
  split; [exact Hlen|]. split; [exact Hhex|].
  assert (Hkey : forall size,
             s3_key_of env key size = Spec.outputKey base token ext size)
    by (intros size; apply s3_key_spec).
  split; [exact Hkey|].
  assert (Hmap : map (s3_key_of env key) sizes
                 = map (Spec.outputKey base token ext) sizes)
    by (apply map_ext; intros; apply Hkey).
  destruct (handler_run env bucket key event w Hev Hel)
    as (evs & r & w' & Hrun & Hc & _ & Hcases).
  exists r, w'. split; [exact Hrun|].
  rewrite (new_calls_app _ _ _ Hc), head_keys_download, upload_keys_download.
  destruct Hcases as [(e & _ & -> & ->)|(blob & ws & out & _ & Ht & Hr)].
  - simpl. split; [apply prefix_nil|]. split; [apply sublist_nil_l|].
    discriminate.
  - rewrite <- Hmap.
    destruct (trace_head_keys _ _ _ _ _ _ _ Ht) as [Hp Hall].
    destruct (trace_upload_keys _ _ _ _ _ _ _ Ht) as [Hs _].
    split; [exact Hp|]. split; [exact Hs|].
    intros H200. apply Hall.
    destruct out as [e|]; [subst r; discriminate|reflexivity].
Qed.

Lemma output_key_layout_witness :
  exists r w',
    lambda_handler Example.none_present
      (Example.s3_event "photos" "source_image/My+Photo+%281%29.PNG")
      Example.empty_world = (Ok r, w')
    /\ head_keys (new_calls Example.empty_world w')
       = ["processed_image/My_Photo__1__01234567/200_My_Photo__1__01234567.png";
          "processed_image/My_Photo__1__01234567/300_My_Photo__1__01234567.png";
          "processed_image/My_Photo__1__01234567/500_My_Photo__1__01234567.png";
          "processed_image/My_Photo__1__01234567/1000_My_Photo__1__01234567.png"].
Proof.
  destruct (output_key_layout Example.none_present
              (Example.s3_event "photos" "source_image/My+Photo+%281%29.PNG")
              Example.empty_world "photos" "source_image/My Photo (1).PNG"
              eq_refl eq_refl)
    as (_ & _ & _ & r & w' & Hrun & _ & _ & Hall).
  exists r, w'. split; [exact Hrun|].
  apply Hall. vm_compute in Hrun. inversion Hrun. reflexivity.
Defined.

(** ** C3: the format rule *)



(** ** C4: the outcomes of the existence check *)

(** The loop on a list in two parts runs the first part, then the second. *)
Lemma loop_app env bucket key pre post : forall acc w,
  handler_loop env bucket key (pre ++ post) acc w
  = match handler_loop env bucket key pre acc w with
    | (Ok acc', w') => handler_loop env bucket key post acc' w'
    | (Raise e, w') => (Raise e, w')
    end.
Proof.
  induction pre as [|size pre IH]; intros acc w; [reflexivity|].
  rewrite <- app_comm_cons, !loop_cons. unfold bind.
  destruct (already_processed env bucket (s3_key_of env key size) w)
    as [[[]|e] w1]; [apply IH| |reflexivity].
  destruct (compress_and_create_thumbnail env (local_input_path_of env key)
              (local_output_path_of env key size) size (file_ext_of key)
              default_quality w1) as [[[]|e] w2]; [|reflexivity].
  destruct (S3.upload_file env (local_output_path_of env key size) bucket
              (s3_key_of env key size) w2) as [[[]|e] w3]; [|reflexivity].
  destruct (Os.path_exists (local_output_path_of env key size) w3)
    as [[present|e] w4]; [|reflexivity].
  destruct ((if present then Os.remove (local_output_path_of env key size)
             else ret tt) w4) as [[[]|e] w5]; [apply IH|reflexivity].
Qed.

(** The claim fails on the code: a check that reports "not found" (404)
    does not skip the width; each of the four widths is uploaded. *)
Lemma not_found_counterexample :
  Forall (fun size =>
            s3_head_object Example.none_present "photos"
              (s3_key_of Example.none_present "source_image/a.jpg" size)
            = Some (ClientError "404" "Not Found")) sizes
  /\ upload_keys
       (calls (snd (lambda_handler Example.none_present
                      (Example.s3_event "photos" "source_image/a.jpg")
                      Example.empty_world)))
     = map (s3_key_of Example.none_present "source_image/a.jpg") sizes.
Proof.
  split.
  - repeat constructor.
  - vm_compute. reflexivity.
Qed.

(** C4 (amended). For every width the existence check has three outcomes.
    If the call returns (the output exists), the width is skipped with no
    upload and the loop goes on to the next width.  If it raises a
    [ClientError] with code 404, the width is processed: the thumbnail is
    created and uploaded.  If it raises anything else, the loop is left at
    once with that exception: no later width is examined and nothing more
    is uploaded, and, the widths before it having completed, the handler
    returns status 500 with that exception as its body. *)
Theorem existence_check_outcomes env bucket key size rest acc w :
  (s3_head_object env bucket (s3_key_of env key size) = None ->
   handler_loop env bucket key (size :: rest) acc w
   = handler_loop env bucket key rest acc
       (record_call (HeadObject bucket (s3_key_of env key size)) w))
  /\ (forall e,
        s3_head_object env bucket (s3_key_of env key size) = Some e ->
        not_found e = true ->
        handler_loop env bucket key (size :: rest) acc w
        = (let* _ := compress_and_create_thumbnail env
                       (local_input_path_of env key)
                       (local_output_path_of env key size) size
                       (file_ext_of key) default_quality in
           let* _ := S3.upload_file env (local_output_path_of env key size)
                       bucket (s3_key_of env key size) in
           let* present := Os.path_exists (local_output_path_of env key size) in
           let* _ := if present
                     then Os.remove (local_output_path_of env key size)
                     else ret tt in
           handler_loop env bucket key rest
             (acc ++ [location_of env key bucket size]))
            (record_call (HeadObject bucket (s3_key_of env key size)) w))
  /\ (forall e,
        s3_head_object env bucket (s3_key_of env key size) = Some e ->
        not_found e = false ->
        handler_loop env bucket key (size :: rest) acc w
        = (Raise e, record_call (HeadObject bucket (s3_key_of env key size)) w)
        /\ forall event v pre blob done v',
             event_fields env event = Ok (JStr bucket, key) ->
             eligible key = true ->
             sizes = pre ++ size :: rest ->
             s3_download_file env bucket key = Ok blob ->
             handler_loop env bucket key pre []
               (write_file (local_input_path_of env key) blob
                  (record_call
                     (Download bucket key (local_input_path_of env key))
                     (snd (Os.mkdtemp env v))))
             = (Ok done, v') ->
             lambda_handler env event v
             = (Ok (failure e),
                record_call (HeadObject bucket (s3_key_of env key size)) v')).
Proof.
  split; [apply loop_skip|]. split.
  - intros e Hh Hnf. rewrite loop_cons.
    now rewrite (bind_ok _ _ _ _ _ (already_processed_absent _ _ _ w e Hh Hnf)).
  - intros e Hh Hnf. split; [now apply loop_fatal|].
    intros event v pre blob done v' Hev Hel Hsizes Hd Hpre.
    rewrite (handler_accepted _ _ _ _ _ Hev Hel).
    unfold try_except. unfold bind at 1. unfold lift, S3.bucket_param.
    unfold bind at 1. unfold S3.download_file. rewrite Hd.
    unfold bind at 1. rewrite Hsizes, loop_app, Hpre.
    now rewrite (loop_fatal _ _ _ _ _ _ _ _ Hh Hnf).
Qed.

Lemma existence_check_outcomes_witness :
  lambda_handler Example.check_denied
    (Example.s3_event "photos" "source_image/a.jpg") Example.empty_world
  = (Ok (failure (ClientError "403" "Forbidden")),
     record_call
       (HeadObject "photos"
          (s3_key_of Example.check_denied "source_image/a.jpg" 200))
       (write_file "/tmp/tmpk3x/a.jpg" Example.photo
          (record_call
             (Download "photos" "source_image/a.jpg" "/tmp/tmpk3x/a.jpg")
             (snd (Os.mkdtemp Example.check_denied Example.empty_world))))).
Proof.
  destruct (existence_check_outcomes Example.check_denied "photos"
              "source_image/a.jpg" 200 [300; 500; 1000] []
              Example.empty_world) as (_ & _ & Hfatal).
  destruct (Hfatal (ClientError "403" "Forbidden") eq_refl eq_refl)
    as [_ Hhandler].
  exact (Hhandler (Example.s3_event "photos" "source_image/a.jpg")
           Example.empty_world [] Example.photo [] _
           eq_refl eq_refl eq_refl eq_refl eq_refl).
Defined.

(** ** C5: truncation, not rounding *)

(** The claim fails on the code: a 3 x 1 source at width 200 gets height
    66, [int] of 66.67, where rounding gives 67; a 5 x 23 source gets 919
    where the quotient is 920 exactly. *)
Lemma rounded_height_counterexample :
  new_height 200 3 1 = Ok 66 /\ Spec.rounded_height 200 3 1 = 67
  /\ new_height 200 5 23 = Ok 919 /\ Spec.rounded_height 200 5 23 = 920.
Proof. repeat split; vm_compute; reflexivity. Qed.

(** C5 (amended). For every source of dimensions W x H and every target
    width w (with w * H below 2^50 and W below 2^60) the resized height is
    computed, and it is w * H / W truncated toward zero when that quotient
    is not a whole number, and the quotient or one less when it is (the
    binary64 product [w * (H / W)] may fall just below it); so it is
    round(w * H / W) or one less, never more. *)
Theorem height_is_truncated (w W H : Z) :
  0 < w -> 0 < W -> 0 < H -> w * H < 2 ^ 50 -> W < 2 ^ 60 ->
  exists h,
    new_height w W H = Ok h
    /\ ((w * H) mod W <> 0 -> h = (w * H) / W)
    /\ ((w * H) mod W = 0 -> h = (w * H) / W \/ h = (w * H) / W - 1)
    /\ Spec.rounded_height w W H - 1 <= h <= Spec.rounded_height w W H.
Proof.
  intros Hw HW HH Hsmall HWb.
  destruct (height_floor w W H Hw HW HH Hsmall HWb) as (h & Hh & Hne & Heq).
  exists h. split; [exact Hh|]. split; [exact Hne|]. split; [exact Heq|].
  unfold Spec.rounded_height.
  pose proof (Z.mod_pos_bound (w * H) W HW) as Hr.
  set (Q := (w * H) / W) in *.
  set (R := (w * H) mod W) in *.
  destruct (Z.eq_dec R 0) as [HR|HR].
  - rewrite HR. change (2 * 0) with 0.
    destruct (Z.compare_spec 0 W) as [Hc|Hc|Hc]; lia.
  - rewrite (Hne HR).
    destruct (2 * R ?= W); [destruct (Z.even Q)| |]; lia.
Qed.

Lemma height_is_truncated_witness :
  exists h,
    new_height 1000 1920 1080 = Ok h
    /\ ((1000 * 1080) mod 1920 <> 0 -> h = (1000 * 1080) / 1920)
    /\ ((1000 * 1080) mod 1920 = 0 ->
        h = (1000 * 1080) / 1920 \/ h = (1000 * 1080) / 1920 - 1)
    /\ Spec.rounded_height 1000 1920 1080 - 1 <= h
       <= Spec.rounded_height 1000 1920 1080.
Proof.
  apply (height_is_truncated 1000 1920 1080); lia.
Defined.

(** ** C6: ingress filtering *)

(** C6. For every event that carries a bucket and a key, if the decoded key
    does not start with "source_image/" or its lowercased extension is not
    one of .jpg, .jpeg, .png, the handler returns the skip response (status
    200 and a message) without raising, and leaves the world as it was: no
    existence check, no download, no upload, no file written. *)
Theorem ingress_filter_skips env event w bucket_name key :
  event_fields env event = Ok (bucket_name, key) ->
  startswith key "source_image/" = false
  \/ mem (lower (snd (OsPath.splitext key))) [".jpg"; ".jpeg"; ".png"] = false ->
  lambda_handler env event w
  = (Ok (mkResponse 200
           (BodyStr (if startswith key "source_image/"
                     then "Unsupported file type: "
                          +:+ lower (snd (OsPath.splitext key))
                     else "Skipped: " +:+ key))), w).
Proof.
  intros Hev H.
  destruct (startswith key "source_image/") eqn:Hp.
  - destruct H as [H|H]; [discriminate|].
    now apply handler_unsupported with bucket_name.
  - now apply handler_wrong_prefix with bucket_name.
Qed.

Lemma ingress_filter_skips_witness :
  lambda_handler Example.none_present
    (Example.s3_event "photos" "archive/doc.jpg") Example.empty_world
  = (Ok (mkResponse 200 (BodyStr "Skipped: archive/doc.jpg")),
     Example.empty_world)
  /\ lambda_handler Example.none_present
       (Example.s3_event "photos" "source_image/x.gif") Example.empty_world
     = (Ok (mkResponse 200 (BodyStr "Unsupported file type: .gif")),
        Example.empty_world).
Proof.
  split.
  - apply (ingress_filter_skips Example.none_present
             (Example.s3_event "photos" "archive/doc.jpg")
             Example.empty_world (JStr "photos") "archive/doc.jpg").
    + reflexivity.
    + left. reflexivity.
  - apply (ingress_filter_skips Example.none_present
             (Example.s3_event "photos" "source_image/x.gif")
             Example.empty_world (JStr "photos") "source_image/x.gif").
    + reflexivity.
    + right. reflexivity.
Defined.

(** ** C7: the scratch storage on the failure path *)

(** The completed run removes what it created (lines 92-106). *)
Lemma scratch_released_on_success :
  map_to_list
    (files (snd (lambda_handler Example.none_present
                   (Example.s3_event "photos" "source_image/a.jpg")
                   Example.empty_world))) = []
  /\ elements
       (dirs (snd (lambda_handler Example.none_present
                     (Example.s3_event "photos" "source_image/a.jpg")
                     Example.empty_world))) = [].
Proof. split; vm_compute; reflexivity. Qed.

(** C7 (the code departs from the claim). Whenever the handler returns
    status 500 for an accepted key, the temporary directory it created is
    still there: the [except] branch (lines 120-125) returns without the
    clean-up that the completed run performs (lines 98-106). *)
Theorem scratch_kept_on_failure env event w bucket key r w' :
  event_fields env event = Ok (JStr bucket, key) ->
  eligible key = true ->
  lambda_handler env event w = (Ok r, w') ->
  statusCode r = 500 ->
  tempdir env ∈ dirs w'.
Proof.
  intros Hev Hel Hrun H500.
  destruct (handler_run env bucket key event w Hev Hel)
    as (evs & r0 & w0 & Hrun0 & _ & Hdirs & _).
  rewrite Hrun in Hrun0. inversion Hrun0; subst r0 w0.
  rewrite (Hdirs H500). apply elem_of_union_l, elem_of_singleton. reflexivity.
Qed.

(** An upload that fails at the first width: the response is the failure,
    and the directory, the downloaded source and the thumbnail stay. *)
Lemma scratch_kept_on_failure_witness :
  "/tmp/tmpk3x"
    ∈ dirs (snd (lambda_handler Example.upload_fails
                   (Example.s3_event "photos" "source_image/a.jpg")
                   Example.empty_world))
  /\ fst (lambda_handler Example.upload_fails
            (Example.s3_event "photos" "source_image/a.jpg")
            Example.empty_world)
     = Ok (failure (OtherError "S3UploadFailedError" "Failed to upload"))
  /\ map_to_list
       (files (snd (lambda_handler Example.upload_fails
                      (Example.s3_event "photos" "source_image/a.jpg")
                      Example.empty_world)))
     = [("/tmp/tmpk3x/a.jpg", Example.photo);
        ("/tmp/tmpk3x/200_a_01234567.jpg",
         Picture "JPEG" (Some 70) true (mkImage (200, 112) "RGB"))].
Proof.
  split; [|split; vm_compute; reflexivity].
  destruct (lambda_handler Example.upload_fails
              (Example.s3_event "photos" "source_image/a.jpg")
              Example.empty_world) as [r w'] eqn:Hrun.
  assert (Hr : r = Ok (failure (OtherError "S3UploadFailedError"
                                  "Failed to upload")))
    by (vm_compute in Hrun; now inversion Hrun).
  subst r.
  exact (scratch_kept_on_failure Example.upload_fails
           (Example.s3_event "photos" "source_image/a.jpg")
           Example.empty_world "photos" "source_image/a.jpg" _ _
           eq_refl eq_refl Hrun eq_refl).
Defined.

(** ** C8: the order of the processed locations *)

(** A completed loop has processed exactly the widths whose output was not
    there, in the order of the list. *)
Lemma trace_processed env bucket key sizes evs ws :
  loop_trace env bucket key sizes evs ws None ->
  ws = filter (fun size => to_process env bucket key size = true) sizes.
Proof.
  remember None as out eqn:Hout. unfold to_process.
  induction 1; try discriminate; simpl.
  - reflexivity.
  - rewrite filter_cons_False by (rewrite H; discriminate). auto.
  - rewrite filter_cons_True by (rewrite H; reflexivity). f_equal. auto.
Qed.

Lemma sizes_ascending : StronglySorted Z.lt sizes.
Proof. unfold sizes. repeat constructor; lia. Qed.

Lemma sublist_ascending (l k : list Z) :
  l `sublist_of` k -> StronglySorted Z.lt k -> StronglySorted Z.lt l.
Proof.
  induction 1; intros Hk; [constructor| |].
  - inversion Hk; subst. constructor; [auto|].
    rewrite Forall_forall in *. intros y Hy. apply H3.
    eapply elem_of_sublist; eauto.
  - inversion Hk; subst. auto.
Qed.

(** C8. In every response of a completed run, [processed_files] lists the
    locations of exactly the widths whose output did not exist yet, in the
    order of the configured list, which is strictly ascending: whichever
    widths are skipped, the locations listed are a subsequence of those of
    200, 300, 500, 1000, in that order. *)
Theorem processed_locations_ascending env event w r w' s :
  lambda_handler env event w = (Ok r, w') ->
  body r = BodyResponse s ->
  exists bucket key ws,
    event_fields env event = Ok (JStr bucket, key)
    /\ processed_files s = map (location_of env key bucket) ws
    /\ ws = filter (fun size => to_process env bucket key size = true) sizes
    /\ ws `sublist_of` sizes
    /\ StronglySorted Z.lt ws.
Proof.
  intros Hrun Hbody.
  destruct (handler_response_inv _ _ _ _ _ Hrun)
    as (bn & key & Hev & [(_ & _ & msg & ->)|(Hel & Hb)]); [discriminate|].
  assert (Hbucket : exists bucket, bn = JStr bucket).
  { destruct Hb as [[e ->]|Hb]; [discriminate|exact Hb]. }
  destruct Hbucket as [bucket ->].
  destruct (handler_run env bucket key event w Hev Hel)
    as (evs & r0 & w0 & Hrun0 & Hc & _ & Hcases).
  rewrite Hrun in Hrun0. inversion Hrun0; subst r0 w0.
  destruct Hcases as [(e & _ & _ & ->)|(blob & ws & out & _ & Ht & Hr)];
    [discriminate|].
  destruct out as [e|]; [subst r; discriminate|].
  destruct Hr as [->|[-> _]]; [|discriminate].
  simpl in Hbody. inversion Hbody; subst s. simpl.
  exists bucket, key, ws.
  pose proof (trace_sublist _ _ _ _ _ _ _ Ht) as Hsub.
  repeat split; auto.
  - now apply trace_processed with evs.
  - exact (sublist_ascending _ _ Hsub sizes_ascending).
Qed.

Lemma processed_locations_ascending_witness :
  exists bucket key ws,
    event_fields (Example.skipping [300; 1000])
      (Example.s3_event "photos" "source_image/a.jpg")
    = Ok (JStr bucket, key)
    /\ ["s3://photos/processed_image/a_01234567/200_a_01234567.jpg";
        "s3://photos/processed_image/a_01234567/500_a_01234567.jpg"]
       = map (location_of (Example.skipping [300; 1000]) key bucket) ws
    /\ ws = filter (fun size => to_process (Example.skipping [300; 1000])
                                  bucket key size = true) sizes
    /\ ws `sublist_of` sizes
    /\ StronglySorted Z.lt ws.
Proof.
  destruct (lambda_handler (Example.skipping [300; 1000])
              (Example.s3_event "photos" "source_image/a.jpg")
              Example.empty_world) as [r w'] eqn:Hrun.
  assert (Hr : r = Ok (summary (Example.skipping [300; 1000]) "photos"
                         "source_image/a.jpg"
                         ["s3://photos/processed_image/a_01234567/200_a_01234567.jpg";
                          "s3://photos/processed_image/a_01234567/500_a_01234567.jpg"]))
    by (vm_compute in Hrun; now inversion Hrun).
  subst r.
  exact (processed_locations_ascending _ _ _ _ _ _ Hrun eq_refl).
Defined.

(** Whichever of the configured widths already have their output, the run
    completes and lists the others, in order. *)
Lemma every_subset_of_skipped_widths (a b c d : bool) :
  let skipped :=
    (if a then [200] else []) ++ (if b then [300] else [])
    ++ (if c then [500] else []) ++ (if d then [1000] else []) in
  let kept :=
    (if a then [] else [200]) ++ (if b then [] else [300])
    ++ (if c then [] else [500]) ++ (if d then [] else [1000]) in
  fst (lambda_handler (Example.skipping skipped)
         (Example.s3_event "photos" "source_image/a.jpg")
         Example.empty_world)
  = Ok (summary Example.all_present "photos" "source_image/a.jpg"
          (map (location_of Example.all_present "source_image/a.jpg" "photos")
             kept)).
Proof. destruct a, b, c, d; vm_compute; reflexivity. Qed.

(** ** C9: a height of zero is not guarded against *)



(** The precondition is needed, and for an arbitrary width it is not
    enough: 49 * (1 / 49) is below 1 in binary64. *)
Lemma equal_sides_may_give_zero : new_height 49 49 1 = Ok 0.
Proof. vm_compute. reflexivity. Qed.



(** ** C10: events without the expected structure *)

Section Malformed.
Variable env : Env.

Lemma field_computes code spec k :
  computes_or_str code spec ->
  computes (and_then code (fun v => PyJson.getitem_str v k))
    (Spec.field spec k).
Proof.
  unfold computes_or_str, computes, subscript_error.
  destruct spec as [x|].
  - intros ->. simpl.
    destruct x; simpl; eauto 6.
    destruct (PyJson.dict_get items k); eauto 6.
  - intros [(e & -> & He)|(s & ->)]; simpl; eauto 6.
Qed.

Lemma first_computes code spec :
  computes code spec ->
  computes_or_str (and_then code PyJson.getitem_0) (Spec.first spec).
Proof.
  unfold computes_or_str, computes, subscript_error.
  destruct spec as [x|].
  - intros ->. simpl.
    destruct x as [| | |[|c s]|[|y l]|]; simpl; eauto 7.
  - intros (e & -> & He). simpl. eauto 6.
Qed.

Lemma computes_weaken code spec :
  computes code spec -> computes_or_str code spec.
Proof. unfold computes, computes_or_str. destruct spec; auto. Qed.

(** The code's chain of subscripts against the expected structure. *)
Lemma event_item_computes event a b :
  computes (event_item event a b)
    (Spec.field (Spec.field (Spec.record_s3 event) a) b).
Proof.
  unfold event_item, Spec.record_s3.
  apply field_computes, computes_weaken, field_computes, computes_weaken,
    field_computes, first_computes.
  change (PyJson.getitem_str event "Records")
    with (and_then (Ok event)
            (fun v => PyJson.getitem_str v "Records")).
  apply field_computes. reflexivity.
Qed.

(** Without the structure, lines 32-35 raise. *)
Lemma event_fields_malformed event :
  Spec.has_structure event = false ->
  exists e, event_fields env event = Raise e /\ subscript_error e.
Proof.
  unfold Spec.has_structure, event_fields. intros H.
  pose proof (event_item_computes event "bucket" "name") as Hb.
  pose proof (event_item_computes event "object" "key") as Hk.
  destruct (Spec.field (Spec.field (Spec.record_s3 event) "bucket") "name").
  - destruct (Spec.field (Spec.field (Spec.record_s3 event) "object") "key");
      [discriminate|].
    simpl in Hb, Hk. rewrite Hb. destruct Hk as (e & -> & He). simpl. eauto.
  - destruct Hb as (e & -> & He). simpl. eauto.
Qed.
End Malformed.

(** C10. Event parsing (lines 32-35) comes before the [try] block: for
    every event without the structure Records[0].s3.bucket.name and
    Records[0].s3.object.key the handler raises the exception of the failed
    subscript (a [KeyError], [IndexError] or [TypeError]) and returns no
    response, in particular not the status-500 one; wherever the handler does
    return status 500, the event had the structure and its key had passed
    both filters. *)
Theorem malformed_event_raises env event w :
  Spec.has_structure event = false ->
  (exists e, lambda_handler env event w = (Raise e, w) /\ subscript_error e)
  /\ (forall r w', lambda_handler env event w <> (Ok r, w'))
  /\ (forall event' r w',
        lambda_handler env event' w = (Ok r, w') -> statusCode r = 500 ->
        Spec.has_structure event' = true
        /\ exists bucket_name key,
             event_fields env event' = Ok (bucket_name, key)
             /\ eligible key = true).
Proof.
  intros H. destruct (event_fields_malformed env event H) as (e & He & Hs).
  pose proof (handler_raises env event w e He) as Hr.
  split; [eauto|]. split; [intros r w'; rewrite Hr; discriminate|].
  intros event' r w' Hrun H500.
  destruct (handler_response_inv _ _ _ _ _ Hrun)
    as (bn & key & Hev & [(_ & _ & msg & ->)|(Hel & _)]); [discriminate|].
  split; [|eauto].
  destruct (Spec.has_structure event') eqn:Hst; [reflexivity|].
  destruct (event_fields_malformed env event' Hst) as (e' & He' & _).
  congruence.
Qed.

Lemma malformed_event_raises_witness :
  (exists e, lambda_handler Example.none_present
               (JDict [("Records", JList [])]) Example.empty_world
             = (Raise e, Example.empty_world) /\ subscript_error e)
  /\ (forall r w', lambda_handler Example.none_present
                     (JDict [("Records", JList [])]) Example.empty_world
                   <> (Ok r, w'))
  /\ (forall event' r w',
        lambda_handler Example.none_present event' Example.empty_world
        = (Ok r, w') -> statusCode r = 500 ->
        Spec.has_structure event' = true
        /\ exists bucket_name key,
             event_fields Example.none_present event' = Ok (bucket_name, key)
             /\ eligible key = true).
Proof.
  apply (malformed_event_raises Example.none_present
           (JDict [("Records", JList [])]) Example.empty_world).
  reflexivity.
Defined.

(** * Further properties

    Properties of the code beyond the claims: the strings and paths the
    handler derives, the files it touches, and its runs. *)

(** ** More on strings *)


Section MoreStrings.

Lemma length_append (a b : string) :
  String.length (a +:+ b) = (String.length a + String.length b)%nat.
Proof.
  induction a as [|c a IH]; [reflexivity|].
  change (S (String.length (a +:+ b))
          = S (String.length a + String.length b)). now rewrite IH.
Qed.

Lemma append_empty_r (a : string) : a +:+ "" = a.
Proof.
  induction a as [|c a IH]; [reflexivity|].
  change (String c (a +:+ "") = String c a). now rewrite IH.
Qed.

Lemma append_cons c (a b : string) : String c a +:+ b = String c (a +:+ b).
Proof. reflexivity. Qed.

Lemma chars_append (a b : string) : chars (a +:+ b) = (chars a ++ chars b)%list.
Proof.
  induction a as [|c a IH]; [reflexivity|].
  rewrite append_cons. simpl. now rewrite IH.
Qed.

(** Cancellation on the right. *)
Lemma append_cancel_r (x y r : string) : x +:+ r = y +:+ r -> x = y.
Proof.
  intros H.
  assert (Hl : String.length x = String.length y).
  { apply (f_equal String.length) in H. rewrite !length_append in H. lia. }
  revert y H Hl. induction x as [|a x IH]; intros [|b y] H Hl;
    try discriminate; [reflexivity|].
  rewrite !append_cons in H. injection H as -> H.
  f_equal. apply IH; [exact H|]. simpl in Hl. lia.
Qed.

Lemma append_cancel_l (p x y : string) : p +:+ x = p +:+ y -> x = y.
Proof.
  induction p as [|a p IH]; [auto|].
  rewrite !append_cons. intros H. injection H as H. auto.
Qed.

(** Prefixes of equal length are equal. *)
Lemma append_eq_length (x y r s : string) :
  x +:+ r = y +:+ s -> String.length x = String.length y -> x = y /\ r = s.
Proof.
  revert y. induction x as [|a x IH]; intros [|b y] H Hl; try discriminate.
  - auto.
  - rewrite !append_cons in H. injection H as -> H. simpl in Hl.
    destruct (IH y H ltac:(lia)) as [-> ->]. auto.
Qed.

Lemma prefix_append (a b : string) : String.prefix a (a +:+ b) = true.
Proof.
  induction a as [|c a IH]; [apply prefix_empty|].
  rewrite append_cons. simpl. destruct (ascii_dec c c); [exact IH|congruence].
Qed.

(** *** Slices *)

Lemma substring_take_app (a b : string) :
  substring 0 (String.length a) (a +:+ b) = a.
Proof.
  induction a as [|c a IH]; [now destruct b|].
  rewrite append_cons. simpl. now rewrite IH.
Qed.

Lemma substring_all (s : string) : substring 0 (String.length s) s = s.
Proof. induction s as [|c s IH]; simpl; [reflexivity|now rewrite IH]. Qed.

Lemma substring_none (n : nat) (s : string) : substring n 0 s = "".
Proof. revert s. induction n; intros [|c s]; simpl; auto. Qed.

Lemma substring_skip_app (a b : string) (d m : nat) :
  substring (String.length a + d) m (a +:+ b) = substring d m b.
Proof.
  induction a as [|c a IH]; [reflexivity|].
  rewrite append_cons. simpl. exact IH.
Qed.

Lemma substring_take_skip_app (a b : string) (d : nat) :
  substring 0 (String.length a + d) (a +:+ b) = a +:+ substring 0 d b.
Proof.
  induction a as [|c a IH]; [reflexivity|].
  rewrite !append_cons. simpl. now rewrite IH.
Qed.

Lemma substring_split (s : string) (n : nat) :
  substring 0 n s +:+ substring n (String.length s - n) s = s.
Proof.
  revert s. induction n as [|n IH]; intros s.
  - rewrite Nat.sub_0_r, substring_all. now destruct s.
  - destruct s as [|c s]; [reflexivity|].
    simpl. rewrite append_cons. now rewrite IH.
Qed.

Lemma slice_to_from (s : string) (i : Z) : slice_to s i +:+ slice_from s i = s.
Proof. apply substring_split. Qed.

Lemma slice_from_0 (s : string) : slice_from s 0 = s.
Proof. unfold slice_from. simpl. rewrite Nat.sub_0_r. apply substring_all. Qed.

Lemma slice_to_0 (s : string) : slice_to s 0 = "".
Proof. unfold slice_to. now destruct s. Qed.

Lemma slice_to_app (a b : string) :
  slice_to (a +:+ b) (Z.of_nat (String.length a)) = a.
Proof. unfold slice_to. rewrite Nat2Z.id. apply substring_take_app. Qed.

Lemma slice_from_app (a b : string) (d : Z) :
  0 <= d ->
  slice_from (a +:+ b) (Z.of_nat (String.length a) + d) = slice_from b d.
Proof.
  intros Hd. unfold slice_from.
  replace (Z.to_nat (Z.of_nat (String.length a) + d))
    with (String.length a + Z.to_nat d)%nat by lia.
  rewrite length_append, substring_skip_app. f_equal. lia.
Qed.

Lemma slice_to_skip_app (a b : string) (d : Z) :
  0 <= d ->
  slice_to (a +:+ b) (Z.of_nat (String.length a) + d) = a +:+ slice_to b d.
Proof.
  intros Hd. unfold slice_to.
  replace (Z.to_nat (Z.of_nat (String.length a) + d))
    with (String.length a + Z.to_nat d)%nat by lia.
  apply substring_take_skip_app.
Qed.

Lemma slice_app (a b : string) (i j : Z) :
  0 <= i ->
  slice (a +:+ b) (Z.of_nat (String.length a) + i)
    (Z.of_nat (String.length a) + j) = slice b i j.
Proof.
  intros Hi. unfold slice. rewrite slice_from_app by exact Hi.
  f_equal. lia.
Qed.

(** *** The last occurrence of a character *)

Lemma rfind_from_app (a b : string) c : forall i last,
  rfind_from (a +:+ b) c i last
  = rfind_from b c (i + Z.of_nat (String.length a)) (rfind_from a c i last).
Proof.
  induction a as [|x a IH]; intros i last.
  - simpl. now rewrite Z.add_0_r.
  - rewrite append_cons. cbn [rfind_from String.length]. rewrite IH.
    f_equal. lia.
Qed.

Lemma rfind_from_absent (s : string) c : forall i last,
  ~ In c (chars s) -> rfind_from s c i last = last.
Proof.
  induction s as [|x s IH]; intros i last Hn; [reflexivity|].
  simpl in *. destruct (Ascii.eqb_spec x c) as [->|Hne]; [tauto|].
  apply IH. tauto.
Qed.

Lemma rfind_from_bounds (s : string) c : forall i last,
  last < i ->
  last <= rfind_from s c i last < i + Z.of_nat (String.length s).
Proof.
  induction s as [|x s IH]; intros i last Hl; simpl rfind_from.
  - simpl. lia.
  - cbn [String.length]. destruct (Ascii.eqb x c).
    + specialize (IH (i + 1) i ltac:(lia)). lia.
    + specialize (IH (i + 1) last ltac:(lia)). lia.
Qed.

(** A string either lacks [c] or splits at its last [c]. *)
Lemma last_occurrence (s : string) c :
  ~ In c (chars s)
  \/ exists pre post, s = pre +:+ String c post /\ ~ In c (chars post).
Proof.
  induction s as [|x s IH]; [left; simpl; tauto|].
  destruct IH as [Hn|(pre & post & -> & Hn)].
  - destruct (ascii_dec x c) as [->|Hne].
    + right. exists "", s. auto.
    + left. simpl. tauto.
  - right. exists (String x pre), post. auto.
Qed.

Lemma rfind_last (pre post : string) c :
  ~ In c (chars post) ->
  rfind (pre +:+ String c post) c = Z.of_nat (String.length pre).
Proof.
  intros Hn. unfold rfind. rewrite rfind_from_app. cbn [rfind_from].
  rewrite Ascii.eqb_refl. rewrite rfind_from_absent by exact Hn. lia.
Qed.

Lemma rfind_absent (s : string) c : ~ In c (chars s) -> rfind s c = -1.
Proof. apply rfind_from_absent. Qed.

End MoreStrings.

(** ** Paths *)

Section PathFacts.
Import OsPath.

(** [basename] keeps what follows the last separator. *)
Lemma basename_split (p : string) :
  exists dir,
    p = dir +:+ basename p
    /\ ~ In sep (chars (basename p))
    /\ rfind p sep = Z.of_nat (String.length dir) - 1.
Proof.
  unfold basename.
  destruct (last_occurrence p sep) as [Hn|(pre & post & -> & Hn)].
  - exists "". rewrite rfind_absent by exact Hn. simpl.
    rewrite slice_from_0. auto.
  - exists (pre +:+ String sep ""). rewrite rfind_last by exact Hn.
    assert (Hl : Z.of_nat (String.length (pre +:+ String sep ""))
                 = Z.of_nat (String.length pre) + 1).
    { rewrite length_append. simpl. lia. }
    assert (Hs : slice_from (pre +:+ String sep post)
                   (Z.of_nat (String.length pre) + 1) = post).
    { change (String sep post) with (String sep "" +:+ post).
      rewrite <- append_assoc, <- Hl.
      rewrite <- (Z.add_0_r (Z.of_nat _)).
      rewrite slice_from_app by lia. apply slice_from_0. }
    rewrite Hs, Hl. rewrite append_assoc. repeat split; auto. lia.
Qed.

(** The scan returns the split at the dot, if anything. *)
Lemma splitext_scan_some p n : forall f d r,
  splitext_scan p f d n = Some r -> r = (slice_to p d, slice_from p d).
Proof.
  induction n as [|n IH]; intros f d r; simpl; [discriminate|].
  destruct (negb _); [now intros [= <-]|apply IH].
Qed.

Lemma splitext_scan_app (dir b : string) n : forall k d,
  0 <= k -> 0 <= d ->
  splitext_scan (dir +:+ b) (Z.of_nat (String.length dir) + k)
    (Z.of_nat (String.length dir) + d) n
  = match splitext_scan b k d n with
    | Some (x, y) => Some (dir +:+ x, y)
    | None => None
    end.
Proof.
  induction n as [|n IH]; intros k d Hk Hd; simpl; [reflexivity|].
  replace (Z.of_nat (String.length dir) + k + 1)
    with (Z.of_nat (String.length dir) + (k + 1)) by lia.
  rewrite slice_app by exact Hk.
  destruct (negb _).
  - now rewrite slice_to_skip_app, slice_from_app.
  - apply IH; lia.
Qed.

(** [splitext] works on the last component of a path. *)
Lemma splitext_app (dir b : string) :
  ~ In sep (chars b) ->
  rfind (dir +:+ b) sep = Z.of_nat (String.length dir) - 1 ->
  splitext (dir +:+ b) = (dir +:+ fst (splitext b), snd (splitext b)).
Proof.
  intros Hns Hsep. unfold splitext. rewrite Hsep.
  rewrite (rfind_absent b sep Hns). rewrite !slice_to_0.
  assert (Hdot : rfind (dir +:+ b) extsep
                 = rfind_from b extsep (Z.of_nat (String.length dir))
                     (rfind dir extsep)).
  { unfold rfind. now rewrite rfind_from_app. }
  pose proof (rfind_from_bounds dir extsep 0 (-1) ltac:(lia)) as Hbd.
  fold (rfind dir extsep) in Hbd.
  destruct (last_occurrence b extsep) as [Hn|(pre & post & -> & Hn)].
  - rewrite Hdot, (rfind_from_absent b extsep _ _ Hn).
    rewrite (rfind_absent b extsep Hn).
    destruct (Z.ltb_spec (Z.of_nat (String.length dir) - 1) (rfind dir extsep));
      [lia|]. reflexivity.
  - rewrite Hdot. rewrite rfind_from_app. cbn [rfind_from].
    rewrite Ascii.eqb_refl. rewrite (rfind_from_absent post extsep _ _ Hn).
    rewrite (rfind_last pre post extsep Hn).
    destruct (Z.ltb_spec (Z.of_nat (String.length dir) - 1)
                (Z.of_nat (String.length dir) + Z.of_nat (String.length pre)));
      [|lia].
    destruct (Z.ltb_spec (-1) (Z.of_nat (String.length pre))); [|lia].
    replace (Z.of_nat (String.length dir) - 1 + 1)
      with (Z.of_nat (String.length dir) + 0) by lia.
    replace (Z.of_nat (String.length dir) + Z.of_nat (String.length pre)
             - (Z.of_nat (String.length dir) + 0))
      with (Z.of_nat (String.length pre) - (-1 + 1)) by lia.
    rewrite splitext_scan_app by lia. change (-1 + 1) with 0.
    destruct (splitext_scan _ 0 _ _) as [[x y]|]; reflexivity.
Qed.

(** The extension of a key is the extension of its file name. *)
Lemma splitext_basename (p : string) :
  snd (splitext (basename p)) = snd (splitext p).
Proof.
  destruct (basename_split p) as (dir & Hp & Hns & Hsep).
  rewrite Hp at 2. rewrite splitext_app; [reflexivity|exact Hns|].
  now rewrite <- Hp.
Qed.

(** Stem and extension make up the name again. *)
Lemma splitext_join (p : string) :
  fst (splitext p) +:+ snd (splitext p) = p.
Proof.
  unfold splitext. destruct (_ <? _).
  - destruct (splitext_scan _ _ _ _) as [r|] eqn:Hs.
    + rewrite (splitext_scan_some _ _ _ _ _ Hs). apply slice_to_from.
    + simpl. rewrite slice_to_0. apply append_empty_r.
  - simpl. rewrite slice_to_0. apply append_empty_r.
Qed.

Lemma length_lower (s : string) : String.length (lower s) = String.length s.
Proof. induction s as [|c s IH]; simpl; congruence. Qed.

(** A path that ends in a separator has no extension. *)
Lemma splitext_directory (p : string) :
  snd (splitext (p +:+ String sep "")) = "".
Proof.
  unfold splitext.
  rewrite (rfind_last p "" sep) by (simpl; tauto).
  assert (Hd : rfind (p +:+ String sep "") extsep
               < Z.of_nat (String.length p) + 1).
  { unfold rfind. rewrite rfind_from_app. cbn [rfind_from].
    change (Ascii.eqb sep extsep) with false. cbv iota.
    pose proof (rfind_from_bounds p extsep 0 (-1) ltac:(lia)). lia. }
  destruct (Z.ltb_spec (Z.of_nat (String.length p))
              (rfind (p +:+ String sep "") extsep)).
  - replace (Z.to_nat _) with 0%nat by lia. simpl. apply slice_to_0.
  - simpl. apply slice_to_0.
Qed.

(** *** [os.path.join] *)


Lemma join_relative (a b : string) :
  startswith b (String sep "") = false -> join a b = dir_prefix a +:+ b.
Proof.
  intros H. unfold join, dir_prefix. rewrite H.
  destruct (_ || _)%bool; [reflexivity|]. now rewrite append_assoc.
Qed.

Lemma join_under (a b : string) :
  a <> "" -> startswith b (String sep "") = false ->
  Os.under a (join a b) = true.
Proof.
  intros Ha Hb. rewrite (join_relative _ _ Hb). unfold Os.under, dir_prefix.
  destruct (String.eqb_spec a ""); [contradiction|]. cbn [orb].
  unfold startswith. destruct (endswith_char a sep); apply prefix_append.
Qed.

Lemma startswith_sep (s : string) :
  ~ In sep (chars s) -> startswith s (String sep "") = false.
Proof.
  destruct s as [|c s]; [reflexivity|]. unfold startswith, sep.
  cbn [String.prefix]. intros Hn.
  destruct (ascii_dec "/" c) as [<-|]; [|reflexivity].
  exfalso. apply Hn. simpl. now left.
Qed.

(** [str(n)] starts with a digit or a minus sign. *)
Lemma str_int_head (n : Z) :
  exists c s, str_int n = String c s /\ c <> sep.
Proof.
  unfold str_int, NilZero.string_of_int.
  destruct (Z.to_int n) as [d|d].
  - unfold NilZero.string_of_uint.
    destruct d; simpl; eexists _, _; (split; [reflexivity|discriminate]).
  - eexists _, _; (split; [reflexivity|discriminate]).
Qed.

Lemma str_int_inj (a b : Z) : str_int a = str_int b -> a = b.
Proof.
  unfold str_int. intros H.
  apply DecimalZ.to_int_inj.
  assert (Hnn : forall n, Z.to_int n <> Decimal.Pos Decimal.Nil
                          /\ Z.to_int n <> Decimal.Neg Decimal.Nil).
  { intros n. destruct n as [|p|p]; simpl; split; try discriminate;
      intros [= Hp]; now apply (Unsigned.to_uint_nonnil p). }
  apply (f_equal NilZero.int_of_string) in H.
  rewrite !NilZero.isi in H by apply Hnn. now injection H.
Qed.

End PathFacts.

(** ** Names and tokens *)

Section NameFacts.
Import OsPath.

Lemma length_sanitizedBase (s : string) :
  String.length (Spec.sanitizedBase s) = String.length s.
Proof. induction s as [|c s IH]; simpl; congruence. Qed.

Lemma length_sanitize_filename (s : string) :
  String.length (sanitize_filename s) = String.length s.
Proof. rewrite sanitize_filename_spec. apply length_sanitizedBase. Qed.

Lemma sanitized_char_clean c :
  Spec.sanitized_char c <> " "%char /\ Spec.sanitized_char c <> "("%char
  /\ Spec.sanitized_char c <> ")"%char.
Proof.
  unfold Spec.sanitized_char.
  destruct (Ascii.eqb_spec c " "); [repeat split; discriminate|].
  destruct (Ascii.eqb_spec c "("); [repeat split; discriminate|].
  destruct (Ascii.eqb_spec c ")"); [repeat split; discriminate|].
  simpl. auto.
Qed.

Lemma sanitized_char_fixed c :
  c <> " "%char -> c <> "("%char -> c <> ")"%char ->
  Spec.sanitized_char c = c.
Proof.
  intros H1 H2 H3. unfold Spec.sanitized_char.
  destruct (Ascii.eqb_spec c " "); [contradiction|].
  destruct (Ascii.eqb_spec c "("); [contradiction|].
  destruct (Ascii.eqb_spec c ")"); [contradiction|]. reflexivity.
Qed.

Lemma sanitizedBase_clean (s : string) :
  Forall (fun c => c <> " "%char /\ c <> "("%char /\ c <> ")"%char)
    (chars (Spec.sanitizedBase s)).
Proof.
  induction s as [|c s IH]; simpl; constructor; auto.
  apply sanitized_char_clean.
Qed.

Lemma sanitizedBase_fixed (s : string) :
  Forall (fun c => c <> " "%char /\ c <> "("%char /\ c <> ")"%char) (chars s) ->
  Spec.sanitizedBase s = s.
Proof.
  induction s as [|c s IH]; simpl; [reflexivity|].
  intros H. inversion H as [|? ? (H1 & H2 & H3) Hs]; subst.
  now rewrite sanitized_char_fixed, IH.
Qed.

(** A stem is not empty when there is an extension. *)
Lemma splitext_stem (p : string) :
  snd (splitext p) <> "" -> fst (splitext p) <> "".
Proof.
  unfold splitext.
  pose proof (rfind_from_bounds p sep 0 (-1) ltac:(lia)) as Hs.
  pose proof (rfind_from_bounds p extsep 0 (-1) ltac:(lia)) as Hd.
  fold (rfind p sep) in Hs. fold (rfind p extsep) in Hd.
  destruct (Z.ltb_spec (rfind p sep) (rfind p extsep)) as [Hlt|];
    [|simpl; rewrite slice_to_0; congruence].
  destruct (splitext_scan _ _ _ _) as [r|] eqn:Hr;
    [|simpl; rewrite slice_to_0; congruence].
  rewrite (splitext_scan_some _ _ _ _ _ Hr). simpl. intros _ He.
  assert (Hn : Z.to_nat (rfind p extsep - (rfind p sep + 1)) <> 0%nat)
    by (intros H0; rewrite H0 in Hr; discriminate).
  apply (f_equal String.length) in He.
  replace (rfind p extsep) with (Z.of_nat (Z.to_nat (rfind p extsep))) in He
    by lia.
  rewrite length_slice_to in He by lia. simpl in He. lia.
Qed.

(** The extensions the filter of line 44 lets through. *)
Lemma eligible_ext (key : string) :
  eligible key = true ->
  startswith key "source_image/" = true
  /\ (file_ext_of key = ".jpg" \/ file_ext_of key = ".jpeg"
      \/ file_ext_of key = ".png").
Proof.
  unfold eligible, mem. intros H. apply andb_prop in H as [Hp Hx].
  split; [exact Hp|]. simpl in Hx.
  destruct (String.eqb_spec (file_ext_of key) ".jpg"); [auto|].
  destruct (String.eqb_spec (file_ext_of key) ".jpeg"); [auto|].
  destruct (String.eqb_spec (file_ext_of key) ".png"); [auto|].
  discriminate.
Qed.

Lemma eligible_ext_length (key : string) :
  eligible key = true ->
  (4 <= String.length (snd (splitext key)) <= 5)%nat.
Proof.
  intros H. apply eligible_ext in H as [_ H].
  rewrite <- length_lower. fold (file_ext_of key).
  destruct H as [->|[->| ->]]; simpl; lia.
Qed.

(** The file name of an accepted key: a stem that is not empty, then the
    extension that passed the filter; no separator. *)
Lemma eligible_file_name (key : string) :
  eligible key = true ->
  file_name_of key
  = fst (splitext (file_name_of key)) +:+ snd (splitext key)
  /\ fst (splitext (file_name_of key)) <> ""
  /\ ~ In sep (chars (file_name_of key)).
Proof.
  intros H. pose proof (eligible_ext_length key H) as Hl.
  unfold file_name_of. split; [|split].
  - rewrite <- splitext_basename. symmetry. apply splitext_join.
  - apply splitext_stem. rewrite splitext_basename.
    intros He. rewrite He in Hl. simpl in Hl. lia.
  - destruct (basename_split key) as (dir & _ & Hn & _). exact Hn.
Qed.

Lemma length_save_ext (key : string) : String.length (save_ext_of key) = 4%nat.
Proof. unfold save_ext_of. now destruct (String.eqb _ _). Qed.

Lemma output_file_name_relative env key size :
  startswith (output_file_name_of env key size) (String sep "") = false.
Proof.
  unfold output_file_name_of.
  destruct (str_int_head size) as (c & s & -> & Hc).
  unfold startswith, sep in *. rewrite append_cons. cbn [String.prefix].
  destruct (ascii_dec "/" c); [congruence|reflexivity].
Qed.

Lemma length_output_file_name env key size :
  String.length (output_file_name_of env key size)
  = (String.length (str_int size)
     + String.length (fst (splitext (file_name_of key))) + 14)%nat.
Proof.
  unfold output_file_name_of, base_file_name_of.
  rewrite !length_append, length_sanitize_filename, length_save_ext.
  destruct (random_id_spec env) as [-> _]. simpl. lia.
Qed.

(** The thumbnail is never written over the downloaded source. *)
Lemma output_path_fresh env key size :
  eligible key = true ->
  local_output_path_of env key size <> local_input_path_of env key.
Proof.
  intros H. destruct (eligible_file_name key H) as (Hfn & _ & Hns).
  pose proof (eligible_ext_length key H) as Hl.
  unfold local_output_path_of, local_input_path_of.
  rewrite (join_relative _ _ (output_file_name_relative env key size)).
  rewrite (join_relative _ _ (startswith_sep _ Hns)).
  intros He. apply append_cancel_l in He.
  apply (f_equal String.length) in He.
  rewrite length_output_file_name in He. rewrite Hfn in He at 2.
  rewrite length_append in He. lia.
Qed.

Lemma output_path_under env key size :
  tempdir env <> "" ->
  Os.under (tempdir env) (local_output_path_of env key size) = true.
Proof.
  intros Ht. apply join_under; [exact Ht|].
  apply output_file_name_relative.
Qed.

Lemma input_path_under env key :
  tempdir env <> "" ->
  Os.under (tempdir env) (local_input_path_of env key) = true.
Proof.
  intros Ht. apply join_under; [exact Ht|].
  apply startswith_sep. unfold file_name_of.
  destruct (basename_split key) as (dir & _ & Hn & _). exact Hn.
Qed.

(** *** The token *)

Lemma hex_digits_acc n : forall x acc,
  Uuid.hex_digits n x acc = Uuid.hex_digits n x "" +:+ acc.
Proof.
  induction n as [|n IH]; intros x acc; [reflexivity|].
  cbn [Uuid.hex_digits]. rewrite IH. rewrite (IH _ (String _ "")).
  now rewrite append_assoc.
Qed.

Lemma hex_digits_add n m : forall x acc,
  Uuid.hex_digits (n + m) x acc
  = Uuid.hex_digits n (x / 16 ^ N.of_nat m)%N (Uuid.hex_digits m x acc).
Proof.
  induction m as [|m IH]; intros x acc.
  - rewrite Nat.add_0_r. simpl. now rewrite N.div_1_r.
  - rewrite Nat.add_succ_r. cbn [Uuid.hex_digits]. rewrite IH.
    f_equal. rewrite Nat2N.inj_succ, N.pow_succ_r', N.Div0.div_div.
    reflexivity.
Qed.

Lemma hex_char_value d :
  (d < 16)%N -> Example.hex_value (Uuid.hex_char d) = Some d.
Proof.
  intros Hd.
  assert (H : In d (map N.of_nat (seq 0 16))).
  { replace d with (N.of_nat (N.to_nat d)) by apply N2Nat.id.
    apply in_map, in_seq. lia. }
  simpl in H. repeat destruct H as [<-|H]; try reflexivity. contradiction.
Qed.

Lemma hex_digits_inj n : forall x y,
  Uuid.hex_digits n x "" = Uuid.hex_digits n y "" ->
  (x mod 16 ^ N.of_nat n = y mod 16 ^ N.of_nat n)%N.
Proof.
  induction n as [|n IH]; intros x y H.
  - simpl. now rewrite !N.mod_1_r.
  - cbn [Uuid.hex_digits] in H.
    rewrite (hex_digits_acc n (x / 16)), (hex_digits_acc n (y / 16)) in H.
    apply append_eq_length in H as [H1 H2].
    2:{ destruct (hex_digits_spec n (x / 16)%N "") as [-> _].
        destruct (hex_digits_spec n (y / 16)%N "") as [-> _]. reflexivity. }
    injection H2 as H2. apply (f_equal Example.hex_value) in H2.
    rewrite !hex_char_value in H2 by (apply N.mod_lt; discriminate).
    injection H2 as H2.
    rewrite Nat2N.inj_succ, N.pow_succ_r'.
    rewrite !N.Div0.mod_mul_r. rewrite H2, (IH _ _ H1). reflexivity.
Qed.

(** The first eight digits of the UUID are the top 32 of its 128 bits,
    which the version and variant fields leave alone. *)
Lemma random_id_bits env :
  random_id_of env
  = Uuid.hex_digits 8 ((urandom env mod 2 ^ 128) / 2 ^ 96)%N "".
Proof.
  unfold random_id_of, Uuid.uuid4_hex.
  change 32%nat with (8 + 24)%nat. rewrite hex_digits_add, hex_digits_acc.
  replace 8 with (Z.of_nat (String.length
    (Uuid.hex_digits 8 (Uuid.uuid4_int (urandom env) / 16 ^ N.of_nat 24)%N "")))
    by (destruct (hex_digits_spec 8
          (Uuid.uuid4_int (urandom env) / 16 ^ N.of_nat 24)%N "") as [-> _];
        reflexivity).
  rewrite slice_to_app. f_equal.
  change (16 ^ N.of_nat 24)%N with (2 ^ 96)%N.
  rewrite <- !N.shiftr_div_pow2. unfold Uuid.uuid4_int.
  rewrite N.shiftr_lor, N.shiftr_ldiff, N.shiftr_lor, N.shiftr_ldiff.
  change (N.shiftr (N.shiftl 4 76) 96) with 0%N.
  change (N.shiftr (N.shiftl 61440 64) 96) with 0%N.
  change (N.shiftr (N.shiftl 32768 48) 96) with 0%N.
  change (N.shiftr (N.shiftl 49152 48) 96) with 0%N.
  now rewrite !N.lor_0_r, !N.ldiff_0_r.
Qed.

Lemma random_id_inj env env' :
  random_id_of env = random_id_of env' ->
  ((urandom env mod 2 ^ 128) / 2 ^ 96 = (urandom env' mod 2 ^ 128) / 2 ^ 96)%N.
Proof.
  rewrite !random_id_bits. intros H. apply hex_digits_inj in H.
  assert (Hb : forall r, ((r mod 2 ^ 128) / 2 ^ 96 < 16 ^ N.of_nat 8)%N).
  { intros r. apply N.Div0.div_lt_upper_bound.
    change (2 ^ 96 * 16 ^ N.of_nat 8)%N with (2 ^ 128)%N.
    apply N.mod_lt. discriminate. }
  rewrite (N.mod_small _ _ (Hb (urandom env))) in H.
  now rewrite (N.mod_small _ _ (Hb (urandom env'))) in H.
Qed.

(** *** The keys *)

Lemma s3_key_parts env key size :
  s3_key_of env key size
  = ("processed_image/"
       +:+ sanitize_filename (fst (splitext (file_name_of key))) +:+ "_")
    +:+ random_id_of env
    +:+ ("/" +:+ str_int size)
    +:+ ("_" +:+ sanitize_filename (fst (splitext (file_name_of key))) +:+ "_"
         +:+ random_id_of env +:+ save_ext_of key).
Proof.
  unfold s3_key_of, folder_path_of, output_file_name_of, base_file_name_of.
  rewrite !append_assoc. reflexivity.
Qed.

Lemma s3_key_inj env env' key a b :
  s3_key_of env key a = s3_key_of env' key b ->
  a = b /\ random_id_of env = random_id_of env'.
Proof.
  rewrite !s3_key_parts. intros H. apply append_cancel_l in H.
  apply append_eq_length in H as [Ht H].
  2:{ destruct (random_id_spec env) as [-> _].
      destruct (random_id_spec env') as [-> _]. reflexivity. }
  split; [|exact Ht]. rewrite Ht in H.
  apply append_cancel_r in H. injection H as H. now apply str_int_inj.
Qed.

End NameFacts.

(** ** The thumbnail and the loop on the files *)


Section MoreThumbnail.
Variable env : Env.
Variables image_path output_path : string.
Variable width : Z.
Variables (original_ext : string).


Lemma thumbnail_opaque w bytes quality :
  files w !! image_path = Some (Opaque bytes) ->
  compress_and_create_thumbnail env image_path output_path width
    original_ext quality w
  = (Raise (UnidentifiedImageError image_path), w).
Proof.
  intros Hf. unfold compress_and_create_thumbnail, bind, PILio.open.
  now rewrite Hf.
Qed.
End MoreThumbnail.

Section MoreLoopFacts.
Variable env : Env.
Variables bucket key : string.

Abbreviation loop := (handler_loop env bucket key).
Abbreviation s3_key := (s3_key_of env key).
Abbreviation local_out := (local_output_path_of env key).
Abbreviation local_in := (local_input_path_of env key).

(** One turn of the loop for a width that is processed to the end. *)
Lemma loop_work size rest acc w e blob :
  s3_head_object env bucket (s3_key size) = Some e ->
  not_found e = true ->
  compress_and_create_thumbnail env local_in (local_out size) size
    (file_ext_of key) default_quality
    (record_call (HeadObject bucket (s3_key size)) w)
  = (Ok tt, write_file (local_out size) blob
              (record_call (HeadObject bucket (s3_key size)) w)) ->
  s3_upload_file env bucket (s3_key size) blob = None ->
  loop (size :: rest) acc w
  = loop rest (acc ++ [location_of env key bucket size])
      (delete_file (local_out size)
         (record_call (Upload (local_out size) bucket (s3_key size) blob)
            (write_file (local_out size) blob
               (record_call (HeadObject bucket (s3_key size)) w)))).
Proof.
  intros Hh Hnf Hok Hu. rewrite loop_cons.
  rewrite (bind_ok _ _ _ _ _ (already_processed_absent _ _ _ w e Hh Hnf)).
  rewrite (bind_ok _ _ _ _ _ Hok).
  set (w2 := write_file (local_out size) blob _).
  assert (Hf : files w2 !! local_out size = Some blob)
    by apply lookup_insert_eq.
  unfold bind at 1. unfold S3.upload_file. rewrite Hf, Hu.
  set (w3 := record_call _ w2).
  assert (Hf3 : files w3 !! local_out size = Some blob) by exact Hf.
  unfold bind at 1. unfold Os.path_exists. rewrite Hf3.
  rewrite bool_decide_eq_true_2 by eauto. simpl orb.
  unfold bind at 1. unfold Os.remove. rewrite Hf3. reflexivity.
Qed.

(** One turn of the loop for a width whose upload fails. *)
Lemma loop_upload_fails size rest acc w e blob e' :
  s3_head_object env bucket (s3_key size) = Some e ->
  not_found e = true ->
  compress_and_create_thumbnail env local_in (local_out size) size
    (file_ext_of key) default_quality
    (record_call (HeadObject bucket (s3_key size)) w)
  = (Ok tt, write_file (local_out size) blob
              (record_call (HeadObject bucket (s3_key size)) w)) ->
  s3_upload_file env bucket (s3_key size) blob = Some e' ->
  loop (size :: rest) acc w
  = (Raise e',
     record_call (Upload (local_out size) bucket (s3_key size) blob)
       (write_file (local_out size) blob
          (record_call (HeadObject bucket (s3_key size)) w))).
Proof.
  intros Hh Hnf Hok Hu. rewrite loop_cons.
  rewrite (bind_ok _ _ _ _ _ (already_processed_absent _ _ _ w e Hh Hnf)).
  rewrite (bind_ok _ _ _ _ _ Hok).
  set (w2 := write_file (local_out size) blob _).
  assert (Hf : files w2 !! local_out size = Some blob)
    by apply lookup_insert_eq.
  unfold bind at 1. unfold S3.upload_file. now rewrite Hf, Hu.
Qed.

(** The files after the loop: a path is as before, or it is the output
    path of a width, and gone when the loop completes. *)
Lemma loop_files szs : forall acc w r w',
  loop szs acc w = (r, w') ->
  forall p,
    files w' !! p = files w !! p
    \/ (Exists (fun size => p = local_out size) szs
        /\ forall done, r = Ok done -> files w' !! p = None).
Proof.
  induction szs as [|size rest IH]; intros acc w r w' Hrun p.
  - inversion Hrun; subst. now left.
  - destruct (s3_head_object env bucket (s3_key size)) as [e|] eqn:Hh.
    2:{ rewrite loop_skip in Hrun by assumption.
        destruct (IH _ _ _ _ Hrun p) as [Hp|[Hex Hp]]; [now left|].
        right. split; [now apply Exists_cons_tl|exact Hp]. }
    destruct (not_found e) eqn:Hnf.
    2:{ rewrite (loop_fatal _ _ _ _ _ _ _ _ Hh Hnf) in Hrun.
        inversion Hrun; subst. now left. }
    set (w1 := record_call (HeadObject bucket (s3_key size)) w).
    destruct (thumbnail_cases env local_in (local_out size) size
                (file_ext_of key) default_quality w1)
      as [[e' He']|(fmt & q & o & src & h & _ & _ & _ & _ & _ & Hok)].
    { rewrite loop_cons in Hrun.
      rewrite (bind_ok _ _ _ _ _ (already_processed_absent _ _ _ w e Hh Hnf))
        in Hrun.
      rewrite (bind_raise _ _ _ _ _ He') in Hrun. inversion Hrun; subst.
      now left. }
    set (blob := Spec.encoded (file_ext_of key) default_quality
                   (mkImage (size, h) (mode src))) in *.
    destruct (s3_upload_file env bucket (s3_key size) blob) as [e'|] eqn:Hu.
    { rewrite (loop_upload_fails _ _ _ _ _ _ _ Hh Hnf Hok Hu) in Hrun.
      inversion Hrun; subst. cbn [files record_call write_file].
      destruct (decide (p = local_out size)) as [->|Hne].
      - right. split; [now apply Exists_cons_hd|discriminate].
      - left. now apply lookup_insert_ne. }
    rewrite (loop_work _ _ _ _ _ _ Hh Hnf Hok Hu) in Hrun.
    destruct (IH _ _ _ _ Hrun p) as [Hp|[Hex Hp]].
    + cbn [files record_call write_file delete_file] in Hp.
      destruct (decide (p = local_out size)) as [->|Hne].
      * right. split; [now apply Exists_cons_hd|].
        intros _ _. rewrite Hp. apply lookup_delete_eq.
      * left. rewrite Hp.
        rewrite lookup_delete_ne, lookup_insert_ne by congruence.
        reflexivity.
    + right. split; [now apply Exists_cons_tl|exact Hp].
Qed.

(** No upload without a check just before it that reported the key
    missing. *)
Lemma trace_upload_guarded szs evs ws out :
  loop_trace env bucket key szs evs ws out ->
  forall pre p b k blob post,
    evs = pre ++ Upload p b k blob :: post ->
    exists pre' e,
      pre = pre' ++ [HeadObject b k]
      /\ s3_head_object env b k = Some e /\ not_found e = true.
Proof.
  induction 1 as [ | size rest evs ws out Hh Ht IH | size rest e Hh Hnf
                 | size rest e e' Hh Hnf | size rest e blob e' Hh Hnf Hb Hu
                 | size rest e blob evs ws out Hh Hnf Hb Hu Ht IH ];
    intros pre p b k blob' post Heq.
  - now destruct pre.
  - destruct pre as [|ev pre]; [discriminate|]. injection Heq as <- Heq.
    destruct (IH _ _ _ _ _ _ Heq) as (pre' & e & -> & He).
    exists (HeadObject bucket (s3_key size) :: pre'), e. auto.
  - destruct pre as [|ev [|ev' pre]]; discriminate.
  - destruct pre as [|ev [|ev' pre]]; discriminate.
  - destruct pre as [|ev [|ev' pre]]; try discriminate.
    + injection Heq as <- <- <- <- <- <-. exists [], e. auto.
    + injection Heq as _ _ Heq. now destruct pre.
  - destruct pre as [|ev [|ev' pre]]; try discriminate.
    + injection Heq as <- <- <- <- <- <-. exists [], e. auto.
    + injection Heq as <- <- Heq.
      destruct (IH _ _ _ _ _ _ Heq) as (pre' & e0 & -> & He).
      exists (HeadObject bucket (s3_key size)
              :: Upload (local_out size) bucket (s3_key size) blob :: pre'), e0.
      auto.
Qed.

(** Every call of the loop addresses the bucket of the event. *)
Lemma trace_bucket szs evs ws out :
  loop_trace env bucket key szs evs ws out ->
  Forall (fun ev => event_bucket ev = bucket) evs.
Proof. induction 1; repeat constructor; auto. Qed.

End MoreLoopFacts.

(** ** The handler after the download *)


Section MoreRuns.
Variable env : Env.
Variables bucket key : string.

Abbreviation loop := (handler_loop env bucket key).
Abbreviation s3_key := (s3_key_of env key).
Abbreviation local_out := (local_output_path_of env key).
Abbreviation local_in := (local_input_path_of env key).
Abbreviation needs_work :=
  (fun size => to_process env bucket key size = true).

(** The handler after a download that succeeds: the loop, then the end of
    the run; an exception of either becomes the failure response. *)
Lemma handler_unfold event w blob :
  event_fields env event = Ok (JStr bucket, key) ->
  eligible key = true ->
  s3_download_file env bucket key = Ok blob ->
  lambda_handler env event w
  = match loop sizes [] (downloaded env bucket key blob w) with
    | (Ok processed, w3) =>
        match finish env key (summary env bucket key processed) w3 with
        | (Ok r, w4) => (Ok r, w4)
        | (Raise e, w4) => (Ok (failure e), w4)
        end
    | (Raise e, w3) => (Ok (failure e), w3)
    end.
Proof.
  intros Hev Hel Hd. rewrite (handler_accepted _ _ _ _ _ Hev Hel).
  unfold try_except. unfold bind at 1. unfold lift, S3.bucket_param.
  unfold bind at 1. unfold S3.download_file. rewrite Hd.
  unfold bind at 1. fold (downloaded env bucket key blob w).
  destruct (loop sizes [] (downloaded env bucket key blob w)) as [[done|e] w3];
    [|reflexivity].
  destruct (finish env key (summary env bucket key done) w3) as [[r|e] w4];
    reflexivity.
Qed.

Lemma handler_download_fails event w e :
  event_fields env event = Ok (JStr bucket, key) ->
  eligible key = true ->
  s3_download_file env bucket key = Raise e ->
  lambda_handler env event w
  = (Ok (failure e),
     record_call (Download bucket key local_in) (snd (Os.mkdtemp env w))).
Proof.
  intros Hev Hel Hd. rewrite (handler_accepted _ _ _ _ _ Hev Hel).
  unfold try_except. unfold bind at 1. unfold lift, S3.bucket_param.
  unfold bind at 1. unfold S3.download_file. now rewrite Hd.
Qed.

(** The end of a run (lines 98-106) touches the input file and the
    temporary directory only. *)
Lemma finish_world resp w r w' :
  finish env key resp w = (r, w') ->
  (forall p, p <> local_in -> files w' !! p = files w !! p)
  /\ (is_Some (files w !! local_in) ->
      r = Ok resp /\ files w' !! local_in = None)
  /\ (files w' !! local_in = files w !! local_in
      \/ files w' !! local_in = None)
  /\ (forall d, d <> tempdir env -> d ∈ dirs w' <-> d ∈ dirs w)
  /\ (tempdir env ∈ dirs w' -> tempdir env ∈ dirs w)
  /\ (r = Ok resp -> tempdir env ∈ dirs w ->
      map_Forall (fun p _ => Os.under (tempdir env) p = false) (files w') ->
      tempdir env ∉ dirs w')
  /\ calls w' = calls w
  /\ (forall x, r = Ok x -> x = resp).
Proof.
  unfold finish. unfold bind at 1. unfold Os.path_exists.
  assert (Hrm : forall v r' v',
             (let* _ := try_except (Os.rmdir (tempdir env))
                          (fun _ => ret tt) in ret resp) v = (r', v') ->
             r' = Ok resp /\ files v' = files v /\ calls v' = calls v
             /\ (forall d, d <> tempdir env -> d ∈ dirs v' <-> d ∈ dirs v)
             /\ (tempdir env ∈ dirs v' -> tempdir env ∈ dirs v)
             /\ (tempdir env ∈ dirs v ->
                 map_Forall (fun p _ => Os.under (tempdir env) p = false)
                   (files v') ->
                 tempdir env ∉ dirs v')).
  { intros v r' v'. unfold bind, try_except, Os.rmdir, ret.
    destruct (decide (tempdir env ∈ dirs v)) as [Hin|Hout].
    - rewrite (bool_decide_eq_true_2 _ Hin).
      destruct (decide (map_Forall
                          (fun p _ => Os.under (tempdir env) p = false)
                          (files v))) as [Hall|Hsome].
      + rewrite (bool_decide_eq_true_2 _ Hall). intros Hrun.
        apply pair_equal_spec in Hrun as [Hr Hv]. subst r' v'.
        cbn [files dirs calls].
        split_and!; auto; try intros d Hd;
          rewrite ?elem_of_difference, ?elem_of_singleton; tauto.
      + rewrite (bool_decide_eq_false_2 _ Hsome). intros Hrun.
        apply pair_equal_spec in Hrun as [Hr Hv]. subst r' v'.
        split_and!; auto; tauto.
    - rewrite (bool_decide_eq_false_2 _ Hout). intros Hrun.
        apply pair_equal_spec in Hrun as [Hr Hv]. subst r' v'.
      split_and!; auto; tauto. }
  destruct (files w !! local_in) as [b|] eqn:Hf.
  - rewrite bool_decide_eq_true_2 by eauto. cbn [orb].
    unfold bind at 1. unfold Os.remove. rewrite Hf. intros Hrun.
    destruct (Hrm _ _ _ Hrun) as (-> & Hfs & Hc & Hd & Hd1 & Hd2).
    rewrite Hfs. cbn [files dirs calls delete_file] in *.
    split_and!.
    + intros p Hp. now apply lookup_delete_ne.
    + intros _. split; [reflexivity|apply lookup_delete_eq].
    + right. apply lookup_delete_eq.
    + exact Hd.
    + exact Hd1.
    + intros _ Hin Hall. apply Hd2; [exact Hin|]. now rewrite Hfs.
    + exact Hc.
    + now intros x [= <-].
  - rewrite bool_decide_eq_false_2 by (intros [? ?]; discriminate).
    cbn [orb]. case_bool_decide.
    + unfold bind at 1. unfold Os.remove. rewrite Hf. intros Hrun.
      inversion Hrun; subst. split_and!; auto; try tauto; try discriminate.
      intros Hs. destruct (is_Some_None Hs).
    + unfold bind at 1. unfold ret at 1. intros Hrun.
      destruct (Hrm _ _ _ Hrun) as (-> & Hfs & Hc & Hd & Hd1 & Hd2).
      split_and!; auto; rewrite ?Hfs, ?Hf; auto.
      now intros x [= <-].
Qed.


(** A source that is no image: nothing is uploaded; the loop completes
    only when no width needs work. *)
Lemma loop_opaque bytes szs : forall acc w r w',
  files w !! local_in = Some (Opaque bytes) ->
  loop szs acc w = (r, w') ->
  upload_keys (new_calls w w') = []
  /\ match r with
     | Ok done =>
         done = acc
         /\ Forall (fun size => s3_head_object env bucket (s3_key size) = None)
              szs
     | Raise e =>
         e = UnidentifiedImageError local_in
         \/ exists size, In size szs
              /\ s3_head_object env bucket (s3_key size) = Some e
              /\ not_found e = false
     end.
Proof.
  induction szs as [|size rest IH]; intros acc w r w' Hf Hrun.
  - inversion Hrun; subst. unfold new_calls. rewrite drop_all. auto.
  - destruct (s3_head_object env bucket (s3_key size)) as [e|] eqn:Hh.
    2:{ rewrite loop_skip in Hrun by assumption.
        destruct (IH acc (record_call (HeadObject bucket (s3_key size)) w)
                    r w' Hf Hrun) as [Hu Hr].
        destruct (loop_sound _ _ _ _ _ _ _ _ Hrun) as (evs & _ & _ & Hc & _).
        rewrite calls_record_call, <- app_assoc in Hc.
        rewrite (new_calls_app _ _ _ Hc).
        rewrite (new_calls_app _ w' evs) in Hu
          by (rewrite calls_record_call, <- app_assoc; exact Hc).
        split; [exact Hu|].
        destruct r as [done|e]; [destruct Hr; split; auto|].
        destruct Hr as [->|(s & Hin & Hs)]; [now left|].
        right. exists s. split; [now right|exact Hs]. }
    destruct (not_found e) eqn:Hnf.
    + rewrite loop_cons in Hrun.
      rewrite (bind_ok _ _ _ _ _ (already_processed_absent _ _ _ w e Hh Hnf))
        in Hrun.
      rewrite (bind_raise _ _ _ _ _
                 (thumbnail_opaque env local_in (local_out size) size
                    (file_ext_of key)
                    (record_call (HeadObject bucket (s3_key size)) w)
                    bytes default_quality Hf)) in Hrun.
      inversion Hrun; subst.
      rewrite (new_calls_app w _ [HeadObject bucket (s3_key size)])
        by reflexivity.
      split; [reflexivity|now left].
    + rewrite (loop_fatal _ _ _ _ _ _ _ _ Hh Hnf) in Hrun.
      inversion Hrun; subst.
      rewrite (new_calls_app w _ [HeadObject bucket (s3_key size)])
        by reflexivity.
      split; [reflexivity|]. right. exists size. split; [now left|auto].
Qed.

End MoreRuns.


(** ** X1: what [sanitize_filename] returns *)

(** X1.  [sanitize_filename] keeps the length of the name, returns a name
    with no space and no parenthesis, changes nothing in a name that has
    none, and applying it twice is applying it once. *)
Theorem sanitize_filename_safe (s : string) :
  String.length (sanitize_filename s) = String.length s
  /\ Forall (fun c => c <> " "%char /\ c <> "("%char /\ c <> ")"%char)
       (chars (sanitize_filename s))
  /\ sanitize_filename (sanitize_filename s) = sanitize_filename s
  /\ (Forall (fun c => c <> " "%char /\ c <> "("%char /\ c <> ")"%char)
        (chars s) ->
      sanitize_filename s = s).
Proof.
  split; [apply length_sanitize_filename|].
  rewrite !sanitize_filename_spec. split; [apply sanitizedBase_clean|].
  split; [|apply sanitizedBase_fixed].
  apply sanitizedBase_fixed, sanitizedBase_clean.
Qed.

(** ** X2: the bits the token shows *)

(** X2.  The token [uuid.uuid4().hex[:8]] is the hexadecimal writing of the
    top 32 of the 128 random bits: the version and variant fields of the
    UUID do not reach it, and two invocations get the same token exactly
    when these 32 bits agree. *)
Theorem token_top_bits (env env' : Env) :
  random_id_of env
  = Uuid.hex_digits 8 ((urandom env mod 2 ^ 128) / 2 ^ 96)%N ""
  /\ (random_id_of env = random_id_of env'
      <-> ((urandom env mod 2 ^ 128) / 2 ^ 96
           = (urandom env' mod 2 ^ 128) / 2 ^ 96)%N).
Proof.
  split; [apply random_id_bits|]. split; [apply random_id_inj|].
  intros H. now rewrite !random_id_bits, H.
Qed.

(** ** X3: distinct widths and tokens give distinct keys *)

(** X3.  For one source key, two output keys are equal exactly when the
    widths are equal and the tokens are equal; so the outputs of one
    invocation have pairwise distinct keys. *)
Theorem output_key_injective (env env' : Env) (key : string) (a b : Z) :
  (s3_key_of env key a = s3_key_of env' key b
   <-> a = b /\ random_id_of env = random_id_of env')
  /\ forall widths, NoDup widths -> NoDup (map (s3_key_of env key) widths).
Proof.
  split.
  - split; [apply s3_key_inj|]. intros [-> Ht].
    rewrite !s3_key_parts. now rewrite Ht.
  - intros widths. apply (NoDup_fmap_2_strong (s3_key_of env key)).
    intros x y _ _ H. now apply s3_key_inj in H.
Qed.

(** ** X4: an output is not taken for a source *)

Lemma s3_key_prefix env key size :
  startswith (s3_key_of env key size) "processed_image/" = true
  /\ startswith (s3_key_of env key size) "source_image/" = false.
Proof.
  unfold s3_key_of, folder_path_of. rewrite !append_assoc.
  split; [apply prefix_append|].
  unfold startswith. rewrite append_cons. cbn [String.prefix].
  destruct (ascii_dec "s" "p"); [discriminate|reflexivity].
Qed.

(** X4.  No output key starts with the source prefix: an event for an
    object the handler itself wrote is skipped, with no effect. *)
Theorem outputs_never_reprocessed env env' event w bucket_name key size :
  event_fields env event = Ok (bucket_name, s3_key_of env' key size) ->
  startswith (s3_key_of env' key size) "processed_image/" = true
  /\ lambda_handler env event w
     = (Ok (mkResponse 200
              (BodyStr ("Skipped: " +:+ s3_key_of env' key size))), w).
Proof.
  intros Hev. destruct (s3_key_prefix env' key size) as [Hp Hs].
  split; [exact Hp|]. now apply handler_wrong_prefix with bucket_name.
Qed.

Lemma outputs_never_reprocessed_witness :
  startswith (s3_key_of Example.none_present "source_image/a.jpg" 200)
    "processed_image/" = true
  /\ lambda_handler Example.none_present
       (Example.s3_event "photos"
          "processed_image/a_01234567/200_a_01234567.jpg")
       Example.empty_world
     = (Ok (mkResponse 200
              (BodyStr ("Skipped: "
                        +:+ s3_key_of Example.none_present
                              "source_image/a.jpg" 200))),
        Example.empty_world).
Proof.
  apply (outputs_never_reprocessed Example.none_present Example.none_present
           _ _ (JStr "photos")).
  vm_compute. reflexivity.
Defined.

(** ** X5: no upload without a check *)

(** X5.  In a run on an accepted key every upload comes right after the
    existence check of the same bucket and key, and that check reported
    the key missing (404): a key the check found is never written. *)
Theorem upload_only_after_missing_check env event w bucket key :
  event_fields env event = Ok (JStr bucket, key) ->
  eligible key = true ->
  exists r w',
    lambda_handler env event w = (Ok r, w')
    /\ forall pre path b k blob post,
         new_calls w w' = pre ++ Upload path b k blob :: post ->
         exists pre' e,
           pre = pre' ++ [HeadObject b k]
           /\ s3_head_object env b k = Some e /\ not_found e = true.
Proof.
  intros Hev Hel.
  destruct (handler_run env bucket key event w Hev Hel)
    as (evs & r & w' & Hrun & Hc & _ & Hcases).
  exists r, w'. split; [exact Hrun|].
  rewrite (new_calls_app _ _ _ Hc).
  intros pre path b k blob post Heq.
  destruct pre as [|ev pre]; [discriminate|]. injection Heq as <- Heq.
  destruct Hcases as [(e & _ & -> & _)|(src & ws & out & _ & Ht & _)].
  - now destruct pre.
  - destruct (trace_upload_guarded _ _ _ _ _ _ _ Ht _ _ _ _ _ _ Heq)
      as (pre' & e & -> & He).
    exists (Download bucket key (local_input_path_of env key) :: pre'), e.
    auto.
Qed.

Lemma upload_only_after_missing_check_witness :
  exists r w',
    lambda_handler (Example.skipping [300; 1000])
      (Example.s3_event "photos" "source_image/a.jpg") Example.empty_world
    = (Ok r, w')
    /\ forall pre path b k blob post,
         new_calls Example.empty_world w' = pre ++ Upload path b k blob :: post ->
         exists pre' e,
           pre = pre' ++ [HeadObject b k]
           /\ s3_head_object (Example.skipping [300; 1000]) b k = Some e
           /\ not_found e = true.
Proof.
  apply (upload_only_after_missing_check (Example.skipping [300; 1000])
           (Example.s3_event "photos" "source_image/a.jpg")
           Example.empty_world "photos" "source_image/a.jpg");
    vm_compute; reflexivity.
Defined.

(** ** X6: where the calls go *)

(** X6.  Every storage call of a run addresses the bucket named in the
    event, and every key written lies under "processed_image/", never
    under "source_image/": no source object is overwritten. *)
Theorem calls_stay_in_bucket env event w bucket key :
  event_fields env event = Ok (JStr bucket, key) ->
  eligible key = true ->
  exists r w',
    lambda_handler env event w = (Ok r, w')
    /\ Forall (fun ev => event_bucket ev = bucket) (new_calls w w')
    /\ Forall (fun k => startswith k "processed_image/" = true
                        /\ startswith k "source_image/" = false)
         (upload_keys (new_calls w w')).
Proof.
  intros Hev Hel.
  destruct (handler_run env bucket key event w Hev Hel)
    as (evs & r & w' & Hrun & Hc & _ & Hcases).
  exists r, w'. split; [exact Hrun|].
  rewrite (new_calls_app _ _ _ Hc), upload_keys_download.
  destruct Hcases as [(e & _ & -> & _)|(src & ws & out & _ & Ht & _)].
  - split; repeat constructor.
  - split.
    + constructor; [reflexivity|]. exact (trace_bucket _ _ _ _ _ _ _ Ht).
    + destruct (trace_upload_keys _ _ _ _ _ _ _ Ht) as [Hsub _].
      apply Forall_forall. intros k Hk.
      apply (elem_of_sublist _ _ _ Hk), list_elem_of_In, in_map_iff in Hsub.
      destruct Hsub as (size & <- & _). apply s3_key_prefix.
Qed.

Lemma calls_stay_in_bucket_witness :
  exists r w',
    lambda_handler Example.none_present
      (Example.s3_event "photos" "source_image/a.jpg") Example.empty_world
    = (Ok r, w')
    /\ Forall (fun ev => event_bucket ev = "photos")
         (new_calls Example.empty_world w')
    /\ Forall (fun k => startswith k "processed_image/" = true
                        /\ startswith k "source_image/" = false)
         (upload_keys (new_calls Example.empty_world w')).
Proof.
  apply (calls_stay_in_bucket Example.none_present
           (Example.s3_event "photos" "source_image/a.jpg")
           Example.empty_world "photos" "source_image/a.jpg");
    vm_compute; reflexivity.
Defined.

(** ** X7: what the thumbnail function touches *)


(** ** X8: the handler returns once the event is read *)

(** X8.  An exception of lines 32-35 leaves the handler, with no effect.
    Once these lines succeed the handler returns a response, whatever the
    storage service, the image library and the file system answer: status
    200 with a message or the summary, or status 500 with the exception. *)
Theorem handler_returns_once_parsed env event w :
  match event_fields env event with
  | Raise e => lambda_handler env event w = (Raise e, w)
  | Ok _ =>
      exists r w',
        lambda_handler env event w = (Ok r, w')
        /\ ((statusCode r = 200
             /\ ((exists msg, body r = BodyStr msg)
                 \/ exists s, body r = BodyResponse s))
            \/ (statusCode r = 500 /\ exists e, body r = BodyError e))
  end.
Proof.
  destruct (event_fields env event) as [[bucket_name key]|e] eqn:Hev;
    [|now apply handler_raises].
  destruct (eligible key) eqn:Hel.
  - destruct bucket_name as [| | |bucket| |];
      try (rewrite (handler_bad_bucket env event w _ key Hev Hel)
             by (intros ?; discriminate);
           eexists _, _; split; [reflexivity|]; right; simpl; eauto).
    destruct (handler_run env bucket key event w Hev Hel)
      as (evs & r & w' & Hrun & _ & _ & Hcases).
    exists r, w'. split; [exact Hrun|].
    destruct Hcases as [(e & _ & _ & ->)|(src & ws & [e|] & _ & _ & Hr)].
    + right. simpl. eauto.
    + subst r. right. simpl. eauto.
    + destruct Hr as [->|[-> _]]; [left|right]; simpl; eauto.
  - unfold eligible in Hel. apply andb_false_iff in Hel as [Hp|Hx].
    + rewrite (handler_wrong_prefix _ _ _ _ _ Hev Hp).
      eexists _, _. split; [reflexivity|]. left. simpl. eauto.
    + destruct (startswith key "source_image/") eqn:Hp.
      * rewrite (handler_unsupported _ _ _ _ _ Hev Hp Hx).
        eexists _, _. split; [reflexivity|]. left. simpl. eauto.
      * rewrite (handler_wrong_prefix _ _ _ _ _ Hev Hp).
        eexists _, _. split; [reflexivity|]. left. simpl. eauto.
Qed.

(** ** X9: the handler works in its temporary directory only *)

Section Confinement.
Variable env : Env.
Hypothesis tempdir_named : tempdir env <> "".

Lemma loop_confined bucket key szs acc w r w' p :
  handler_loop env bucket key szs acc w = (r, w') ->
  Os.under (tempdir env) p = false ->
  files w' !! p = files w !! p.
Proof.
  intros Hrun Hp.
  destruct (loop_files env bucket key szs acc w r w' Hrun p)
    as [Hsame|[Hex _]]; [exact Hsame|].
  apply Exists_exists in Hex as (size & _ & ->).
  rewrite (output_path_under env key size tempdir_named) in Hp.
  discriminate.
Qed.

Lemma handler_confined event w r w' :
  lambda_handler env event w = (r, w') ->
  (forall p, Os.under (tempdir env) p = false ->
             files w' !! p = files w !! p)
  /\ (forall d, d <> tempdir env -> d ∈ dirs w' <-> d ∈ dirs w)
  /\ calls w `prefix_of` calls w'.
Proof.
  intros Hrun.
  assert (Hmk : forall d, d <> tempdir env ->
                  d ∈ dirs (snd (Os.mkdtemp env w)) <-> d ∈ dirs w).
  { intros d Hd. cbn [snd Os.mkdtemp dirs].
    rewrite elem_of_union, elem_of_singleton. tauto. }
  destruct (event_fields env event) as [[bucket_name key]|e] eqn:Hev.
  2:{ rewrite (handler_raises _ _ _ _ Hev) in Hrun.
      injection Hrun as <- <-. auto. }
  destruct (eligible key) eqn:Hel.
  2:{ assert (w' = w) as ->; [|auto].
      unfold eligible in Hel. apply andb_false_iff in Hel.
      destruct (startswith key "source_image/") eqn:Hp.
      - destruct Hel as [Hel|Hx]; [discriminate|].
        rewrite (handler_unsupported _ _ _ _ _ Hev Hp Hx) in Hrun.
        now injection Hrun.
      - rewrite (handler_wrong_prefix _ _ _ _ _ Hev Hp) in Hrun.
        now injection Hrun. }
  assert (Hbad : (forall b, bucket_name <> JStr b) ->
            (forall p, Os.under (tempdir env) p = false ->
                       files w' !! p = files w !! p)
            /\ (forall d, d <> tempdir env -> d ∈ dirs w' <-> d ∈ dirs w)
            /\ calls w `prefix_of` calls w').
  { intros Hb. rewrite (handler_bad_bucket env event w _ key Hev Hel Hb) in Hrun.
    injection Hrun as <- <-. auto. }
  destruct bucket_name as [| | |bucket| |];
    try (apply Hbad; intros ?; discriminate).
  clear Hbad.
  destruct (s3_download_file env bucket key) as [blob|e] eqn:Hd.
  2:{ rewrite (handler_download_fails env bucket key event w e Hev Hel Hd)
        in Hrun.
      injection Hrun as <- <-. split_and!; auto.
      cbn [calls record_call snd Os.mkdtemp]. now apply prefix_app_r. }
  rewrite (handler_unfold env bucket key event w blob Hev Hel Hd) in Hrun.
  set (w2 := downloaded env bucket key blob w) in *.
  assert (Hin : forall p, Os.under (tempdir env) p = false ->
                  files w2 !! p = files w !! p).
  { intros p Hp. unfold w2, downloaded.
    cbn [files write_file record_call snd Os.mkdtemp].
    apply lookup_insert_ne. intros <-.
    rewrite (input_path_under env key tempdir_named) in Hp. discriminate. }
  destruct (handler_loop env bucket key sizes [] w2) as [rl w3] eqn:Hl.
  destruct (loop_sound _ _ _ _ _ _ _ _ Hl) as (evs & ws & out & Hc & _ & _ & Hds & _).
  assert (H3 : (forall p, Os.under (tempdir env) p = false ->
                          files w3 !! p = files w !! p)
               /\ (forall d, d <> tempdir env -> d ∈ dirs w3 <-> d ∈ dirs w)
               /\ calls w `prefix_of` calls w3).
  { split_and!.
    - intros p Hp. rewrite (loop_confined _ _ _ _ _ _ _ _ Hl Hp). auto.
    - intros d Hdne. rewrite Hds. now apply Hmk.
    - rewrite Hc. unfold w2, downloaded.
      cbn [calls write_file record_call snd Os.mkdtemp].
      rewrite <- app_assoc. now apply prefix_app_r. }
  destruct rl as [done|e];
    [|apply pair_equal_spec in Hrun as [_ <-]; exact H3].
  destruct (finish env key (summary env bucket key done) w3) as [rf w4] eqn:Hf.
  destruct (finish_world env key _ _ _ _ Hf)
    as (Hfiles & _ & _ & Hdirs & _ & _ & Hcalls & _).
  destruct H3 as (H3f & H3d & H3c).
  assert (w' = w4) as -> by (destruct rf; now injection Hrun).
  split_and!.
  - intros p Hp. rewrite Hfiles; [auto|]. intros ->.
    rewrite (input_path_under env key tempdir_named) in Hp. discriminate.
  - intros d Hdne. rewrite (Hdirs d Hdne). auto.
  - now rewrite Hcalls.
Qed.
End Confinement.

(** X9.  Whatever the event and the answers of the services, a run of the
    handler changes no file outside the temporary directory it creates,
    creates and removes no other directory, and only adds to the calls
    made before. *)
Theorem scratch_confinement env event w :
  tempdir env <> "" ->
  let w' := snd (lambda_handler env event w) in
  (forall p, Os.under (tempdir env) p = false ->
             files w' !! p = files w !! p)
  /\ (forall d, d <> tempdir env -> d ∈ dirs w' <-> d ∈ dirs w)
  /\ calls w `prefix_of` calls w'.
Proof.
  intros Ht. simpl.
  destruct (lambda_handler env event w) as [r w'] eqn:Hrun.
  exact (handler_confined env Ht event w r w' Hrun).
Qed.

Lemma scratch_confinement_witness :
  let w' := snd (lambda_handler Example.upload_fails
                   (Example.s3_event "photos" "source_image/a.jpg")
                   ExampleMore.busy_world) in
  (forall p, Os.under "/tmp/tmpk3x" p = false ->
             files w' !! p = files ExampleMore.busy_world !! p)
  /\ (forall d, d <> "/tmp/tmpk3x" ->
                d ∈ dirs w' <-> d ∈ dirs ExampleMore.busy_world)
  /\ calls ExampleMore.busy_world `prefix_of` calls w'.
Proof.
  apply (scratch_confinement Example.upload_fails
           (Example.s3_event "photos" "source_image/a.jpg")
           ExampleMore.busy_world).
  discriminate.
Defined.

(** ** X10: a completed run leaves the file system as it found it *)

(** X10.  When the temporary directory is new and empty, a run that
    returns status 200 leaves the files and the directories exactly as
    they were before it: every scratch file and the directory are gone. *)
Theorem success_restores_scratch env event w r w' :
  lambda_handler env event w = (Ok r, w') ->
  statusCode r = 200 ->
  tempdir env <> "" ->
  tempdir env ∉ dirs w ->
  map_Forall (fun p _ => Os.under (tempdir env) p = false) (files w) ->
  files w' = files w /\ dirs w' = dirs w.
Proof.
  intros Hrun H200 Ht Hnew Hempty.
  assert (Hfresh : forall p, Os.under (tempdir env) p = true ->
                     files w !! p = None).
  { intros p Hp. destruct (files w !! p) as [b|] eqn:Hf; [|reflexivity].
    rewrite (Hempty p b Hf) in Hp. discriminate. }
  destruct (handler_response_inv _ _ _ _ _ Hrun)
    as (bn & key & Hev & [(_ & -> & _)|(Hel & Hb)]); [auto|].
  assert (Hbucket : exists bucket, bn = JStr bucket).
  { destruct Hb as [[e ->]|Hb]; [discriminate|exact Hb]. }
  destruct Hbucket as [bucket ->].
  destruct (s3_download_file env bucket key) as [blob|e] eqn:Hd.
  2:{ rewrite (handler_download_fails env bucket key event w e Hev Hel Hd)
        in Hrun.
      injection Hrun as <- <-. discriminate. }
  rewrite (handler_unfold env bucket key event w blob Hev Hel Hd) in Hrun.
  set (w2 := downloaded env bucket key blob w) in *.
  destruct (handler_loop env bucket key sizes [] w2) as [rl w3] eqn:Hl.
  destruct (loop_sound _ _ _ _ _ _ _ _ Hl) as (evs & ws & out & _ & _ & _ & Hds & _).
  destruct rl as [done|e]; [|injection Hrun as <- <-; discriminate].
  destruct (finish env key (summary env bucket key done) w3) as [rf w4] eqn:Hf.
  destruct rf as [r4|e]; [|injection Hrun as <- <-; discriminate].
  injection Hrun as -> ->.
  destruct (finish_world env key _ _ _ _ Hf)
    as (Hfiles & Hgone & Hin & Hdirs & Hback & Hrm & _ & Hresp).
  rewrite (Hresp r eq_refl) in *.
  assert (Hall : files w' = files w).
  { apply map_eq. intros p.
    destruct (decide (p = local_input_path_of env key)) as [->|Hne].
    - rewrite (Hfresh _ (input_path_under env key Ht)).
      destruct Hin as [Hin|Hin]; [|exact Hin].
      rewrite Hin.
      destruct (loop_files env bucket key sizes [] w2 _ w3 Hl
                  (local_input_path_of env key)) as [Hsame|[_ Hnone]];
        [|now apply (Hnone done)].
      apply proj2 in Hgone. rewrite <- Hin. apply Hgone.
      rewrite Hsame. unfold w2, downloaded.
      cbn [files write_file]. rewrite lookup_insert_eq. eauto.
    - rewrite (Hfiles p Hne).
      destruct (loop_files env bucket key sizes [] w2 _ w3 Hl p)
        as [Hsame|[Hex Hnone]].
      + rewrite Hsame. unfold w2, downloaded. cbn [files write_file].
        rewrite lookup_insert_ne by congruence. reflexivity.
      + rewrite (Hnone done eq_refl).
        apply Exists_exists in Hex as (size & _ & ->).
        symmetry. apply Hfresh, output_path_under, Ht. }
  split; [exact Hall|].
  assert (Hin3 : tempdir env ∈ dirs w3).
  { rewrite Hds. unfold w2, downloaded.
    cbn [dirs write_file record_call snd Os.mkdtemp].
    apply elem_of_union_l, elem_of_singleton. reflexivity. }
  assert (Hout : tempdir env ∉ dirs w').
  { apply Hrm; [reflexivity|exact Hin3|]. now rewrite Hall. }
  apply set_eq. intros d.
  destruct (decide (d = tempdir env)) as [->|Hne]; [tauto|].
  rewrite (Hdirs d Hne), Hds. unfold w2, downloaded.
  cbn [dirs write_file record_call snd Os.mkdtemp].
  rewrite elem_of_union, elem_of_singleton. tauto.
Qed.

Lemma success_restores_scratch_witness :
  files (snd (lambda_handler Example.none_present
                (Example.s3_event "photos" "source_image/a.jpg")
                ExampleMore.busy_world))
  = files ExampleMore.busy_world
  /\ dirs (snd (lambda_handler Example.none_present
                  (Example.s3_event "photos" "source_image/a.jpg")
                  ExampleMore.busy_world))
     = dirs ExampleMore.busy_world.
Proof.
  destruct (lambda_handler Example.none_present
              (Example.s3_event "photos" "source_image/a.jpg")
              ExampleMore.busy_world) as [r w'] eqn:Hrun.
  assert (Hr : exists s, r = Ok (mkResponse 200 (BodyResponse s))).
  { vm_compute in Hrun. inversion Hrun. eauto. }
  destruct Hr as [s ->].
  apply (success_restores_scratch Example.none_present
           (Example.s3_event "photos" "source_image/a.jpg")
           ExampleMore.busy_world _ w' Hrun).
  - reflexivity.
  - discriminate.
  - change ("/tmp/tmpk3x" ∉ ({[ "/var/task" ]} : gset string)).
    intros H%elem_of_singleton. discriminate.
  - intros p b Hp. unfold ExampleMore.busy_world in Hp. cbn [files] in Hp.
    apply lookup_singleton_Some in Hp as [<- _]. reflexivity.
Defined.

(** ** X11: the downloaded copy after a run *)

(** X11.  After a download that succeeded, the local copy of the source is
    still on disk when the handler returns status 500, and removed when it
    returns status 200: the loop never writes over it and only the end of
    a completed run deletes it. *)
Theorem source_copy_after_run env event w bucket key blob r w' :
  event_fields env event = Ok (JStr bucket, key) ->
  eligible key = true ->
  s3_download_file env bucket key = Ok blob ->
  lambda_handler env event w = (Ok r, w') ->
  (statusCode r = 500 -> files w' !! local_input_path_of env key = Some blob)
  /\ (statusCode r = 200 -> files w' !! local_input_path_of env key = None)
  /\ (statusCode r = 200 \/ statusCode r = 500).
Proof.
  intros Hev Hel Hd Hrun.
  rewrite (handler_unfold env bucket key event w blob Hev Hel Hd) in Hrun.
  set (w2 := downloaded env bucket key blob w) in *.
  destruct (handler_loop env bucket key sizes [] w2) as [rl w3] eqn:Hl.
  assert (H3 : files w3 !! local_input_path_of env key = Some blob).
  { destruct (loop_files env bucket key sizes [] w2 rl w3 Hl
                (local_input_path_of env key)) as [Hsame|[Hex _]].
    - rewrite Hsame. apply lookup_insert_eq.
    - apply Exists_exists in Hex as (size & _ & Heq).
      symmetry in Heq. now apply output_path_fresh in Heq. }
  destruct rl as [done|e].
  - destruct (finish env key (summary env bucket key done) w3)
      as [rf w4] eqn:Hf.
    destruct (finish_world env key _ _ _ _ Hf)
      as (_ & Hgone & _ & _ & _ & _ & _ & Hresp).
    destruct (Hgone ltac:(rewrite H3; eauto)) as [-> Hnone].
    injection Hrun as <- <-. split_and!; [discriminate|auto|now left].
  - injection Hrun as <- <-. split_and!; [auto|discriminate|now right].
Qed.

Lemma source_copy_after_run_witness :
  (statusCode (failure (OtherError "S3UploadFailedError" "Failed to upload"))
   = 500 ->
   files (snd (lambda_handler Example.upload_fails
                 (Example.s3_event "photos" "source_image/a.jpg")
                 Example.empty_world))
     !! local_input_path_of Example.upload_fails "source_image/a.jpg"
   = Some Example.photo)
  /\ (statusCode (failure (OtherError "S3UploadFailedError" "Failed to upload"))
      = 200 ->
      files (snd (lambda_handler Example.upload_fails
                    (Example.s3_event "photos" "source_image/a.jpg")
                    Example.empty_world))
        !! local_input_path_of Example.upload_fails "source_image/a.jpg"
      = None)
  /\ (statusCode (failure (OtherError "S3UploadFailedError" "Failed to upload"))
      = 200
      \/ statusCode
           (failure (OtherError "S3UploadFailedError" "Failed to upload"))
         = 500).
Proof.
  destruct (lambda_handler Example.upload_fails
              (Example.s3_event "photos" "source_image/a.jpg")
              Example.empty_world) as [r w'] eqn:Hrun.
  assert (Hr : r = Ok (failure (OtherError "S3UploadFailedError"
                                  "Failed to upload")))
    by (vm_compute in Hrun; now inversion Hrun).
  subst r.
  exact (source_copy_after_run Example.upload_fails
           (Example.s3_event "photos" "source_image/a.jpg")
           Example.empty_world "photos" "source_image/a.jpg" Example.photo
           _ w' eq_refl eq_refl eq_refl Hrun).
Defined.

(** ** X12: a run whose services cooperate completes *)



(** ** X13: a source that is no image *)

(** X13.  When the downloaded object is not an image nothing is ever
    uploaded.  The run returns status 200 with an empty list only when
    every output already exists; else it fails with the error of a check
    or with [UnidentifiedImageError] at the first width that needs
    work. *)
Theorem non_image_source env event w bucket key bytes :
  event_fields env event = Ok (JStr bucket, key) ->
  eligible key = true ->
  s3_download_file env bucket key = Ok (Opaque bytes) ->
  exists r w',
    lambda_handler env event w = (Ok r, w')
    /\ upload_keys (new_calls w w') = []
    /\ ((r = summary env bucket key []
         /\ Forall (fun size =>
                      s3_head_object env bucket (s3_key_of env key size)
                      = None) sizes)
        \/ r = failure (UnidentifiedImageError (local_input_path_of env key))
        \/ exists size e,
             In size sizes
             /\ s3_head_object env bucket (s3_key_of env key size) = Some e
             /\ not_found e = false /\ r = failure e).
Proof.
  intros Hev Hel Hd.
  rewrite (handler_unfold env bucket key event w _ Hev Hel Hd).
  set (w2 := downloaded env bucket key (Opaque bytes) w).
  assert (H2 : files w2 !! local_input_path_of env key = Some (Opaque bytes))
    by apply lookup_insert_eq.
  destruct (handler_loop env bucket key sizes [] w2) as [rl w3] eqn:Hl.
  destruct (loop_opaque env bucket key bytes sizes [] w2 rl w3 H2 Hl)
    as [Hup Hr].
  destruct (loop_sound _ _ _ _ _ _ _ _ Hl)
    as (evs & ws & out & Hc & _ & _ & _ & Hfs).
  rewrite (new_calls_app _ _ _ Hc) in Hup.
  assert (Hc3 : calls w3
                = calls w
                  ++ Download bucket key (local_input_path_of env key) :: evs).
  { rewrite Hc. unfold w2, downloaded.
    cbn [calls write_file record_call snd Os.mkdtemp].
    now rewrite <- app_assoc. }
  destruct rl as [done|e].
  - destruct Hr as [-> Hall].
    destruct (finish env key (summary env bucket key []) w3)
      as [rf w4] eqn:Hf.
    destruct (finish_world env key _ _ _ _ Hf)
      as (_ & Hgone & _ & _ & _ & _ & Hcalls & _).
    assert (H3 : files w3 !! local_input_path_of env key
                 = Some (Opaque bytes)).
    { destruct (loop_files env bucket key sizes [] w2 _ w3 Hl
                  (local_input_path_of env key)) as [Hsame|[Hex _]].
      - now rewrite Hsame.
      - apply Exists_exists in Hex as (size & _ & Heq).
        symmetry in Heq. now apply output_path_fresh in Heq. }
    destruct (Hgone ltac:(rewrite H3; eauto)) as [-> _].
    eexists _, w4. split; [reflexivity|].
    rewrite (new_calls_app w w4 _ ltac:(rewrite Hcalls; exact Hc3)).
    rewrite upload_keys_download. split; [exact Hup|]. left. auto.
  - eexists _, w3. split; [reflexivity|].
    rewrite (new_calls_app w w3 _ Hc3), upload_keys_download.
    split; [exact Hup|]. right.
    destruct Hr as [->|(size & Hin & Hh & Hnf)]; [now left|].
    right. exists size, e. auto.
Qed.

Lemma non_image_source_witness :
  exists r w',
    lambda_handler ExampleMore.not_an_image
      (Example.s3_event "photos" "source_image/a.jpg") Example.empty_world
    = (Ok r, w')
    /\ upload_keys (new_calls Example.empty_world w') = []
    /\ ((r = summary ExampleMore.not_an_image "photos" "source_image/a.jpg" []
         /\ Forall (fun size =>
                      s3_head_object ExampleMore.not_an_image "photos"
                        (s3_key_of ExampleMore.not_an_image
                           "source_image/a.jpg" size) = None) sizes)
        \/ r = failure (UnidentifiedImageError
                          (local_input_path_of ExampleMore.not_an_image
                             "source_image/a.jpg"))
        \/ exists size e,
             In size sizes
             /\ s3_head_object ExampleMore.not_an_image "photos"
                  (s3_key_of ExampleMore.not_an_image "source_image/a.jpg"
                     size) = Some e
             /\ not_found e = false /\ r = failure e).
Proof.
  apply (non_image_source ExampleMore.not_an_image
           (Example.s3_event "photos" "source_image/a.jpg")
           Example.empty_world "photos" "source_image/a.jpg" "%PDF-1.7");
    vm_compute; reflexivity.
Defined.


(** ** X14: the file name of an accepted key *)

(** X14.  For a key that passes both filters, the file name (what follows
    the last "/") is a stem that is not empty followed by the extension
    the filter tested: the extension taken from the whole key (line 43)
    and the one split off the file name (line 50) are the same, and it is
    ".jpg", ".jpeg" or ".png" up to case. *)
Theorem accepted_file_name (key : string) :
  eligible key = true ->
  (exists dir, key = dir +:+ file_name_of key)
  /\ ~ In OsPath.sep (chars (file_name_of key))
  /\ file_name_of key
     = fst (OsPath.splitext (file_name_of key))
       +:+ snd (OsPath.splitext key)
  /\ fst (OsPath.splitext (file_name_of key)) <> ""
  /\ snd (OsPath.splitext (file_name_of key)) = snd (OsPath.splitext key)
  /\ (lower (snd (OsPath.splitext key)) = ".jpg"
      \/ lower (snd (OsPath.splitext key)) = ".jpeg"
      \/ lower (snd (OsPath.splitext key)) = ".png").
Proof.
  intros Hel. destruct (eligible_file_name key Hel) as (Hfn & Hstem & Hns).
  destruct (basename_split key) as (dir & Hdir & _).
  split_and!; auto.
  - now exists dir.
  - apply splitext_basename.
  - now apply eligible_ext.
Qed.

Lemma accepted_file_name_witness :
  (exists dir, "source_image/2024.05/My Photo (1).JPEG"
               = dir +:+ file_name_of "source_image/2024.05/My Photo (1).JPEG")
  /\ ~ In OsPath.sep
         (chars (file_name_of "source_image/2024.05/My Photo (1).JPEG"))
  /\ file_name_of "source_image/2024.05/My Photo (1).JPEG"
     = fst (OsPath.splitext
              (file_name_of "source_image/2024.05/My Photo (1).JPEG"))
       +:+ snd (OsPath.splitext "source_image/2024.05/My Photo (1).JPEG")
  /\ fst (OsPath.splitext
            (file_name_of "source_image/2024.05/My Photo (1).JPEG")) <> ""
  /\ snd (OsPath.splitext
            (file_name_of "source_image/2024.05/My Photo (1).JPEG"))
     = snd (OsPath.splitext "source_image/2024.05/My Photo (1).JPEG")
  /\ (lower (snd (OsPath.splitext "source_image/2024.05/My Photo (1).JPEG"))
      = ".jpg"
      \/ lower (snd (OsPath.splitext "source_image/2024.05/My Photo (1).JPEG"))
         = ".jpeg"
      \/ lower (snd (OsPath.splitext "source_image/2024.05/My Photo (1).JPEG"))
         = ".png").
Proof.
  apply (accepted_file_name "source_image/2024.05/My Photo (1).JPEG").
  vm_compute. reflexivity.
Defined.

(** ** X15: a key that names a folder *)

(** X15.  A key that ends in "/" has no file name and no extension, and is
    never accepted: the folder placeholder objects of the storage console
    are skipped. *)
Theorem directory_key_rejected (p : string) :
  file_name_of (p +:+ "/") = ""
  /\ file_ext_of (p +:+ "/") = ""
  /\ eligible (p +:+ "/") = false.
Proof.
  assert (Hx : file_ext_of (p +:+ "/") = "").
  { pose proof (splitext_directory p) as Hd. unfold OsPath.sep in Hd.
    unfold file_ext_of. now rewrite Hd. }
  split_and!.
  - unfold file_name_of, OsPath.basename.
    pose proof (rfind_last p "" OsPath.sep ltac:(simpl; tauto)) as Hr.
    unfold OsPath.sep in *. rewrite Hr.
    replace (Z.of_nat (String.length p) + 1)
      with (Z.of_nat (String.length (p +:+ "/")) + 0)
      by (rewrite length_append; simpl; lia).
    rewrite <- (append_empty_r (p +:+ "/")) at 1.
    now rewrite slice_from_app.
  - exact Hx.
  - unfold eligible. rewrite Hx. apply andb_false_r.
Qed.

(** ** X16: only the first record is read *)

(** X16.  The handler reads the first element of "Records" and nothing
    else of the event: further records, and further fields of the event,
    change nothing. *)
Theorem first_record_only env items record rest w :
  PyJson.dict_get items "Records" = Some (JList (record :: rest)) ->
  lambda_handler env (JDict items) w
  = lambda_handler env (JDict [("Records", JList [record])]) w.
Proof.
  intros H.
  assert (Hitem : forall a b,
             event_item (JDict items) a b
             = event_item (JDict [("Records", JList [record])]) a b).
  { intros a b. unfold event_item.
    assert (H1 : PyJson.getitem_str (JDict items) "Records"
                 = Ok (JList (record :: rest)))
      by (unfold PyJson.getitem_str; now rewrite H).
    now rewrite H1. }
  unfold lambda_handler, event_fields. now rewrite !Hitem.
Qed.

Lemma first_record_only_witness :
  lambda_handler Example.none_present ExampleMore.two_records
    Example.empty_world
  = lambda_handler Example.none_present
      (JDict [("Records",
               JList [JDict [("s3",
                              JDict [("bucket", JDict [("name", JStr "photos")]);
                                     ("object",
                                      JDict [("key",
                                              JStr "archive/doc.jpg")])])]])])
      Example.empty_world.
Proof.
  unfold ExampleMore.two_records.
  eapply (first_record_only Example.none_present). reflexivity.
Defined.

(** ** X17: a download that fails *)

(** X17.  When the download raises, the handler returns status 500 with
    that exception after this one call: no check, no upload, no file
    written; the new temporary directory stays. *)
Theorem download_failure env event w bucket key e :
  event_fields env event = Ok (JStr bucket, key) ->
  eligible key = true ->
  s3_download_file env bucket key = Raise e ->
  let run := lambda_handler env event w in
  fst run = Ok (failure e)
  /\ new_calls w (snd run)
     = [Download bucket key (local_input_path_of env key)]
  /\ files (snd run) = files w
  /\ dirs (snd run) = {[tempdir env]} ∪ dirs w.
Proof.
  intros Hev Hel Hd. cbv zeta.
  rewrite (handler_download_fails env bucket key event w e Hev Hel Hd).
  split_and!; try reflexivity. now apply new_calls_app.
Qed.

Lemma download_failure_witness :
  let run := lambda_handler ExampleMore.missing_source
               (Example.s3_event "photos" "source_image/a.jpg")
               Example.empty_world in
  fst run = Ok (failure (ClientError "404" "Not Found"))
  /\ new_calls Example.empty_world (snd run)
     = [Download "photos" "source_image/a.jpg"
          (local_input_path_of ExampleMore.missing_source
             "source_image/a.jpg")]
  /\ files (snd run) = files Example.empty_world
  /\ dirs (snd run)
     = {[tempdir ExampleMore.missing_source]} ∪ dirs Example.empty_world.
Proof.
  apply (download_failure ExampleMore.missing_source
           (Example.s3_event "photos" "source_image/a.jpg")
           Example.empty_world "photos" "source_image/a.jpg");
    vm_compute; reflexivity.
Defined.

(** ** X18: the response and the uploads *)

(** X18.  The summary of a completed run lists exactly the keys uploaded
    in that run, in the order of the uploads, each written
    s3://bucket/key; its original_file is the decoded key of the event. *)
Theorem response_lists_uploads env event w r w' s :
  lambda_handler env event w = (Ok r, w') ->
  body r = BodyResponse s ->
  exists bucket key,
    event_fields env event = Ok (JStr bucket, key)
    /\ processed_files s
       = map (fun k => "s3://" +:+ bucket +:+ "/" +:+ k)
           (upload_keys (new_calls w w'))
    /\ original_file s = "s3://" +:+ bucket +:+ "/" +:+ key
    /\ original_filename s = OsPath.basename key.
Proof.
  intros Hrun Hbody.
  destruct (handler_response_inv _ _ _ _ _ Hrun)
    as (bn & key & Hev & [(_ & _ & msg & ->)|(Hel & Hb)]); [discriminate|].
  assert (Hbucket : exists bucket, bn = JStr bucket).
  { destruct Hb as [[e ->]|Hb]; [discriminate|exact Hb]. }
  destruct Hbucket as [bucket ->].
  destruct (handler_run env bucket key event w Hev Hel)
    as (evs & r0 & w0 & Hrun0 & Hc & _ & Hcases).
  rewrite Hrun in Hrun0. inversion Hrun0; subst r0 w0.
  destruct Hcases as [(e & _ & _ & ->)|(blob & ws & out & _ & Ht & Hr)];
    [discriminate|].
  destruct out as [e|]; [subst r; discriminate|].
  destruct Hr as [->|[-> _]]; [|discriminate].
  simpl in Hbody. inversion Hbody; subst s. cbn [processed_files original_file
    original_filename].
  exists bucket, key. split_and!; auto.
  rewrite (new_calls_app _ _ _ Hc), upload_keys_download.
  destruct (trace_upload_keys _ _ _ _ _ _ _ Ht) as [_ Hk].
  rewrite (Hk eq_refl), map_map. reflexivity.
Qed.

Lemma response_lists_uploads_witness :
  exists bucket key,
    event_fields (Example.skipping [300; 1000])
      (Example.s3_event "photos" "source_image/a.jpg")
    = Ok (JStr bucket, key)
    /\ ["s3://photos/processed_image/a_01234567/200_a_01234567.jpg";
        "s3://photos/processed_image/a_01234567/500_a_01234567.jpg"]
       = map (fun k => "s3://" +:+ bucket +:+ "/" +:+ k)
           (upload_keys
              (new_calls Example.empty_world
                 (snd (lambda_handler (Example.skipping [300; 1000])
                         (Example.s3_event "photos" "source_image/a.jpg")
                         Example.empty_world))))
    /\ "s3://photos/source_image/a.jpg" = "s3://" +:+ bucket +:+ "/" +:+ key
    /\ "a.jpg" = OsPath.basename key.
Proof.
  destruct (lambda_handler (Example.skipping [300; 1000])
              (Example.s3_event "photos" "source_image/a.jpg")
              Example.empty_world) as [r w'] eqn:Hrun.
  assert (Hr : r = Ok (mkResponse 200 (BodyResponse
                 (mkSummary "s3://photos/source_image/a.jpg"
                    ["s3://photos/processed_image/a_01234567/200_a_01234567.jpg";
                     "s3://photos/processed_image/a_01234567/500_a_01234567.jpg"]
                    "a.jpg" "a_01234567.jpg"))))
    by (vm_compute in Hrun; now inversion Hrun).
  subst r.
  exact (response_lists_uploads _ _ _ _ _ _ Hrun eq_refl).
Defined.

(** ** X19: the thumbnail of an upload that fails *)

Section UploadFailure.
Variable env : Env.
Variables bucket key : string.

Abbreviation loop := (handler_loop env bucket key).
Abbreviation s3_key := (s3_key_of env key).
Abbreviation local_out := (local_output_path_of env key).
Abbreviation local_in := (local_input_path_of env key).

(** An upload the service refuses is the last call of the loop, which it
    leaves with the thumbnail still on disk. *)
Lemma loop_upload_refused szs : forall acc w r w',
  loop szs acc w = (r, w') ->
  forall pre path b k blob post e,
    new_calls w w' = pre ++ Upload path b k blob :: post ->
    s3_upload_file env b k blob = Some e ->
    post = [] /\ r = Raise e /\ files w' !! path = Some blob.
Proof.
  induction szs as [|size rest IH]; intros acc w r w' Hrun
    pre path b k blob' post e0 Hnew Hup.
  - inversion Hrun; subst. unfold new_calls in Hnew. rewrite drop_all in Hnew.
    now destruct pre.
  - assert (Hstep : forall v evs0 acc',
              calls v = calls w ++ evs0 ->
              loop rest acc' v = (r, w') ->
              new_calls w w' = evs0 ++ new_calls v w').
    { intros v evs0 acc' Hv Hl.
      destruct (loop_sound _ _ _ _ _ _ _ _ Hl) as (evs & ws & out & Hc & _).
      rewrite (new_calls_app v w' evs Hc).
      apply new_calls_app. rewrite Hc, Hv. now rewrite <- app_assoc. }
    destruct (s3_head_object env bucket (s3_key size)) as [e|] eqn:Hh.
    2:{ rewrite loop_skip in Hrun by assumption.
        rewrite (Hstep _ [HeadObject bucket (s3_key size)] _
                   (calls_record_call _ _) Hrun) in Hnew.
        destruct pre as [|ev pre]; [discriminate|]. injection Hnew as _ Hnew.
        exact (IH _ _ _ _ Hrun _ _ _ _ _ _ _ Hnew Hup). }
    destruct (not_found e) eqn:Hnf.
    2:{ rewrite (loop_fatal _ _ _ _ _ _ _ _ Hh Hnf) in Hrun.
        inversion Hrun; subst.
        rewrite (new_calls_app w _ [HeadObject bucket (s3_key size)])
          in Hnew by reflexivity.
        destruct pre as [|ev [|ev' pre]]; discriminate. }
    set (w1 := record_call (HeadObject bucket (s3_key size)) w).
    destruct (thumbnail_cases env local_in (local_out size) size
                (file_ext_of key) default_quality w1)
      as [[e' He']|(fmt & q & o & src & h & _ & _ & _ & _ & _ & Hok)].
    { rewrite loop_cons in Hrun.
      rewrite (bind_ok _ _ _ _ _ (already_processed_absent _ _ _ w e Hh Hnf))
        in Hrun.
      rewrite (bind_raise _ _ _ _ _ He') in Hrun. inversion Hrun; subst.
      rewrite (new_calls_app w _ [HeadObject bucket (s3_key size)])
        in Hnew by reflexivity.
      destruct pre as [|ev [|ev' pre]]; discriminate. }
    set (blob := Spec.encoded (file_ext_of key) default_quality
                   (mkImage (size, h) (mode src))) in *.
    destruct (s3_upload_file env bucket (s3_key size) blob) as [e'|] eqn:Hu.
    { rewrite (loop_upload_fails _ _ _ _ _ _ _ _ _ _ Hh Hnf Hok Hu) in Hrun.
      inversion Hrun; subst.
      rewrite (new_calls_app w _
                 [HeadObject bucket (s3_key size);
                  Upload (local_out size) bucket (s3_key size) blob])
        in Hnew
        by (cbn [calls record_call write_file]; now rewrite <- app_assoc).
      destruct pre as [|ev [|ev' pre]]; try discriminate.
      - injection Hnew as <- <- <- <- <-.
        rewrite Hu in Hup. injection Hup as <-.
        split_and!; auto. apply lookup_insert_eq.
      - injection Hnew as _ _ Hnew. now destruct pre. }
    rewrite (loop_work _ _ _ _ _ _ _ _ _ Hh Hnf Hok Hu) in Hrun.
    match type of Hrun with
    | handler_loop _ _ _ _ _ ?v = _ => set (w4 := v) in *
    end.
    assert (Hc4 : calls w4
                  = calls w
                    ++ [HeadObject bucket (s3_key size);
                        Upload (local_out size) bucket (s3_key size) blob]).
    { unfold w4, w1. cbn [calls record_call write_file delete_file].
      now rewrite <- app_assoc. }
    rewrite (Hstep w4 _ _ Hc4 Hrun) in Hnew.
    destruct pre as [|ev [|ev' pre]]; try discriminate.
    + injection Hnew as <- <- <- <- <- _. rewrite Hu in Hup. discriminate.
    + injection Hnew as _ _ Hnew.
      exact (IH _ _ _ _ Hrun _ _ _ _ _ _ _ Hnew Hup).
Qed.
End UploadFailure.

(** X19.  An upload the service refuses is the last storage call of the
    run: the handler returns status 500 with that exception, and the
    thumbnail just written stays in the temporary directory (the removal
    of line 94 is not reached). *)
Theorem refused_upload_leaves_thumbnail env event w bucket key
    pre path b k blob post e :
  event_fields env event = Ok (JStr bucket, key) ->
  eligible key = true ->
  new_calls w (snd (lambda_handler env event w))
  = pre ++ Upload path b k blob :: post ->
  s3_upload_file env b k blob = Some e ->
  post = []
  /\ fst (lambda_handler env event w) = Ok (failure e)
  /\ files (snd (lambda_handler env event w)) !! path = Some blob.
Proof.
  intros Hev Hel Hnew Hup.
  destruct (s3_download_file env bucket key) as [src|e'] eqn:Hd.
  2:{ rewrite (handler_download_fails env bucket key event w e' Hev Hel Hd)
        in Hnew.
      rewrite (new_calls_app w _
                 [Download bucket key (local_input_path_of env key)])
        in Hnew by reflexivity.
      destruct pre as [|ev [|ev' pre]]; discriminate. }
  rewrite (handler_unfold env bucket key event w src Hev Hel Hd) in *.
  set (w2 := downloaded env bucket key src w) in *.
  destruct (handler_loop env bucket key sizes [] w2) as [rl w3] eqn:Hl.
  destruct (loop_sound _ _ _ _ _ _ _ _ Hl) as (evs & ws & out & Hc & _).
  assert (Hc3 : calls w3
                = calls w
                  ++ Download bucket key (local_input_path_of env key) :: evs).
  { rewrite Hc. unfold w2, downloaded.
    cbn [calls write_file record_call snd Os.mkdtemp].
    now rewrite <- app_assoc. }
  assert (Hloop : forall pre', evs = pre' ++ Upload path b k blob :: post ->
            post = [] /\ rl = Raise e /\ files w3 !! path = Some blob).
  { intros pre' Hevs.
    apply (loop_upload_refused env bucket key sizes [] w2 rl w3 Hl pre'
             path b k blob post e); [|exact Hup].
    now rewrite (new_calls_app w2 w3 evs Hc). }
  destruct rl as [done|e'].
  - exfalso.
    destruct (finish env key (summary env bucket key done) w3)
      as [rf w4] eqn:Hf.
    destruct (finish_world env key _ _ _ _ Hf)
      as (_ & _ & _ & _ & _ & _ & Hcalls & _).
    assert (Hnew4 : new_calls w w4 = pre ++ Upload path b k blob :: post)
      by (destruct rf; exact Hnew).
    rewrite (new_calls_app w w4 _ ltac:(rewrite Hcalls; exact Hc3)) in Hnew4.
    destruct pre as [|ev pre]; [discriminate|]. injection Hnew4 as _ Hnew4.
    destruct (Hloop pre Hnew4) as (_ & Hr & _). discriminate.
  - cbn [fst snd] in *.
    rewrite (new_calls_app w w3 _ Hc3) in Hnew.
    destruct pre as [|ev pre]; [discriminate|]. injection Hnew as _ Hnew.
    destruct (Hloop pre Hnew) as (-> & [= ->] & Hfile). auto.
Qed.

Lemma refused_upload_leaves_thumbnail_witness :
  @nil Event = []
  /\ fst (lambda_handler Example.upload_fails
            (Example.s3_event "photos" "source_image/a.jpg")
            Example.empty_world)
     = Ok (failure (OtherError "S3UploadFailedError" "Failed to upload"))
  /\ files (snd (lambda_handler Example.upload_fails
                   (Example.s3_event "photos" "source_image/a.jpg")
                   Example.empty_world))
       !! "/tmp/tmpk3x/200_a_01234567.jpg"
     = Some (Picture "JPEG" (Some 70) true (mkImage (200, 112) "RGB")).
Proof.
  apply (refused_upload_leaves_thumbnail Example.upload_fails
           (Example.s3_event "photos" "source_image/a.jpg")
           Example.empty_world "photos" "source_image/a.jpg"
           [Download "photos" "source_image/a.jpg" "/tmp/tmpk3x/a.jpg";
            HeadObject "photos"
              "processed_image/a_01234567/200_a_01234567.jpg"]
           "/tmp/tmpk3x/200_a_01234567.jpg" "photos"
           "processed_image/a_01234567/200_a_01234567.jpg"
           (Picture "JPEG" (Some 70) true (mkImage (200, 112) "RGB")) []
           (OtherError "S3UploadFailedError" "Failed to upload"));
    vm_compute; reflexivity.
Defined.
